(** * Lux DEX precompiles: the Transmuter, and the Alchemist / PoolManager
      boundary it sits on

    A shallow embedding of [dex/transmuter.go] (package [dex] of
    luxfi/precompiles) together with the in-memory state database the
    package's tests run against, followed by the properties the design
    document states about them.  Further sections embed the attestation
    quotes of [ai/gpu/nvtrust.go], the post-quantum precompile of
    [pqcrypto/contract.go] and the module registry of
    [modules/registerer.go].

    Conventions.
    - [*big.Int] is [Z].  [big.Int.Div] is Euclidean division; every
      divisor in the embedded code is positive, where it agrees with [Z.div].
    - [common.Address] is [[20]byte], a record around [vec byte 20] (with a
      [Countable] instance that computes); [common.Hash], the
      [[32]byte] stake keys and byte slices are [list byte].
    - Go maps are [gmap]s.  Map values that are pointers in Go
      ([*TransmuterState], [*TransmuterStake]) are stored by value; wherever
      the Go code mutates such an object through a pointer that is already in
      a map and may return before storing it again, the embedding writes the
      mutated value back at that point.
    - A method that has a receiver [t *Transmuter] and a [stateDB] argument
      takes both and returns both, with the Go return value last. *)

From Stdlib Require Import ZArith Lia List Strings.Byte String QArith.
From stdpp Require Import base option list vector gmap fin_maps.
From Stdlib Require HexString.
From stdpp Require sorting.

#[local] Open Scope Z_scope.

(* ===================================================================== *)
(** ** Bytes and big integers *)
(* ===================================================================== *)

#[global] Instance byte_eq_dec : EqDecision byte := Byte.byte_eq_dec.

#[global] Program Instance byte_countable : Countable byte :=
  inj_countable Byte.to_N Byte.of_N _.
Next Obligation. intros b. apply Byte.of_to_N. Qed.

(** [common.Address], a [[20]byte]. *)
Record Address : Type := mkAddress { AddressVec : vec byte 20 }.

(** [Address.Bytes()]. *)
Definition AddressBytes (a : Address) : list byte := vec_to_list (AddressVec a).

(** [common.BytesToAddress] on a slice of at most 20 bytes read from the
    left; a missing byte is zero. *)
Definition BytesToAddress (b : list byte) : Address :=
  mkAddress (fun_to_vec (fun i : fin 20 => default x00 (b !! fin_to_nat i))).

Lemma BytesToAddress_Bytes (a : Address) (rest : list byte) :
  BytesToAddress (AddressBytes a ++ rest) = a.
Proof.
  destruct a as [v]. unfold BytesToAddress, AddressBytes. cbn [AddressVec]. f_equal.
  apply vec_eq. intros i. rewrite lookup_fun_to_vec.
  rewrite lookup_app_l by (rewrite length_vec_to_list; apply fin_to_nat_lt).
  by rewrite (proj1 (vlookup_lookup v i (v !!! i)) eq_refl).
Qed.

#[global] Instance Address_eq_dec : EqDecision Address.
Proof. solve_decision. Defined.

#[global] Program Instance Address_countable : Countable Address :=
  inj_countable' AddressBytes BytesToAddress _.
Next Obligation.
  intros a. rewrite <- (app_nil_r (AddressBytes a)). apply BytesToAddress_Bytes.
Qed.

Definition Hash : Type := list byte.

(** [common.Address{}] and [common.Hash{}]: the zero values. *)
Definition zeroAddress : Address := mkAddress (vreplicate 20 x00).
Definition zeroHash : Hash := replicate 32 x00.

Definition byte_of_Z (z : Z) : byte :=
  default x00 (Byte.of_N (Z.to_N (z mod 256))).

Definition Z_of_byte (b : byte) : Z := Z.of_N (Byte.to_N b).

(** [big.Int.SetBytes]: the bytes read as a big-endian unsigned integer. *)
Definition SetBytes (buf : list byte) : Z :=
  fold_left (fun acc b => acc * 256 + Z_of_byte b) buf 0.

Fixpoint be_digits (fuel : nat) (n : Z) (acc : list byte) : list byte :=
  match fuel with
  | O => acc
  | S fuel' =>
      if n =? 0 then acc
      else be_digits fuel' (n / 256) (byte_of_Z (n mod 256) :: acc)
  end.

(** [big.Int.Bytes]: the absolute value as a big-endian byte slice without
    leading zeros (empty for 0). *)
Definition Bytes (x : Z) : list byte :=
  be_digits (S (Z.to_nat (Z.log2 (Z.abs x)))) (Z.abs x) [].

(** Go's builtin [copy(dst, src)]: overwrites the first
    [min(len(dst), len(src))] bytes of [dst]. *)
Definition copy (dst src : list byte) : list byte :=
  take (length dst) src ++ drop (length src) dst.

(** A fixed-width big-endian field of [w] bytes. *)
Fixpoint put_be (w : nat) (n : Z) : list byte :=
  match w with
  | O => []
  | S w' => byte_of_Z (n / 256 ^ Z.of_nat w') :: put_be w' n
  end.

(** [uint256.FromBig]: the value modulo 2^256. *)
Definition u256 (z : Z) : Z := z mod 2 ^ 256.

(* ===================================================================== *)
(** ** The state database of the tests ([MockStateDB]) *)
(* ===================================================================== *)

Module MockStateDB.

Record t : Type := mk {
  states : gmap Address (gmap Hash Hash);
  balances : gmap Address Z;
  exists_ : gmap Address bool;
  blockNumber : Z
}.

Definition NewMockStateDB : t :=
  {| states := ∅; balances := ∅; exists_ := ∅; blockNumber := 1 |}.

Definition GetState (m : t) (addr : Address) (key : Hash) : Hash :=
  match states m !! addr with
  | Some inner =>
      match inner !! key with
      | Some value => value
      | None => zeroHash
      end
  | None => zeroHash
  end.

Definition SetState (m : t) (addr : Address) (key value : Hash) : t :=
  let inner := default ∅ (states m !! addr) in
  {| states := <[addr := <[key := value]> inner]> (states m);
     balances := balances m; exists_ := exists_ m;
     blockNumber := blockNumber m |}.

Definition GetBalance (m : t) (addr : Address) : Z :=
  default 0 (balances m !! addr).

Definition AddBalance (m : t) (addr : Address) (amount : Z) : t :=
  {| states := states m;
     balances := <[addr := u256 (GetBalance m addr + amount)]> (balances m);
     exists_ := exists_ m; blockNumber := blockNumber m |}.

Definition SubBalance (m : t) (addr : Address) (amount : Z) : t :=
  {| states := states m;
     balances := <[addr := u256 (GetBalance m addr - amount)]> (balances m);
     exists_ := exists_ m; blockNumber := blockNumber m |}.

Definition Exist (m : t) (addr : Address) : bool :=
  default false (exists_ m !! addr).

Definition CreateAccount (m : t) (addr : Address) : t :=
  {| states := states m; balances := balances m;
     exists_ := <[addr := true]> (exists_ m); blockNumber := blockNumber m |}.

Definition GetBlockNumber (m : t) : Z := blockNumber m.

Definition SetBlockNumber (m : t) (block : Z) : t :=
  {| states := states m; balances := balances m; exists_ := exists_ m;
     blockNumber := block |}.

End MockStateDB.

Abbreviation StateDB := MockStateDB.t.

(* ===================================================================== *)
(** ** dex/transmuter.go *)
(* ===================================================================== *)

(** The fixed-point unit of the exchange-rate index.  The constant is declared
    in another file of the package; the tests build the 1:1 price as
    [Lsh(1, 96)] and [InitializeTransmuter] uses [Q96] as the 1:1 rate. *)
Definition Q96 : Z := 2 ^ 96.
#[global] Arguments Q96 : simpl never.

Inductive Error : Type :=
  | ErrSyntheticNotRegistered
  | ErrInvalidPositionSize
  | ErrTransmuterEmpty.

Inductive result (A : Type) : Type :=
  | Ok (a : A)
  | Err (e : Error).
Arguments Ok {A} a.
Arguments Err {A} e.

Record Currency : Type := mkCurrency { CurrencyAddress : Address }.

Record TransmuterState : Type := mkTransmuterState {
  SyntheticToken : Address;
  UnderlyingAsset : Currency;
  ExchangeBuffer : Z;
  TotalStaked : Z;
  ExchangeRate : Z
}.

(** The Go field [TransmuterStake.SyntheticToken] is [StakeSyntheticToken]
    here (record fields share one name space). *)
Record TransmuterStake : Type := mkTransmuterStake {
  Owner : Address;
  StakeSyntheticToken : Address;
  StakedAmount : Z;
  UnclaimedAmount : Z;
  LastUpdateIndex : Z
}.

Record Transmuter : Type := mkTransmuter {
  states : gmap Address TransmuterState;
  stakes : gmap (list byte) TransmuterStake
}.

Definition NewTransmuter : Transmuter := {| states := ∅; stakes := ∅ |}.

Definition transmuterStatePrefix : list byte := list_byte_of_string "xmut/state".
Definition transmuterStakePrefix : list byte := list_byte_of_string "xmut/stake".
Definition transmuterQueuePrefix : list byte := list_byte_of_string "xmut/queue".

(** What the file takes from outside: the precompile's own address (a
    constant of the package), the 32-byte BLAKE3 digest, and the package's
    [makeStorageKey] helper. *)
Class Externals : Type := {
  transmuterAddr : Address;
  blake3_256 : list byte -> list byte;
  makeStorageKey : list byte -> list byte -> Hash
}.

Definition set_states (f : gmap Address TransmuterState -> gmap Address TransmuterState)
    (t : Transmuter) : Transmuter :=
  {| states := f (states t); stakes := stakes t |}.

Definition set_stakes (f : gmap (list byte) TransmuterStake -> gmap (list byte) TransmuterStake)
    (t : Transmuter) : Transmuter :=
  {| states := states t; stakes := f (stakes t) |}.

Definition with_ExchangeBuffer (v : Z) (s : TransmuterState) : TransmuterState :=
  {| SyntheticToken := SyntheticToken s; UnderlyingAsset := UnderlyingAsset s;
     ExchangeBuffer := v; TotalStaked := TotalStaked s;
     ExchangeRate := ExchangeRate s |}.

Definition with_TotalStaked (v : Z) (s : TransmuterState) : TransmuterState :=
  {| SyntheticToken := SyntheticToken s; UnderlyingAsset := UnderlyingAsset s;
     ExchangeBuffer := ExchangeBuffer s; TotalStaked := v;
     ExchangeRate := ExchangeRate s |}.

Definition with_ExchangeRate (v : Z) (s : TransmuterState) : TransmuterState :=
  {| SyntheticToken := SyntheticToken s; UnderlyingAsset := UnderlyingAsset s;
     ExchangeBuffer := ExchangeBuffer s; TotalStaked := TotalStaked s;
     ExchangeRate := v |}.

Definition with_StakedAmount (v : Z) (s : TransmuterStake) : TransmuterStake :=
  {| Owner := Owner s; StakeSyntheticToken := StakeSyntheticToken s;
     StakedAmount := v; UnclaimedAmount := UnclaimedAmount s;
     LastUpdateIndex := LastUpdateIndex s |}.

Definition with_UnclaimedAmount (v : Z) (s : TransmuterStake) : TransmuterStake :=
  {| Owner := Owner s; StakeSyntheticToken := StakeSyntheticToken s;
     StakedAmount := StakedAmount s; UnclaimedAmount := v;
     LastUpdateIndex := LastUpdateIndex s |}.

Definition with_LastUpdateIndex (v : Z) (s : TransmuterStake) : TransmuterStake :=
  {| Owner := Owner s; StakeSyntheticToken := StakeSyntheticToken s;
     StakedAmount := StakedAmount s; UnclaimedAmount := UnclaimedAmount s;
     LastUpdateIndex := v |}.

(** [updateStakeUnclaimed]: the reconciliation step. *)
Definition updateStakeUnclaimed (stake : TransmuterStake) (state : TransmuterState)
    : TransmuterStake :=
  if StakedAmount stake =? 0 then stake
  else
    let rateDiff := ExchangeRate state - LastUpdateIndex stake in
    if rateDiff <=? 0 then stake
    else
      let newUnclaimed := StakedAmount stake * rateDiff / Q96 in
      let stake1 := with_UnclaimedAmount (UnclaimedAmount stake + newUnclaimed) stake in
      let stake2 :=
        if newUnclaimed >=? StakedAmount stake1
        then with_StakedAmount 0 stake1
        else with_StakedAmount (StakedAmount stake1 - newUnclaimed) stake1 in
      with_LastUpdateIndex (ExchangeRate state) stake2.

(** The 32-byte slot written by [saveStake] and [saveState]: two [copy]
    calls into the halves of a zero [common.Hash]. *)
Definition packHalves (hi lo : Z) : Hash :=
  copy (take 16 zeroHash) (Bytes hi) ++ copy (drop 16 zeroHash) (Bytes lo).

Section Transmuter.
Context `{Externals}.

(** [stakeKey]: BLAKE3 over the two addresses, 32 bytes of output. *)
Definition stakeKey (synthetic owner : Address) : list byte :=
  blake3_256 (AddressBytes synthetic ++ AddressBytes owner).

Definition getStake (t : Transmuter) (stateDB : StateDB) (key : list byte)
    : Transmuter * option TransmuterStake :=
  match stakes t !! key with
  | Some stake => (t, Some stake)
  | None =>
      let storageKey := makeStorageKey transmuterStakePrefix key in
      let data := MockStateDB.GetState stateDB transmuterAddr storageKey in
      if decide (data = zeroHash) then (t, None)
      else
        let stake :=
          {| Owner := zeroAddress; StakeSyntheticToken := zeroAddress;
             StakedAmount := SetBytes (take 16 data);
             UnclaimedAmount := SetBytes (drop 16 data);
             LastUpdateIndex := Q96 |} in
        (set_stakes (insert key stake) t, Some stake)
  end.

Definition saveStake (t : Transmuter) (stateDB : StateDB) (key : list byte)
    (stake : TransmuterStake) : Transmuter * StateDB :=
  let t' := set_stakes (insert key stake) t in
  let storageKey := makeStorageKey transmuterStakePrefix key in
  let data := packHalves (StakedAmount stake) (UnclaimedAmount stake) in
  (t', MockStateDB.SetState stateDB transmuterAddr storageKey data).

Definition saveState (t : Transmuter) (stateDB : StateDB) (state : TransmuterState)
    : Transmuter * StateDB :=
  let t' := set_states (insert (SyntheticToken state) state) t in
  let storageKey := makeStorageKey transmuterStatePrefix (AddressBytes (SyntheticToken state)) in
  let data := packHalves (ExchangeBuffer state) (TotalStaked state) in
  (t', MockStateDB.SetState stateDB transmuterAddr storageKey data).

(** [transferSynthetic] and [transferUnderlying] have the same body. *)
Definition transfer (stateDB : StateDB) (from to : Address) (amount : Z) : StateDB :=
  let amountU256 := u256 amount in
  MockStateDB.AddBalance (MockStateDB.SubBalance stateDB from amountU256) to amountU256.

Definition transferSynthetic (stateDB : StateDB) (token from to : Address)
    (amount : Z) : StateDB :=
  transfer stateDB from to amount.

Definition transferUnderlying (stateDB : StateDB) (currency : Currency)
    (from to : Address) (amount : Z) : StateDB :=
  transfer stateDB from to amount.

Definition InitializeTransmuter (t : Transmuter) (stateDB : StateDB)
    (syntheticToken : Address) (underlyingAsset : Currency)
    : Transmuter * StateDB * option Error :=
  match states t !! syntheticToken with
  | Some _ => (t, stateDB, Some ErrSyntheticNotRegistered)
  | None =>
      let state :=
        {| SyntheticToken := syntheticToken; UnderlyingAsset := underlyingAsset;
           ExchangeBuffer := 0; TotalStaked := 0; ExchangeRate := Q96 |} in
      let t1 := set_states (insert syntheticToken state) t in
      (saveState t1 stateDB state, None)
  end.

Definition Stake (t : Transmuter) (stateDB : StateDB)
    (owner syntheticToken : Address) (amount : Z)
    : Transmuter * StateDB * option Error :=
  match states t !! syntheticToken with
  | None => (t, stateDB, Some ErrSyntheticNotRegistered)
  | Some state =>
      if amount <=? 0 then (t, stateDB, Some ErrInvalidPositionSize)
      else
        let key := stakeKey syntheticToken owner in
        let '(t1, found) := getStake t stateDB key in
        let stake0 :=
          match found with
          | Some stake => stake
          | None =>
              {| Owner := owner; StakeSyntheticToken := syntheticToken;
                 StakedAmount := 0; UnclaimedAmount := 0;
                 LastUpdateIndex := ExchangeRate state |}
          end in
        let stake1 := updateStakeUnclaimed stake0 state in
        let db1 := transferSynthetic stateDB syntheticToken owner transmuterAddr amount in
        let stake2 := with_StakedAmount (StakedAmount stake1 + amount) stake1 in
        let stake3 := with_LastUpdateIndex (ExchangeRate state) stake2 in
        let state1 := with_TotalStaked (TotalStaked state + amount) state in
        (* state is the object held in t.states[syntheticToken] *)
        let t2 := set_states (insert syntheticToken state1) t1 in
        let '(t3, db2) := saveStake t2 db1 key stake3 in
        (saveState t3 db2 state1, None)
  end.

Definition Unstake (t : Transmuter) (stateDB : StateDB)
    (owner syntheticToken : Address) (amount : Z)
    : Transmuter * StateDB * option Error :=
  match states t !! syntheticToken with
  | None => (t, stateDB, Some ErrSyntheticNotRegistered)
  | Some state =>
      let key := stakeKey syntheticToken owner in
      let '(t1, found) := getStake t stateDB key in
      match found with
      | None => (t1, stateDB, Some ErrInvalidPositionSize)
      | Some stake =>
          if StakedAmount stake =? 0
          then (t1, stateDB, Some ErrInvalidPositionSize)
          else
            let stake1 := updateStakeUnclaimed stake state in
            let amount1 :=
              if amount >? StakedAmount stake1 then StakedAmount stake1 else amount in
            let stake2 := with_StakedAmount (StakedAmount stake1 - amount1) stake1 in
            let state1 := with_TotalStaked (TotalStaked state - amount1) state in
            let t2 := set_states (insert syntheticToken state1) t1 in
            let db1 := transferSynthetic stateDB syntheticToken transmuterAddr owner amount1 in
            let '(t3, db2) := saveStake t2 db1 key stake2 in
            (saveState t3 db2 state1, None)
      end
  end.

Definition Claim (t : Transmuter) (stateDB : StateDB)
    (owner syntheticToken : Address)
    : Transmuter * StateDB * result Z :=
  match states t !! syntheticToken with
  | None => (t, stateDB, Err ErrSyntheticNotRegistered)
  | Some state =>
      let key := stakeKey syntheticToken owner in
      let '(t1, found) := getStake t stateDB key in
      match found with
      | None => (t1, stateDB, Err ErrTransmuterEmpty)
      | Some stake =>
          let stake1 := updateStakeUnclaimed stake state in
          (* stake is the object held in t.stakes[key]: the update above is
             visible there even when Claim returns before saveStake *)
          let t2 := set_stakes (insert key stake1) t1 in
          let claimAmount := UnclaimedAmount stake1 in
          if claimAmount =? 0 then (t2, stateDB, Ok 0)
          else
            let claimAmount1 :=
              if claimAmount >? ExchangeBuffer state
              then ExchangeBuffer state else claimAmount in
            let stake2 :=
              with_UnclaimedAmount (UnclaimedAmount stake1 - claimAmount1) stake1 in
            let state1 :=
              with_ExchangeBuffer (ExchangeBuffer state - claimAmount1) state in
            let t3 := set_states (insert syntheticToken state1) t2 in
            let db1 :=
              transferUnderlying stateDB (UnderlyingAsset state1)
                transmuterAddr owner claimAmount1 in
            let '(t4, db2) := saveStake t3 db1 key stake2 in
            (saveState t4 db2 state1, Ok claimAmount1)
      end
  end.

Definition Deposit (t : Transmuter) (stateDB : StateDB)
    (syntheticToken : Address) (underlyingAmount : Z)
    : Transmuter * StateDB * option Error :=
  match states t !! syntheticToken with
  | None => (t, stateDB, Some ErrSyntheticNotRegistered)
  | Some state =>
      if underlyingAmount <=? 0 then (t, stateDB, None)
      else
        let state1 :=
          with_ExchangeBuffer (ExchangeBuffer state + underlyingAmount) state in
        let state2 :=
          if TotalStaked state1 >? 0 then
            let rateIncrease := underlyingAmount * Q96 / TotalStaked state1 in
            with_ExchangeRate (ExchangeRate state1 + rateIncrease) state1
          else state1 in
        let t1 := set_states (insert syntheticToken state2) t in
        (saveState t1 stateDB state2, None)
  end.

Definition GetStake (t : Transmuter) (stateDB : StateDB)
    (owner syntheticToken : Address) : Transmuter * option TransmuterStake :=
  getStake t stateDB (stakeKey syntheticToken owner).

Definition GetTransmuterState (t : Transmuter) (syntheticToken : Address)
    : option TransmuterState :=
  states t !! syntheticToken.

Definition GetClaimable (t : Transmuter) (stateDB : StateDB)
    (owner syntheticToken : Address) : Transmuter * Z :=
  match states t !! syntheticToken with
  | None => (t, 0)
  | Some state =>
      let key := stakeKey syntheticToken owner in
      let '(t1, found) := getStake t stateDB key in
      match found with
      | None => (t1, 0)
      | Some stake =>
          let unclaimed := UnclaimedAmount stake in
          let unclaimed1 :=
            if StakedAmount stake >? 0 then
              let rateDiff := ExchangeRate state - LastUpdateIndex stake in
              if rateDiff >? 0
              then unclaimed + StakedAmount stake * rateDiff / Q96
              else unclaimed
            else unclaimed in
          if unclaimed1 >? ExchangeBuffer state
          then (t1, ExchangeBuffer state)
          else (t1, unclaimed1)
      end
  end.

Definition GetExchangeRate (t : Transmuter) (syntheticToken : Address) : Z :=
  match states t !! syntheticToken with
  | None => Q96
  | Some state => ExchangeRate state
  end.

End Transmuter.

(* ===================================================================== *)
(** ** Fixtures of the package's tests *)
(* ===================================================================== *)

Definition e18 : Z := 10 ^ 18.

Definition testSyntheticToken : Address := mkAddress (vreplicate 20 x22).
Definition testUser1 : Address := mkAddress (vreplicate 20 x33).
Definition testUser2 : Address := mkAddress (vreplicate 20 x44).
Definition testUnderlying : Currency := mkCurrency (mkAddress (vreplicate 20 x55)).

(** The identity as digest and concatenation as storage key: injective
    stand-ins under which the embedding runs. *)
Definition idealExternals : Externals :=
  {| transmuterAddr := mkAddress (vreplicate 20 "T"%byte);
     blake3_256 := fun l => l;
     makeStorageKey := fun prefix key => prefix ++ key |}.

(* ===================================================================== *)
(** ** PoolKey and its 66-byte encoding *)
(* ===================================================================== *)

Module PoolKeys.

(** Modelled from the spec: the [PoolKey] struct, declared in a file of
    the package that is not part of the sources at hand; the fields are
    those the tests construct (Currency0, Currency1, Fee, TickSpacing,
    Hooks). *)
Record PoolKey : Type := mkPoolKey {
  Currency0 : Currency;
  Currency1 : Currency;
  Fee : Z;
  TickSpacing : Z;
  Hooks : Address
}.

(** Modelled from the spec: [PoolKey.ToBytes], absent from the sources.
    "PoolKey encodes to a fixed 66 bytes (20+20+3+2+20+1)": the two
    currencies, the fee tier on 3 bytes, the tick spacing on 2 bytes, the
    hooks address and one more byte, which the spec does not name and which
    is written as zero here; multi-byte fields are big-endian. *)
Definition ToBytes (k : PoolKey) : list byte :=
  AddressBytes (CurrencyAddress (Currency0 k))
  ++ AddressBytes (CurrencyAddress (Currency1 k))
  ++ put_be 3 (Fee k)
  ++ put_be 2 (TickSpacing k)
  ++ AddressBytes (Hooks k)
  ++ [x00].

Inductive DecodeError : Type := ErrInvalidPoolKey.

(** Modelled from the spec: [PoolKeyFromBytes], absent from the sources;
    it returns a key or an error, and is the inverse of [ToBytes] on the
    66-byte layout. *)
Definition PoolKeyFromBytes (data : list byte) : PoolKey + DecodeError :=
  if decide (length data = 66%nat) then
    inl {| Currency0 := mkCurrency (BytesToAddress (take 20 data));
           Currency1 := mkCurrency (BytesToAddress (take 20 (drop 20 data)));
           Fee := SetBytes (take 3 (drop 40 data));
           TickSpacing := SetBytes (take 2 (drop 43 data));
           Hooks := BytesToAddress (take 20 (drop 45 data)) |}
  else inr ErrInvalidPoolKey.

(** Addresses compare as 160-bit big-endian numbers. *)
Definition AddressLt (a b : Address) : Prop :=
  SetBytes (AddressBytes a) < SetBytes (AddressBytes b).

(** A valid key: currencies in canonical order, fee tier a [uint24], tick
    spacing within the two bytes of its field. *)
Definition valid (k : PoolKey) : Prop :=
  AddressLt (CurrencyAddress (Currency0 k)) (CurrencyAddress (Currency1 k)) /\
  0 <= Fee k < 2 ^ 24 /\
  0 <= TickSpacing k < 2 ^ 16.

(** [NativeCurrency], [Fee030], [TickSpacing030] and [newTestPoolKey] of
    the tests. *)
Definition NativeCurrency : Currency := mkCurrency zeroAddress.

Definition newTestPoolKey : PoolKey :=
  {| Currency0 := NativeCurrency;
     Currency1 := mkCurrency (BytesToAddress
       [x12; x34; x56; x78; x90; x12; x34; x56; x78; x90;
        x12; x34; x56; x78; x90; x12; x34; x56; x78; x90]);
     Fee := 3000; TickSpacing := 60; Hooks := zeroAddress |}.

End PoolKeys.

(* ===================================================================== *)
(** ** Alchemist: harvest and Mint *)
(* ===================================================================== *)

Module Alchemist.

(** [MaxLTV] and [LTVPrecision], as the tests use them: 90 of 100. *)
Definition MaxLTV : Z := 90.
Definition LTVPrecision : Z := 100.

Inductive Error : Type :=
  | ErrYieldTokenNotRegistered
  | ErrSyntheticNotRegistered
  | ErrAccountNotFound
  | ErrMaxLTVExceeded
  | ErrDebtCeilingExceeded.

(** Modelled from the spec: the Alchemist's records (section 3 of the
    design: YieldToken, SyntheticToken, Account), declared in a file of the
    package that is not part of the sources at hand. *)
Record YieldToken : Type := mkYieldToken {
  Underlying : Currency;
  YieldPerBlock : Z;
  TotalDeposited : Z;
  IsActive : bool
}.

Record SyntheticToken : Type := mkSyntheticToken {
  SyntheticUnderlying : Currency;
  DebtCeiling : Z;
  TotalDebt : Z
}.

Record Account : Type := mkAccount {
  Collateral : Z;
  Debt : Z;
  LastHarvestBlock : Z
}.

Record t : Type := mk {
  yieldTokens : gmap Address YieldToken;
  synthetics : gmap Address SyntheticToken;
  accounts : gmap (Address * Address) Account
}.

(** Modelled from the spec: the harvest prelude, absent from the sources.
    "elapsed = currentBlock - Account.LastHarvestBlock; accrued =
    Collateral * YieldPerBlock * elapsed / 1e18; applies min(accrued, Debt)
    to reduce Debt; advances LastHarvestBlock." *)
Definition harvest (account : Account) (yt : YieldToken) (currentBlock : Z) : Account :=
  let elapsed := currentBlock - LastHarvestBlock account in
  let accrued := Collateral account * YieldPerBlock yt * elapsed / 10 ^ 18 in
  {| Collateral := Collateral account;
     Debt := Debt account - Z.min accrued (Debt account);
     LastHarvestBlock := currentBlock |}.

(** The loan-to-value ratio of a debt against a collateral, in
    [LTVPrecision] units, as an exact quotient. *)
Definition ltv (debt collateral : Z) : Q :=
  (inject_Z (debt * LTVPrecision) / inject_Z collateral)%Q.

(** Modelled from the spec: [Alchemist.Mint], absent from the sources (only
    its tests are at hand).  "harvest; let newLTV = (Debt+amount) *
    LTVPrecision / Collateral; fails ErrMaxLTVExceeded if newLTV > MaxLTV;
    else increase Debt, check debt ceiling, transfer synthetic out", with
    "validate-then-apply: no partial mutation on rejection".  The quotient
    is exact: [TestAlchemist_Mint_MaxLTV] expects Mint(1) to fail at a debt
    of 90e18 against 100e18, which a rounded-down quotient would accept. *)
Definition Mint (a : t) (stateDB : StateDB) (owner yieldToken syntheticToken : Address)
    (amount : Z) : t * StateDB * option Error :=
  match yieldTokens a !! yieldToken with
  | None => (a, stateDB, Some ErrYieldTokenNotRegistered)
  | Some yt =>
  match synthetics a !! syntheticToken with
  | None => (a, stateDB, Some ErrSyntheticNotRegistered)
  | Some synth =>
  match accounts a !! (owner, yieldToken) with
  | None => (a, stateDB, Some ErrAccountNotFound)
  | Some account =>
      let account1 := harvest account yt (MockStateDB.blockNumber stateDB) in
      let newLTV := ltv (Debt account1 + amount) (Collateral account1) in
      match (newLTV ?= inject_Z MaxLTV)%Q with
      | Gt => (a, stateDB, Some ErrMaxLTVExceeded)
      | _ =>
          if TotalDebt synth + amount >? DebtCeiling synth
          then (a, stateDB, Some ErrDebtCeilingExceeded)
          else
            let account2 :=
              {| Collateral := Collateral account1;
                 Debt := Debt account1 + amount;
                 LastHarvestBlock := LastHarvestBlock account1 |} in
            let synth1 :=
              {| SyntheticUnderlying := SyntheticUnderlying synth;
                 DebtCeiling := DebtCeiling synth;
                 TotalDebt := TotalDebt synth + amount |} in
            ({| yieldTokens := yieldTokens a;
                synthetics := <[syntheticToken := synth1]> (synthetics a);
                accounts := <[(owner, yieldToken) := account2]> (accounts a) |},
             MockStateDB.AddBalance stateDB owner (u256 amount),
             None)
      end
  end end end.

(** Modelled from the spec: [GetLTV], "LTV = Debt * LTVPrecision /
    Collateral", the integer the tests read with [Int64]. *)
Definition GetLTV (a : t) (owner yieldToken : Address) : Z :=
  match accounts a !! (owner, yieldToken) with
  | Some account =>
      if Collateral account =? 0 then 0
      else Debt account * LTVPrecision / Collateral account
  | None => 0
  end.

(** The state of [TestAlchemist_Mint_MaxLTV] after its deposit of 100e18
    at block 1. *)
Definition testYieldToken : Address := mkAddress (vreplicate 20 x11).

Definition test_alchemist : t :=
  {| yieldTokens :=
       {[ testYieldToken :=
            {| Underlying := testUnderlying; YieldPerBlock := 10 ^ 15;
               TotalDeposited := 100 * e18; IsActive := true |} ]};
     synthetics :=
       {[ testSyntheticToken :=
            {| SyntheticUnderlying := testUnderlying;
               DebtCeiling := 10 ^ 24; TotalDebt := 0 |} ]};
     accounts :=
       {[ (testUser1, testYieldToken) :=
            {| Collateral := 100 * e18; Debt := 0; LastHarvestBlock := 1 |} ]} |}.

(** The state [Mint] leaves when it succeeds. *)
Definition minted (a : t) (stateDB : StateDB) (owner yieldToken syntheticToken : Address)
    (amount : Z) (a' : t) : Prop :=
  exists yt account account',
    yieldTokens a !! yieldToken = Some yt /\
    accounts a !! (owner, yieldToken) = Some account /\
    accounts a' !! (owner, yieldToken) = Some account' /\
    Debt account' =
      Debt (harvest account yt (MockStateDB.blockNumber stateDB)) + amount /\
    Collateral account' = Collateral account.

Definition test_yt : YieldToken :=
  {| Underlying := testUnderlying; YieldPerBlock := 10 ^ 15;
     TotalDeposited := 100 * e18; IsActive := true |}.

Definition test_synth : SyntheticToken :=
  {| SyntheticUnderlying := testUnderlying; DebtCeiling := 10 ^ 24; TotalDebt := 0 |}.

Definition test_account : Account :=
  {| Collateral := 100 * e18; Debt := 0; LastHarvestBlock := 1 |}.

End Alchemist.

(* ===================================================================== *)
(** ** PoolManager: the lock and its flash accounting *)
(* ===================================================================== *)

#[global] Instance Currency_eq_dec : EqDecision Currency.
Proof. solve_decision. Defined.

#[global] Program Instance Currency_countable : Countable Currency :=
  inj_countable' CurrencyAddress mkCurrency _.
Next Obligation. by intros []. Qed.

Module PoolManager.

Inductive Error : Type :=
  | ErrUnauthorized
  | ErrPoolNotInitialized
  | ErrCurrencyNotSettled.

(** Modelled from the spec: the [Pool] record of section 3 (square-root
    price, tick, active liquidity, the two fee-growth accumulators);
    declared in a file of the package that is not among the sources. *)
Record Pool : Type := mkPool {
  SqrtPriceX96 : Z;
  Tick : Z;
  Liquidity : Z;
  FeeGrowth0X128 : Z;
  FeeGrowth1X128 : Z
}.

(** Modelled from the spec: the manager's state, with the fields the tests
    reach into: [pools] by pool id, the stack [lockers], and
    [currentDeltas], per locker and currency. *)
Record t : Type := mk {
  pools : gmap (list byte) Pool;
  lockers : list Address;
  currentDeltas : gmap Address (gmap Currency Z)
}.

Definition NewPoolManager : t :=
  {| pools := ∅; lockers := []; currentDeltas := ∅ |}.

(** Modelled from the spec: [GetDelta], absent from the sources; the delta
    a locker holds for a currency, zero when none is booked. *)
Definition GetDelta (pm : t) (caller : Address) (c : Currency) : Z :=
  default 0 (default ∅ (currentDeltas pm !! caller) !! c).

(** Modelled from the spec: [updateDelta], absent from the sources; adds a
    signed amount to the locker's delta for a currency. *)
Definition updateDelta (pm : t) (caller : Address) (c : Currency) (amount : Z) : t :=
  let frame := default ∅ (currentDeltas pm !! caller) in
  {| pools := pools pm; lockers := lockers pm;
     currentDeltas :=
       <[caller := <[c := default 0 (frame !! c) + amount]> frame]> (currentDeltas pm) |}.

(** What an operation run inside a lock does, as far as the lock is
    concerned: it books a delta to the open frame (Swap, ModifyLiquidity,
    Donate, Flash), settles one, writes a pool, or fails. *)
Inductive Action : Type :=
  | Book (c : Currency) (amount : Z)
  | Settle (c : Currency) (amount : Z)
  | WritePool (id : list byte) (pool : Pool)
  | Fail (e : Error).

Inductive outcome (A : Type) : Type :=
  | Done (a : A)
  | Abort (e : Error).
Arguments Done {A} a.
Arguments Abort {A} e.

(** Modelled from the spec: one operation inside the lock.  Every
    operation needs an open frame ([ErrUnauthorized] otherwise) and books
    to the frame on top of the stack; "Settle(currency, amount) reduces the
    frame's delta for currency and performs the matching transfer". *)
Definition exec (poolManagerAddr : Address) (act : Action) (w : t * StateDB)
    : outcome (t * StateDB) :=
  let '(pm, db) := w in
  match last (lockers pm) with
  | None => Abort ErrUnauthorized
  | Some caller =>
      match act with
      | Book c amount => Done (updateDelta pm caller c amount, db)
      | Settle c amount =>
          Done (updateDelta pm caller c (- amount),
                MockStateDB.AddBalance
                  (MockStateDB.SubBalance db caller (u256 amount))
                  poolManagerAddr (u256 amount))
      | WritePool id pool =>
          Done ({| pools := <[id := pool]> (pools pm); lockers := lockers pm;
                   currentDeltas := currentDeltas pm |}, db)
      | Fail e => Abort e
      end
  end.

Fixpoint execAll (poolManagerAddr : Address) (acts : list Action) (w : t * StateDB)
    : outcome (t * StateDB) :=
  match acts with
  | [] => Done w
  | act :: rest =>
      match exec poolManagerAddr act w with
      | Done w' => execAll poolManagerAddr rest w'
      | Abort e => Abort e
      end
  end.

(** Every delta of the locker's frame is zero. *)
Definition settled (pm : t) (caller : Address) : bool :=
  bool_decide (map_Forall (fun _ v => v = 0) (default ∅ (currentDeltas pm !! caller))).

(** Modelled from the spec: [PoolManager.Lock], absent from the sources
    (only its tests are at hand).  "Lock(caller, op) pushes a frame for
    caller, executes the supplied operation, and on return requires every
    currency delta attributed to that frame to be exactly zero - otherwise
    the whole call aborts with no persisted mutation"; on success the frame
    is popped.  The operation is the sequence of its actions. *)
Definition Lock (poolManagerAddr : Address) (pm : t) (db : StateDB)
    (caller : Address) (acts : list Action) : t * StateDB * outcome unit :=
  let opened :=
    {| pools := pools pm; lockers := lockers pm ++ [caller];
       currentDeltas := <[caller := ∅]> (currentDeltas pm) |} in
  match execAll poolManagerAddr acts (opened, db) with
  | Abort e => (pm, db, Abort e)
  | Done (pm', db') =>
      if settled pm' caller then
        ({| pools := pools pm'; lockers := removelast (lockers pm');
            currentDeltas := delete caller (currentDeltas pm') |}, db', Done tt)
      else (pm, db, Abort ErrCurrencyNotSettled)
  end.

(** The summed delta a sequence of actions books for a currency. *)
Fixpoint net (acts : list Action) (c : Currency) : Z :=
  match acts with
  | [] => 0
  | Book c' amount :: rest => (if decide (c' = c) then amount else 0) + net rest c
  | Settle c' amount :: rest => (if decide (c' = c) then - amount else 0) + net rest c
  | _ :: rest => net rest c
  end.

Definition succeeds (act : Action) : Prop :=
  match act with Fail _ => False | _ => True end.

End PoolManager.

(* ===================================================================== *)
(** ** Vocabulary of the Transmuter's properties *)
(* ===================================================================== *)

(** What a stake has converted at the current rate but not yet reconciled
    (the quantity [GetClaimable] adds to [UnclaimedAmount]). *)
Definition accrued (stake : TransmuterStake) (state : TransmuterState) : Z :=
  if (StakedAmount stake >? 0) && (ExchangeRate state - LastUpdateIndex stake >? 0)
  then StakedAmount stake * (ExchangeRate state - LastUpdateIndex stake) / Q96
  else 0.

Section TransmuterVocabulary.
Context `{Externals}.

(** The staked amount recorded for an owner (0 when there is no stake). *)
Definition staked_of (t : Transmuter) (syntheticToken owner : Address) : Z :=
  from_option StakedAmount 0 (stakes t !! stakeKey syntheticToken owner).

(** The value returned by [GetClaimable]. *)
Definition claimable (t : Transmuter) (db : StateDB) (syntheticToken owner : Address) : Z :=
  (GetClaimable t db owner syntheticToken).2.

(** The stakers of the claim: each has a stake in the transmuter that is
    reconciled to the current rate, non-negative, and whose pending
    amount the buffer covers. *)
Definition reconciled_staker (t : Transmuter) (syntheticToken : Address)
    (state : TransmuterState) (owner : Address) : Prop :=
  exists stake,
    stakes t !! stakeKey syntheticToken owner = Some stake /\
    0 <= StakedAmount stake /\
    LastUpdateIndex stake = ExchangeRate state /\
    UnclaimedAmount stake <= ExchangeBuffer state.

Definition total_of (t : Transmuter) (syntheticToken : Address)
    (owners : list Address) : Z :=
  foldr (fun o acc => staked_of t syntheticToken o + acc) 0 owners.

End TransmuterVocabulary.

(** The sum of [g] over the values of a finite map. *)
Definition sumZ {V : Type} (g : V -> Z) (m : gmap (list byte) V) : Z :=
  foldr (fun kv acc => g kv.2 + acc) 0 (map_to_list m).

Definition staked_part (syntheticToken : Address) (stake : TransmuterStake) : Z :=
  if decide (StakeSyntheticToken stake = syntheticToken) then StakedAmount stake else 0.




Definition staked_sum (t : Transmuter) (syntheticToken : Address) : Z :=
  sumZ (staked_part syntheticToken) (stakes t).



Inductive Op : Type :=
  | OpInitialize (syntheticToken : Address) (underlyingAsset : Currency)
  | OpStake (owner syntheticToken : Address) (amount : Z)
  | OpUnstake (owner syntheticToken : Address) (amount : Z)
  | OpClaim (owner syntheticToken : Address)
  | OpDeposit (syntheticToken : Address) (underlyingAmount : Z)
  | OpGetStake (owner syntheticToken : Address)
  | OpGetClaimable (owner syntheticToken : Address).

(** One public call on the transmuter; the Go return value is dropped, the
    transmuter and the state database are kept whatever it was. *)
Definition step `{Externals} (op : Op) (w : Transmuter * StateDB) : Transmuter * StateDB :=
  match op with
  | OpInitialize s u => (InitializeTransmuter w.1 w.2 s u).1
  | OpStake o s a => (Stake w.1 w.2 o s a).1
  | OpUnstake o s a => (Unstake w.1 w.2 o s a).1
  | OpClaim o s => (Claim w.1 w.2 o s).1
  | OpDeposit s a => (Deposit w.1 w.2 s a).1
  | OpGetStake o s => ((GetStake w.1 w.2 o s).1, w.2)
  | OpGetClaimable o s => ((GetClaimable w.1 w.2 o s).1, w.2)
  end.

Definition run `{Externals} (ops : list Op) (w : Transmuter * StateDB)
    : Transmuter * StateDB :=
  fold_left (fun w op => step op w) ops w.

(** The storage slot [getStake] reads for a stake key. *)
Definition stake_slot `{Externals} (db : StateDB) (key : list byte) : Hash :=
  MockStateDB.GetState db transmuterAddr (makeStorageKey transmuterStakePrefix key).





(** ** States and calls the properties are tried on *)

Definition stake_1 : TransmuterStake :=
  {| Owner := zeroAddress; StakeSyntheticToken := zeroAddress;
     StakedAmount := 1; UnclaimedAmount := 0; LastUpdateIndex := Q96 |}.

Definition state_rate_3 : TransmuterState :=
  {| SyntheticToken := zeroAddress; UnderlyingAsset := mkCurrency zeroAddress;
     ExchangeBuffer := 2; TotalStaked := 1; ExchangeRate := 3 * Q96 |}.

(** The stake of [TestTransmuter_Deposit_And_Claim] after the claim: 50e18
    still staked, nothing pending, snapshot at 1.5 * Q96. *)
Definition stake_after_claim : TransmuterStake :=
  {| Owner := mkAddress (vreplicate 20 x33);
     StakeSyntheticToken := mkAddress (vreplicate 20 x22);
     StakedAmount := 50 * e18; UnclaimedAmount := 0;
     LastUpdateIndex := Q96 + Q96 / 2 |}.

(** The calls of [TestTransmuter_MultipleStakers], followed by a claim and
    an unstake. *)
Definition test_ops : list Op :=
  [ OpInitialize testSyntheticToken testUnderlying;
    OpStake testUser1 testSyntheticToken (100 * e18);
    OpStake testUser2 testSyntheticToken (200 * e18);
    OpDeposit testSyntheticToken (150 * e18);
    OpClaim testUser1 testSyntheticToken;
    OpUnstake testUser2 testSyntheticToken (50 * e18) ].

Definition test_world : Transmuter * StateDB :=
  @run idealExternals test_ops (NewTransmuter, MockStateDB.NewMockStateDB).

(** The world of [TestTransmuter_MultipleStakers] before and after its
    deposit. *)
Definition world_staked : Transmuter * StateDB :=
  @run idealExternals (take 3 test_ops) (NewTransmuter, MockStateDB.NewMockStateDB).

Definition world_deposited : Transmuter * StateDB :=
  @run idealExternals (take 4 test_ops) (NewTransmuter, MockStateDB.NewMockStateDB).

Definition state_staked : TransmuterState :=
  {| SyntheticToken := testSyntheticToken; UnderlyingAsset := testUnderlying;
     ExchangeBuffer := 0; TotalStaked := 300 * e18; ExchangeRate := Q96 |}.

Definition state_deposited : TransmuterState :=
  {| SyntheticToken := testSyntheticToken; UnderlyingAsset := testUnderlying;
     ExchangeBuffer := 150 * e18; TotalStaked := 300 * e18;
     ExchangeRate := Q96 + Q96 / 2 |}.

Definition stake_of (owner : Address) (staked : Z) : TransmuterStake :=
  {| Owner := owner; StakeSyntheticToken := testSyntheticToken;
     StakedAmount := staked; UnclaimedAmount := 0; LastUpdateIndex := Q96 |}.

(** The frames of [TestPoolManagerSettlement] (a delta of 1000 settled by
    1000) and of a flash loan left unpaid. *)
Definition testCaller : Address := mkAddress (vreplicate 20 x11).
Definition testPoolManagerAddr : Address := mkAddress (vreplicate 20 "P"%byte).

Definition settled_actions : list PoolManager.Action :=
  [ PoolManager.Book PoolKeys.NativeCurrency 1000;
    PoolManager.Settle PoolKeys.NativeCurrency 1000 ].

Definition unsettled_actions : list PoolManager.Action :=
  [ PoolManager.WritePool [x01] (PoolManager.mkPool (2 ^ 96) 0 1000000 0 0);
    PoolManager.Book PoolKeys.NativeCurrency (-100000) ].

(* ===================================================================== *)
(** ** Further vocabulary of the Transmuter's calls *)
(* ===================================================================== *)

(** The stake [Stake] starts from: the one [getStake] finds, or a new one
    snapshotted at the current rate. *)
Definition stake_or_new (found : option TransmuterStake) (owner syntheticToken : Address)
    (state : TransmuterState) : TransmuterStake :=
  default {| Owner := owner; StakeSyntheticToken := syntheticToken;
             StakedAmount := 0; UnclaimedAmount := 0;
             LastUpdateIndex := ExchangeRate state |} found.

(** A stake on which reconciliation has nothing to do. *)
Definition settled_stake (stake : TransmuterStake) (state : TransmuterState) : Prop :=
  StakedAmount stake = 0 \/ ExchangeRate state <= LastUpdateIndex stake.

(** The addresses whose balance a call may move. *)
Definition parties `{Externals} (op : Op) : list Address :=
  match op with
  | OpStake o _ _ | OpUnstake o _ _ | OpClaim o _ => [o; transmuterAddr]
  | _ => []
  end.

(** Every state is stored under its own token, at a rate of at least 1:1. *)
Definition states_keyed (t : Transmuter) : Prop :=
  forall s state, states t !! s = Some state ->
    SyntheticToken state = s /\ Q96 <= ExchangeRate state.

(* ===================================================================== *)
(** ** ai/gpu/nvtrust.go: NVTrust attestation quotes *)
(* ===================================================================== *)

Module NVTrust.

(** Go strings and byte slices are [list byte]; [str] writes a literal. *)
Definition str (s : string) : list byte := list_byte_of_string s.

(** [data[lo:hi]]. *)
Definition slice (data : list byte) (lo hi : nat) : list byte :=
  take (hi - lo) (drop lo data).

(** [binary.BigEndian.Uint16], [Uint32] and [Uint64]. *)
Definition Uint16 (b : list byte) : Z := SetBytes (take 2 b).
Definition Uint32 (b : list byte) : Z := SetBytes (take 4 b).
Definition Uint64 (b : list byte) : Z := SetBytes (take 8 b).

(** [copy(arr[:], src)] into a zeroed [[32]byte]. *)
Definition bytes32 (src : list byte) : vec byte 32 :=
  fun_to_vec (fun i : fin 32 => default x00 (src !! fin_to_nat i)).

(** [copy(buf[offset:], src)]. *)
Definition write_at (buf : list byte) (offset : nat) (src : list byte) : list byte :=
  take offset buf ++ copy (drop offset buf) src.

Definition NVTrustMinQuoteSize : nat := 128.
Definition NVTrustHeaderSize : nat := 16.
Definition NVTrustMeasureSize : nat := 64.
Definition NVTrustNonceSize : nat := 32.
Definition NVTrustCertMinSize : nat := 512.
Definition NVTrustSignatureSize : nat := 96.

Definition QuoteTypeLocal : byte := x01.
Definition QuoteTypeSoftware : byte := x02.

Definition ModeLocal : Z := 0.
Definition ModeSoftware : Z := 1.

Inductive Error : Type :=
  | ErrQuoteTooShort
  | ErrInvalidQuoteType
  | ErrInvalidVersion
  | ErrInvalidCertChain
  | ErrSignatureInvalid
  | ErrMeasurementFailed.

(** [NVTrustQuote].  [Version] is a [uint16], [Length] a [uint32] and
    [Timestamp] a [uint64], kept as [Z]; the two [uint8] fields are
    bytes and the four [[32]byte] fields are vectors. *)
Record NVTrustQuote : Type := mkNVTrustQuote {
  Version : Z;
  QuoteType : byte;
  Reserved : byte;
  Length : Z;
  Timestamp : Z;
  DeviceID : vec byte 32;
  FirmwareHash : vec byte 32;
  DriverHash : vec byte 32;
  Nonce : vec byte 32;
  CCEnabled : bool;
  TEEIOEnabled : bool;
  CertChain : list byte;
  Signature : list byte;
  GPUModel : list byte;
  DriverVersion : list byte
}.

Record NVTrustResult : Type := mkNVTrustResult {
  Valid : bool;
  TrustScore : Z;
  HardwareCC : bool;
  RIMVerified : bool;
  Mode : Z
}.

(** [ParseNVTrustQuote].  Offsets and lengths are Go [int]s (64 bits), far
    from overflowing here, and are written as [nat]. *)
Definition ParseNVTrustQuote (data : list byte) : NVTrustQuote + Error :=
  if (length data <? NVTrustMinQuoteSize)%nat then inr ErrQuoteTooShort else
  let version := Uint16 (slice data 0 2) in
  let quoteType := default x00 (data !! 2%nat) in
  let reserved := default x00 (data !! 3%nat) in
  let length_ := Uint32 (slice data 4 8) in
  let timestamp := Uint64 (slice data 8 16) in
  if (version <? 1) || (version >? 2) then inr ErrInvalidVersion else
  if negb (bool_decide (quoteType = QuoteTypeLocal))
     && negb (bool_decide (quoteType = QuoteTypeSoftware))
  then inr ErrInvalidQuoteType else
  let offset := NVTrustHeaderSize in
  if (length data <? offset + 32)%nat then inr ErrQuoteTooShort else
  let deviceID := bytes32 (slice data offset (offset + 32)) in
  let offset := (offset + 32)%nat in
  if (length data <? offset + 32)%nat then inr ErrQuoteTooShort else
  let firmwareHash := bytes32 (slice data offset (offset + 32)) in
  let offset := (offset + 32)%nat in
  if (length data <? offset + 32)%nat then inr ErrQuoteTooShort else
  let driverHash := bytes32 (slice data offset (offset + 32)) in
  let offset := (offset + 32)%nat in
  if (length data <? offset + 32)%nat then inr ErrQuoteTooShort else
  let nonce := bytes32 (slice data offset (offset + 32)) in
  let offset := (offset + 32)%nat in
  if (length data <? offset + 2)%nat then inr ErrQuoteTooShort else
  let flags := Uint16 (slice data offset (offset + 2)) in
  let ccEnabled := negb (Z.land flags 1 =? 0) in
  let teeioEnabled := negb (Z.land flags 2 =? 0) in
  let offset := (offset + 2)%nat in
  if (length data <? offset + 2)%nat then inr ErrQuoteTooShort else
  let modelLen := Z.to_nat (Uint16 (slice data offset (offset + 2))) in
  let offset := (offset + 2)%nat in
  if (length data <? offset + modelLen)%nat then inr ErrQuoteTooShort else
  let gpuModel := slice data offset (offset + modelLen) in
  let offset := (offset + modelLen)%nat in
  if (length data <? offset + 2)%nat then inr ErrQuoteTooShort else
  let driverLen := Z.to_nat (Uint16 (slice data offset (offset + 2))) in
  let offset := (offset + 2)%nat in
  if (length data <? offset + driverLen)%nat then inr ErrQuoteTooShort else
  let driverVersion := slice data offset (offset + driverLen) in
  let offset := (offset + driverLen)%nat in
  if (length data <? offset + 4)%nat then inr ErrQuoteTooShort else
  let certLen := Z.to_nat (Uint32 (slice data offset (offset + 4))) in
  let offset := (offset + 4)%nat in
  if (length data <? offset + certLen)%nat then inr ErrQuoteTooShort else
  let certChain := copy (replicate certLen x00) (slice data offset (offset + certLen)) in
  let offset := (offset + certLen)%nat in
  let signature :=
    if (offset <? length data)%nat
    then copy (replicate (length data - offset) x00) (drop offset data)
    else [] in
  inl {| Version := version; QuoteType := quoteType; Reserved := reserved;
         Length := length_; Timestamp := timestamp;
         DeviceID := deviceID; FirmwareHash := firmwareHash;
         DriverHash := driverHash; Nonce := nonce;
         CCEnabled := ccEnabled; TEEIOEnabled := teeioEnabled;
         CertChain := certChain; Signature := signature;
         GPUModel := gpuModel; DriverVersion := driverVersion |}.

(** The flag word written by [SerializeQuote] (and hashed by
    [verifyQuoteSignature]). *)
Definition flagsOf (q : NVTrustQuote) : Z :=
  let flags := 0 in
  let flags := if CCEnabled q then Z.lor flags 1 else flags in
  let flags := if TEEIOEnabled q then Z.lor flags 2 else flags in
  flags.

(** [SerializeQuote]: a zeroed buffer of the computed size, filled field by
    field at a running offset. *)
Definition SerializeQuote (q : NVTrustQuote) : list byte :=
  let size :=
    (NVTrustHeaderSize + 32 + 32 + 32 + 32 + 2 + 2 + length (GPUModel q) + 2
     + length (DriverVersion q) + 4 + length (CertChain q) + length (Signature q))%nat in
  let buf := replicate size x00 in
  let offset := 0%nat in
  let buf := write_at buf offset (put_be 2 (Version q)) in
  let offset := (offset + 2)%nat in
  let buf := <[offset := QuoteType q]> buf in
  let offset := (offset + 1)%nat in
  let buf := <[offset := Reserved q]> buf in
  let offset := (offset + 1)%nat in
  let buf := write_at buf offset (put_be 4 (Length q)) in
  let offset := (offset + 4)%nat in
  let buf := write_at buf offset (put_be 8 (Timestamp q)) in
  let offset := (offset + 8)%nat in
  let buf := write_at buf offset (vec_to_list (DeviceID q)) in
  let offset := (offset + 32)%nat in
  let buf := write_at buf offset (vec_to_list (FirmwareHash q)) in
  let offset := (offset + 32)%nat in
  let buf := write_at buf offset (vec_to_list (DriverHash q)) in
  let offset := (offset + 32)%nat in
  let buf := write_at buf offset (vec_to_list (Nonce q)) in
  let offset := (offset + 32)%nat in
  let buf := write_at buf offset (put_be 2 (flagsOf q)) in
  let offset := (offset + 2)%nat in
  let buf := write_at buf offset (put_be 2 (Z.of_nat (length (GPUModel q)))) in
  let offset := (offset + 2)%nat in
  let buf := write_at buf offset (GPUModel q) in
  let offset := (offset + length (GPUModel q))%nat in
  let buf := write_at buf offset (put_be 2 (Z.of_nat (length (DriverVersion q)))) in
  let offset := (offset + 2)%nat in
  let buf := write_at buf offset (DriverVersion q) in
  let offset := (offset + length (DriverVersion q))%nat in
  let buf := write_at buf offset (put_be 4 (Z.of_nat (length (CertChain q)))) in
  let offset := (offset + 4)%nat in
  let buf := write_at buf offset (CertChain q) in
  let offset := (offset + length (CertChain q))%nat in
  let buf := write_at buf offset (Signature q) in
  buf.

(** [for j := 0; j < len(substr); j++ { if str[i+j] != substr[j] ... }]:
    whether [substr] is read at position [i] of [str]. *)
Definition matchAt (str_ substr : list byte) (i : nat) : bool :=
  forallb (fun j => bool_decide (str_ !! (i + j)%nat = substr !! j))
    (seq 0 (length substr)).

(** [findSubstring]: the first [i] in [0 .. len(str) - len(substr)] at which
    [substr] is read, or -1; the bound is a signed [int]. *)
Definition findSubstring (str_ substr : list byte) : Z :=
  let bound := Z.of_nat (length str_) - Z.of_nat (length substr) in
  match find (matchAt str_ substr) (seq 0 (Z.to_nat (bound + 1))) with
  | Some i => Z.of_nat i
  | None => -1
  end.

Definition contains (str_ substr : list byte) : bool :=
  (length substr <=? length str_)%nat && (findSubstring str_ substr >=? 0).

Definition ccCapable : list (list byte) :=
  [ str "H100"; str "H200"; str "B100"; str "B200"; str "GB200"; str "GH200";
    str "RTX PRO 6000" ].

Definition isHardwareCCCapable (model : list byte) : bool :=
  existsb (fun m => bool_decide (model = m) || contains model m) ccCapable.

(** [verifyCertChain]: the structure check (DER sequence tag, or a PEM
    header) on a chain of at least [NVTrustCertMinSize] bytes. *)
Definition verifyCertChain (certChain : list byte) : bool :=
  if (length certChain <? NVTrustCertMinSize)%nat then false else
  if (length certChain <? 4)%nat then false else
  if bool_decide (certChain !! 0%nat = Some x30) then
    if bool_decide (certChain !! 1%nat = Some x82) then
      let certLen :=
        Z.lor (Z.shiftl (Z_of_byte (default x00 (certChain !! 2%nat))) 8)
              (Z_of_byte (default x00 (certChain !! 3%nat))) in
      if Z.of_nat (length certChain) <? certLen + 4 then false else true
    else true
  else
    let pemHeader := str "-----BEGIN" in
    if (length pemHeader <=? length certChain)%nat then
      if forallb (fun i => bool_decide (certChain !! i = pemHeader !! i))
           (seq 0 (length pemHeader))
      then true else false
    else false.

(** [verifyQuoteSignature]: the hash it computes over the quote is
    discarded; what decides is the length of the signature. *)
Definition verifyQuoteSignature (q : NVTrustQuote) : bool :=
  if (length (Signature q) <? NVTrustSignatureSize)%nat then false
  else (NVTrustSignatureSize <=? length (Signature q))%nat.

(** [uint8] arithmetic. *)
Definition u8 (z : Z) : Z := z mod 256.

Definition calculateTrustScore (hardwareCC rimVerified teeIO : bool) : Z :=
  let score := 50 in
  let score := if hardwareCC then u8 (score + 30) else score in
  let score := if rimVerified then u8 (score + 10) else score in
  let score := if teeIO then u8 (score + 10) else score in
  if score >? 100 then 100 else score.

Section WithSHA256.

(** [crypto/sha256.Sum256], from the Go standard library. *)
Variable Sum256 : list byte -> vec byte 32.

(** [knownRIMs]: the known-good firmware and driver hashes per model. *)
Definition knownRIMs : gmap (list byte) (vec byte 32 * vec byte 32) :=
  <[str "H100" := (Sum256 (str "H100_VBIOS_96.00.7C.00.00"),
                   Sum256 (str "NVIDIA-Linux-x86_64-550.67"))]>
  (<[str "H200" := (Sum256 (str "H200_VBIOS_96.00.90.00.00"),
                    Sum256 (str "NVIDIA-Linux-x86_64-550.67"))]> ∅).

(** [for i := 0; i < 32; i++ { if a[i] != b[i] { return false } }]. *)
Definition same32 (a : list byte) (b : vec byte 32) : bool :=
  forallb (fun i => bool_decide (a !! i = vec_to_list b !! i)) (seq 0 32).

Definition verifyRIM (model firmware driver : list byte) : bool :=
  match knownRIMs !! model with
  | None => false
  | Some rim =>
      if negb (length firmware =? 32)%nat then false
      else if negb (same32 firmware rim.1) then false
      else if negb (length driver =? 32)%nat then false
      else if negb (same32 driver rim.2) then false
      else true
  end.

Definition VerifyNVTrustQuote (q : NVTrustQuote) : bool * Z :=
  let score := 50 in
  let isHardwareCC := isHardwareCCCapable (GPUModel q) in
  let score :=
    if isHardwareCC && CCEnabled q then u8 (score + 30)
    else if CCEnabled q then u8 (score + 15)
    else score in
  let score := if TEEIOEnabled q then u8 (score + 10) else score in
  let rimValid :=
    verifyRIM (GPUModel q) (vec_to_list (FirmwareHash q)) (vec_to_list (DriverHash q)) in
  let score := if rimValid then u8 (score + 10) else score in
  let certValid := verifyCertChain (CertChain q) in
  if negb certValid then (false, 0) else
  let sigValid := verifyQuoteSignature q in
  if negb sigValid then (false, 0) else
  let score := if score >? 100 then 100 else score in
  (true, score).

Definition VerifyNVTrustQuoteFull (q : NVTrustQuote) : NVTrustResult :=
  let mode :=
    if bool_decide (QuoteType q = QuoteTypeLocal) then ModeLocal else ModeSoftware in
  let hardwareCC := isHardwareCCCapable (GPUModel q) && CCEnabled q in
  let rimVerified :=
    verifyRIM (GPUModel q) (vec_to_list (FirmwareHash q)) (vec_to_list (DriverHash q)) in
  if negb (verifyCertChain (CertChain q)) then
    {| Valid := false; TrustScore := 0; HardwareCC := hardwareCC;
       RIMVerified := rimVerified; Mode := mode |}
  else if negb (verifyQuoteSignature q) then
    {| Valid := false; TrustScore := 0; HardwareCC := hardwareCC;
       RIMVerified := rimVerified; Mode := mode |}
  else
    {| Valid := true;
       TrustScore := calculateTrustScore hardwareCC rimVerified (TEEIOEnabled q);
       HardwareCC := hardwareCC; RIMVerified := rimVerified; Mode := mode |}.

(** [ComputeQuoteHash]: the digest of the four 32-byte fields. *)
Definition ComputeQuoteHash (q : NVTrustQuote) : vec byte 32 :=
  bytes32 (vec_to_list (Sum256 (vec_to_list (DeviceID q) ++ vec_to_list (FirmwareHash q)
                                ++ vec_to_list (DriverHash q) ++ vec_to_list (Nonce q)))).

End WithSHA256.

(** A quote whose numeric fields fit their Go types and whose variable
    parts fit their length prefixes. *)
Definition wellformed (q : NVTrustQuote) : Prop :=
  1 <= Version q <= 2 /\
  (QuoteType q = QuoteTypeLocal \/ QuoteType q = QuoteTypeSoftware) /\
  0 <= Length q < 2 ^ 32 /\
  0 <= Timestamp q < 2 ^ 64 /\
  Z.of_nat (length (GPUModel q)) < 2 ^ 16 /\
  Z.of_nat (length (DriverVersion q)) < 2 ^ 16 /\
  Z.of_nat (length (CertChain q)) < 2 ^ 32.

(** A software quote for an H100 with confidential computing on, a DER
    certificate chain of 512 bytes and a signature of 96. *)
Definition sample_quote : NVTrustQuote :=
  {| Version := 1; QuoteType := QuoteTypeSoftware; Reserved := x00;
     Length := 0; Timestamp := 1700000000;
     DeviceID := vreplicate 32 x11; FirmwareHash := vreplicate 32 x22;
     DriverHash := vreplicate 32 x33; Nonce := vreplicate 32 x44;
     CCEnabled := true; TEEIOEnabled := false;
     CertChain := x30 :: replicate 511 x00;
     Signature := replicate 96 x01;
     GPUModel := str "NVIDIA H100 PCIe"; DriverVersion := str "550.67" |}.

(** The sample quote with both flags on, and a serialised quote in which
    all sixteen flag bits are set. *)
Definition sample_quote_flags : NVTrustQuote :=
  {| Version := 1; QuoteType := QuoteTypeSoftware; Reserved := x00;
     Length := 0; Timestamp := 1700000000;
     DeviceID := vreplicate 32 x11; FirmwareHash := vreplicate 32 x22;
     DriverHash := vreplicate 32 x33; Nonce := vreplicate 32 x44;
     CCEnabled := true; TEEIOEnabled := true;
     CertChain := x30 :: replicate 511 x00;
     Signature := replicate 96 x01;
     GPUModel := str "NVIDIA H100 PCIe"; DriverVersion := str "550.67" |}.

Definition sample_input_flags : list byte :=
  take 144 (SerializeQuote sample_quote) ++ [xff; xff]
  ++ drop 146 (SerializeQuote sample_quote).

(** A quote from a model outside [ccCapable] that reports CC enabled. *)
Definition sample_quote_a100 : NVTrustQuote :=
  {| Version := 1; QuoteType := QuoteTypeLocal; Reserved := x00;
     Length := 0; Timestamp := 1700000000;
     DeviceID := vreplicate 32 x11; FirmwareHash := vreplicate 32 x22;
     DriverHash := vreplicate 32 x33; Nonce := vreplicate 32 x44;
     CCEnabled := true; TEEIOEnabled := false;
     CertChain := x30 :: replicate 511 x00;
     Signature := replicate 96 x01;
     GPUModel := str "NVIDIA A100"; DriverVersion := str "550.67" |}.

End NVTrust.

(* ===================================================================== *)
(** ** pqcrypto/contract.go: the post-quantum cryptography precompile *)
(* ===================================================================== *)

Module PQCrypto.

Definition str (s : string) : list byte := list_byte_of_string s.

(** Function selectors (the first 4 bytes of the input). *)
Definition MLDSAVerifySelector : list byte := str "mlds".
Definition MLKEMEncapsulateSelector : list byte := str "encp".
Definition MLKEMDecapsulateSelector : list byte := str "decp".
Definition SLHDSAVerifySelector : list byte := str "slhs".

Definition knownSelector (selector : list byte) : Prop :=
  selector = MLDSAVerifySelector \/ selector = MLKEMEncapsulateSelector \/
  selector = MLKEMDecapsulateSelector \/ selector = SLHDSAVerifySelector.

Definition MLDSAMode44 : byte := x44.
Definition MLDSAMode65 : byte := x65.
Definition MLDSAMode87 : byte := x87.

Definition MLKEMMode512 : byte := x00.
Definition MLKEMMode768 : byte := x01.
Definition MLKEMMode1024 : byte := x02.

Definition SLHDSAModeSHA2_128s : byte := x00.
Definition SLHDSAModeSHA2_128f : byte := x01.
Definition SLHDSAModeSHA2_192s : byte := x02.
Definition SLHDSAModeSHA2_192f : byte := x03.
Definition SLHDSAModeSHA2_256s : byte := x04.
Definition SLHDSAModeSHA2_256f : byte := x05.
Definition SLHDSAModeSHAKE_128s : byte := x10.
Definition SLHDSAModeSHAKE_128f : byte := x11.
Definition SLHDSAModeSHAKE_192s : byte := x12.
Definition SLHDSAModeSHAKE_192f : byte := x13.
Definition SLHDSAModeSHAKE_256s : byte := x14.
Definition SLHDSAModeSHAKE_256f : byte := x15.

Definition MLDSA44VerifyGas : Z := 75000.
Definition MLDSA65VerifyGas : Z := 100000.
Definition MLDSA87VerifyGas : Z := 150000.
Definition MLDSADefaultGas : Z := 100000.

Definition MLKEM512EncapsulateGas : Z := 6000.
Definition MLKEM768EncapsulateGas : Z := 8000.
Definition MLKEM1024EncapsulateGas : Z := 10000.
Definition MLKEM512DecapsulateGas : Z := 6000.
Definition MLKEM768DecapsulateGas : Z := 8000.
Definition MLKEM1024DecapsulateGas : Z := 10000.
Definition MLKEMDefaultGas : Z := 8000.

Definition SLHDSA128sVerifyGas : Z := 50000.
Definition SLHDSA128fVerifyGas : Z := 75000.
Definition SLHDSA192sVerifyGas : Z := 100000.
Definition SLHDSA192fVerifyGas : Z := 150000.
Definition SLHDSA256sVerifyGas : Z := 175000.
Definition SLHDSA256fVerifyGas : Z := 250000.
Definition SLHDSADefaultGas : Z := 100000.

(** The modes of the three schemes in [luxfi/crypto]. *)
Inductive MLDSAMode : Type := MLDSA44 | MLDSA65 | MLDSA87.
Inductive MLKEMMode : Type := MLKEM512 | MLKEM768 | MLKEM1024.
Inductive SLHDSAMode : Type :=
  | SHA2_128s | SHA2_128f | SHA2_192s | SHA2_192f | SHA2_256s | SHA2_256f
  | SHAKE_128s | SHAKE_128f | SHAKE_192s | SHAKE_192f | SHAKE_256s | SHAKE_256f.

(** What the precompile calls in [luxfi/crypto] ([mldsa], [mlkem],
    [slhdsa]) and in [crypto/rand]: key parsing, verification with a nil
    context, encapsulation from a random source, decapsulation, and the key
    and ciphertext sizes of ML-KEM.  [Rand] is the state of [rand.Reader]. *)
Class CryptoLib : Type := {
  LibError : Type;
  Rand : Type;
  MLDSAPublicKey : Type;
  mldsa_PublicKeyFromBytes : list byte -> MLDSAMode -> MLDSAPublicKey + LibError;
  mldsa_Verify : MLDSAPublicKey -> list byte -> list byte -> bool;
  SLHDSAPublicKey : Type;
  slhdsa_PublicKeyFromBytes : list byte -> SLHDSAMode -> SLHDSAPublicKey + LibError;
  slhdsa_Verify : SLHDSAPublicKey -> list byte -> list byte -> bool;
  MLKEMPublicKey : Type;
  MLKEMPrivateKey : Type;
  mlkem_PublicKeyFromBytes : list byte -> MLKEMMode -> MLKEMPublicKey + LibError;
  mlkem_PrivateKeyFromBytes : list byte -> MLKEMMode -> MLKEMPrivateKey + LibError;
  mlkem_Encapsulate : MLKEMPublicKey -> Rand -> (list byte * list byte) + LibError;
  mlkem_Decapsulate : MLKEMPrivateKey -> list byte -> list byte + LibError;
  MLKEMPublicKeySize : MLKEMMode -> nat;
  MLKEMCiphertextSize : MLKEMMode -> nat
}.

(** The errors of the precompile.  [fmt.Errorf("%w: ...", errInvalidMode,
    modeByte)] keeps the mode byte, the size errors wrap [errInvalidInput]
    with the expected and the actual size, and an error of the library is
    passed on. *)
Inductive Error `{CryptoLib} : Type :=
  | errInvalidInput
  | errInvalidSignature
  | errInvalidMode (modeByte : byte)
  | errInvalidInputSize (expected got : nat)
  | ErrOutOfGas
  | errUnknownSelector (selector : list byte)
  | errLibrary (e : LibError).

Section Precompile.
Context `{CryptoLib}.

Definition mldsaRequiredGas (input : list byte) : Z :=
  match input with
  | [] => MLDSADefaultGas
  | mode :: _ =>
      if bool_decide (mode = MLDSAMode44) then MLDSA44VerifyGas
      else if bool_decide (mode = MLDSAMode65) then MLDSA65VerifyGas
      else if bool_decide (mode = MLDSAMode87) then MLDSA87VerifyGas
      else MLDSADefaultGas
  end.

Definition mlkemEncapsulateRequiredGas (input : list byte) : Z :=
  match input with
  | [] => MLKEMDefaultGas
  | mode :: _ =>
      if bool_decide (mode = MLKEMMode512) then MLKEM512EncapsulateGas
      else if bool_decide (mode = MLKEMMode768) then MLKEM768EncapsulateGas
      else if bool_decide (mode = MLKEMMode1024) then MLKEM1024EncapsulateGas
      else MLKEMDefaultGas
  end.

Definition mlkemDecapsulateRequiredGas (input : list byte) : Z :=
  match input with
  | [] => MLKEMDefaultGas
  | mode :: _ =>
      if bool_decide (mode = MLKEMMode512) then MLKEM512DecapsulateGas
      else if bool_decide (mode = MLKEMMode768) then MLKEM768DecapsulateGas
      else if bool_decide (mode = MLKEMMode1024) then MLKEM1024DecapsulateGas
      else MLKEMDefaultGas
  end.

Definition slhdsaRequiredGas (input : list byte) : Z :=
  match input with
  | [] => SLHDSADefaultGas
  | mode :: _ =>
      if bool_decide (mode = SLHDSAModeSHA2_128s) || bool_decide (mode = SLHDSAModeSHAKE_128s)
      then SLHDSA128sVerifyGas
      else if bool_decide (mode = SLHDSAModeSHA2_128f)
              || bool_decide (mode = SLHDSAModeSHAKE_128f)
      then SLHDSA128fVerifyGas
      else if bool_decide (mode = SLHDSAModeSHA2_192s)
              || bool_decide (mode = SLHDSAModeSHAKE_192s)
      then SLHDSA192sVerifyGas
      else if bool_decide (mode = SLHDSAModeSHA2_192f)
              || bool_decide (mode = SLHDSAModeSHAKE_192f)
      then SLHDSA192fVerifyGas
      else if bool_decide (mode = SLHDSAModeSHA2_256s)
              || bool_decide (mode = SLHDSAModeSHAKE_256s)
      then SLHDSA256sVerifyGas
      else if bool_decide (mode = SLHDSAModeSHA2_256f)
              || bool_decide (mode = SLHDSAModeSHAKE_256f)
      then SLHDSA256fVerifyGas
      else SLHDSADefaultGas
  end.

(** [RequiredGas]: by selector, then by mode byte. *)
Definition RequiredGas (input : list byte) : Z :=
  if (length input <? 4)%nat then 0
  else
    let selector := take 4 input in
    let data := drop 4 input in
    if bool_decide (selector = MLDSAVerifySelector) then mldsaRequiredGas data
    else if bool_decide (selector = MLKEMEncapsulateSelector)
    then mlkemEncapsulateRequiredGas data
    else if bool_decide (selector = MLKEMDecapsulateSelector)
    then mlkemDecapsulateRequiredGas data
    else if bool_decide (selector = SLHDSAVerifySelector) then slhdsaRequiredGas data
    else 0.

(** [int(input[i])<<8 | int(input[i+1])]. *)
Definition be16 (input : list byte) (i : nat) : nat :=
  Z.to_nat (Z.lor (Z.shiftl (Z_of_byte (default x00 (input !! i))) 8)
                  (Z_of_byte (default x00 (input !! S i)))).

(** [input[lo:hi]]. *)
Definition slice (input : list byte) (lo hi : nat) : list byte :=
  take (hi - lo) (drop lo input).

(** [mldsaVerify].  Input: mode(1), pubkey_len(2), pubkey, msg_len(2), msg,
    sig. *)
Definition mldsaVerify (input : list byte) : list byte * option Error :=
  if (length input <? 6)%nat then ([], Some errInvalidInput) else
  let modeByte := default x00 (input !! 0%nat) in
  let mode :=
    if bool_decide (modeByte = MLDSAMode44) then Some MLDSA44
    else if bool_decide (modeByte = MLDSAMode65) then Some MLDSA65
    else if bool_decide (modeByte = MLDSAMode87) then Some MLDSA87
    else None in
  match mode with
  | None => ([], Some (errInvalidMode modeByte))
  | Some mode =>
      let pubKeyLen := be16 input 1 in
      if (length input <? 3 + pubKeyLen + 2)%nat then ([], Some errInvalidInput) else
      let pubKeyBytes := slice input 3 (3 + pubKeyLen) in
      let msgLen := be16 input (3 + pubKeyLen) in
      if (length input <? 3 + pubKeyLen + 2 + msgLen)%nat then ([], Some errInvalidInput)
      else
      let message := slice input (3 + pubKeyLen + 2) (3 + pubKeyLen + 2 + msgLen) in
      let signature := drop (3 + pubKeyLen + 2 + msgLen) input in
      match mldsa_PublicKeyFromBytes pubKeyBytes mode with
      | inr err => ([], Some (errLibrary err))
      | inl pubKey =>
          if mldsa_Verify pubKey message signature then ([x01], None)
          else ([x00], None)
      end
  end.

(** [mlkemEncapsulate].  Input: mode(1), pubkey.  Output: ciphertext,
    shared secret. *)
Definition mlkemEncapsulate (rnd : Rand) (input : list byte) : list byte * option Error :=
  if (length input <? 2)%nat then ([], Some errInvalidInput) else
  let modeByte := default x00 (input !! 0%nat) in
  let mode :=
    if bool_decide (modeByte = MLKEMMode512) then Some MLKEM512
    else if bool_decide (modeByte = MLKEMMode768) then Some MLKEM768
    else if bool_decide (modeByte = MLKEMMode1024) then Some MLKEM1024
    else None in
  match mode with
  | None => ([], Some (errInvalidMode modeByte))
  | Some mode =>
      let expectedPubKeySize := MLKEMPublicKeySize mode in
      let pubKeyBytes := drop 1 input in
      if negb (length pubKeyBytes =? expectedPubKeySize)%nat
      then ([], Some (errInvalidInputSize expectedPubKeySize (length pubKeyBytes)))
      else
      match mlkem_PublicKeyFromBytes pubKeyBytes mode with
      | inr err => ([], Some (errLibrary err))
      | inl pubKey =>
          match mlkem_Encapsulate pubKey rnd with
          | inr err => ([], Some (errLibrary err))
          | inl (ciphertext, sharedSecret) => (ciphertext ++ sharedSecret, None)
          end
      end
  end.

(** [mlkemDecapsulate].  Input: mode(1), privkey_len(2), privkey,
    ciphertext.  Output: shared secret. *)
Definition mlkemDecapsulate (input : list byte) : list byte * option Error :=
  if (length input <? 4)%nat then ([], Some errInvalidInput) else
  let modeByte := default x00 (input !! 0%nat) in
  let mode :=
    if bool_decide (modeByte = MLKEMMode512) then Some MLKEM512
    else if bool_decide (modeByte = MLKEMMode768) then Some MLKEM768
    else if bool_decide (modeByte = MLKEMMode1024) then Some MLKEM1024
    else None in
  match mode with
  | None => ([], Some (errInvalidMode modeByte))
  | Some mode =>
      let expectedCiphertextSize := MLKEMCiphertextSize mode in
      let privKeyLen := be16 input 1 in
      if (length input <? 3 + privKeyLen)%nat then ([], Some errInvalidInput) else
      let privKeyBytes := slice input 3 (3 + privKeyLen) in
      let ciphertext := drop (3 + privKeyLen) input in
      if negb (length ciphertext =? expectedCiphertextSize)%nat
      then ([], Some (errInvalidInputSize expectedCiphertextSize (length ciphertext)))
      else
      match mlkem_PrivateKeyFromBytes privKeyBytes mode with
      | inr err => ([], Some (errLibrary err))
      | inl privKey =>
          match mlkem_Decapsulate privKey ciphertext with
          | inr err => ([], Some (errLibrary err))
          | inl sharedSecret => (sharedSecret, None)
          end
      end
  end.

Definition slhdsaModeOf (modeByte : byte) : option SLHDSAMode :=
  if bool_decide (modeByte = SLHDSAModeSHA2_128s) then Some SHA2_128s
  else if bool_decide (modeByte = SLHDSAModeSHA2_128f) then Some SHA2_128f
  else if bool_decide (modeByte = SLHDSAModeSHA2_192s) then Some SHA2_192s
  else if bool_decide (modeByte = SLHDSAModeSHA2_192f) then Some SHA2_192f
  else if bool_decide (modeByte = SLHDSAModeSHA2_256s) then Some SHA2_256s
  else if bool_decide (modeByte = SLHDSAModeSHA2_256f) then Some SHA2_256f
  else if bool_decide (modeByte = SLHDSAModeSHAKE_128s) then Some SHAKE_128s
  else if bool_decide (modeByte = SLHDSAModeSHAKE_128f) then Some SHAKE_128f
  else if bool_decide (modeByte = SLHDSAModeSHAKE_192s) then Some SHAKE_192s
  else if bool_decide (modeByte = SLHDSAModeSHAKE_192f) then Some SHAKE_192f
  else if bool_decide (modeByte = SLHDSAModeSHAKE_256s) then Some SHAKE_256s
  else if bool_decide (modeByte = SLHDSAModeSHAKE_256f) then Some SHAKE_256f
  else None.

(** [slhdsaVerify].  Input: mode(1), pubkey_len(2), pubkey, msg_len(2), msg,
    sig. *)
Definition slhdsaVerify (input : list byte) : list byte * option Error :=
  if (length input <? 6)%nat then ([], Some errInvalidInput) else
  let modeByte := default x00 (input !! 0%nat) in
  match slhdsaModeOf modeByte with
  | None => ([], Some (errInvalidMode modeByte))
  | Some mode =>
      let pubKeyLen := be16 input 1 in
      if (length input <? 3 + pubKeyLen + 2)%nat then ([], Some errInvalidInput) else
      let pubKeyBytes := slice input 3 (3 + pubKeyLen) in
      let msgLen := be16 input (3 + pubKeyLen) in
      if (length input <? 3 + pubKeyLen + 2 + msgLen)%nat then ([], Some errInvalidInput)
      else
      let message := slice input (3 + pubKeyLen + 2) (3 + pubKeyLen + 2 + msgLen) in
      let signature := drop (3 + pubKeyLen + 2 + msgLen) input in
      match slhdsa_PublicKeyFromBytes pubKeyBytes mode with
      | inr err => ([], Some (errLibrary err))
      | inl pubKey =>
          if slhdsa_Verify pubKey message signature then ([x01], None)
          else ([x00], None)
      end
  end.

(** [Run].  The accessible state, the caller, the address and the
    read-only flag are not used by the body and are left out; [rnd] is the
    random source encapsulation reads; gas is a [uint64], and the one
    subtraction is guarded. *)
Definition Run (rnd : Rand) (input : list byte) (suppliedGas : Z)
    : list byte * Z * option Error :=
  if (length input <? 4)%nat then ([], suppliedGas, Some errInvalidInput) else
  let requiredGas := RequiredGas input in
  if suppliedGas <? requiredGas then ([], 0, Some ErrOutOfGas) else
  let remainingGas := suppliedGas - requiredGas in
  let selector := take 4 input in
  let data := drop 4 input in
  if bool_decide (selector = MLDSAVerifySelector) then
    let '(ret, err) := mldsaVerify data in (ret, remainingGas, err)
  else if bool_decide (selector = MLKEMEncapsulateSelector) then
    let '(ret, err) := mlkemEncapsulate rnd data in (ret, remainingGas, err)
  else if bool_decide (selector = MLKEMDecapsulateSelector) then
    let '(ret, err) := mlkemDecapsulate data in (ret, remainingGas, err)
  else if bool_decide (selector = SLHDSAVerifySelector) then
    let '(ret, err) := slhdsaVerify data in (ret, remainingGas, err)
  else ([], remainingGas, Some (errUnknownSelector selector)).

(** The input of a signature verification, as the two verifiers read it. *)
Definition signatureInput (modeByte : byte) (pubKey message signature : list byte)
    : list byte :=
  [modeByte] ++ put_be 2 (Z.of_nat (length pubKey)) ++ pubKey
  ++ put_be 2 (Z.of_nat (length message)) ++ message ++ signature.

(** The input of a decapsulation. *)
Definition decapsulateInput (modeByte : byte) (privKey ciphertext : list byte)
    : list byte :=
  [modeByte] ++ put_be 2 (Z.of_nat (length privKey)) ++ privKey ++ ciphertext.

Definition mldsaModeByte (mode : MLDSAMode) : byte :=
  match mode with
  | MLDSA44 => MLDSAMode44 | MLDSA65 => MLDSAMode65 | MLDSA87 => MLDSAMode87
  end.

Definition mlkemModeByte (mode : MLKEMMode) : byte :=
  match mode with
  | MLKEM512 => MLKEMMode512 | MLKEM768 => MLKEMMode768 | MLKEM1024 => MLKEMMode1024
  end.

Definition slhdsaModeByte (mode : SLHDSAMode) : byte :=
  match mode with
  | SHA2_128s => SLHDSAModeSHA2_128s | SHA2_128f => SLHDSAModeSHA2_128f
  | SHA2_192s => SLHDSAModeSHA2_192s | SHA2_192f => SLHDSAModeSHA2_192f
  | SHA2_256s => SLHDSAModeSHA2_256s | SHA2_256f => SLHDSAModeSHA2_256f
  | SHAKE_128s => SLHDSAModeSHAKE_128s | SHAKE_128f => SLHDSAModeSHAKE_128f
  | SHAKE_192s => SLHDSAModeSHAKE_192s | SHAKE_192f => SLHDSAModeSHAKE_192f
  | SHAKE_256s => SLHDSAModeSHAKE_256s | SHAKE_256f => SLHDSAModeSHAKE_256f
  end.

End Precompile.

(** A stand-in for the library under which the embedding runs: keys are
    their bytes, a signature is valid when it equals the message,
    encapsulation returns the key as ciphertext and as shared secret, and
    decapsulation returns the ciphertext. *)
Definition toyLib : CryptoLib :=
  {| LibError := unit; Rand := unit;
     MLDSAPublicKey := list byte;
     mldsa_PublicKeyFromBytes := fun b _ => inl b;
     mldsa_Verify := fun _ msg sig => bool_decide (msg = sig);
     SLHDSAPublicKey := list byte;
     slhdsa_PublicKeyFromBytes := fun b _ => inl b;
     slhdsa_Verify := fun _ msg sig => bool_decide (msg = sig);
     MLKEMPublicKey := list byte;
     MLKEMPrivateKey := list byte;
     mlkem_PublicKeyFromBytes := fun b _ => inl b;
     mlkem_PrivateKeyFromBytes := fun b _ => inl b;
     mlkem_Encapsulate := fun pk _ => inl (pk, pk);
     mlkem_Decapsulate := fun sk ct => inl ct;
     MLKEMPublicKeySize := fun m =>
       match m with MLKEM512 => 800 | MLKEM768 => 1184 | MLKEM1024 => 1568 end%nat;
     MLKEMCiphertextSize := fun m =>
       match m with MLKEM512 => 768 | MLKEM768 => 1088 | MLKEM1024 => 1568 end%nat |}.

End PQCrypto.

(* ===================================================================== *)
(** ** The module registry ([modules/registerer.go]) *)
(* ===================================================================== *)

(** Package [modules] keeps the registered precompile modules in the
    package variable [registeredModules]; here every function that reads or
    writes it takes the list, and [RegisterModule] returns the new one.  The
    [Module] struct and [moduleArray], the [sort.Interface] that
    [insertSortedByAddress] sorts through, are declared outside
    [registerer.go]: a module is the record of the four fields the packages
    fill in ([fhe/module.go]), over any types of contract and configurator,
    and the sort is a parameter of the section. *)
Module Modules.

(** [bytes.Compare]: lexicographic order on byte slices, as -1, 0 or 1. *)
Fixpoint Compare (a b : list byte) : Z :=
  match a, b with
  | [], [] => 0
  | [], _ :: _ => -1
  | _ :: _, [] => 1
  | x :: a', y :: b' =>
      if Z_of_byte x <? Z_of_byte y then -1
      else if Z_of_byte y <? Z_of_byte x then 1
      else Compare a' b'
  end.

(** [common.HexToAddress] on a literal of forty hexadecimal digits after
    [0x]: the twenty bytes it denotes. *)
Definition HexToAddress (s : string) : Address :=
  BytesToAddress (put_be 20 (Z.of_N (HexString.to_N s))).

Record AddressRange : Type := mkAddressRange { Start : Address; End : Address }.

Definition Contains (a : AddressRange) (addr : Address) : bool :=
  let addrBytes := AddressBytes addr in
  (0 <=? Compare addrBytes (AddressBytes (Start a)))
  && (Compare addrBytes (AddressBytes (End a)) <=? 0).

Definition BlackholeAddr : Address :=
  mkAddress (x01 ::: vreplicate 19 x00).

Definition reservedRanges : list AddressRange :=
  [ {| Start := HexToAddress "0x0100000000000000000000000000000000000000";
       End := HexToAddress "0x01000000000000000000000000000000000000ff" |};
    {| Start := HexToAddress "0x0200000000000000000000000000000000000000";
       End := HexToAddress "0x02000000000000000000000000000000000000ff" |};
    {| Start := HexToAddress "0x0300000000000000000000000000000000000000";
       End := HexToAddress "0x03000000000000000000000000000000000000ff" |} ].

Definition ReservedAddress (addr : Address) : bool :=
  existsb (fun reservedRange => Contains reservedRange addr) reservedRanges.

(** The errors of [RegisterModule], each with the value its message
    prints. *)
Inductive Error : Type :=
  | errBlackhole (address : Address)
  | errNotReserved (address : Address)
  | errNameUsed (key : string)
  | errAddressUsed (address : Address).

Section Registry.

Context {ContractT ConfiguratorT : Type}.

(** [modules.Module]. *)
Record ModuleT : Type := mkModule {
  ConfigKey : string;
  ModuleAddress : Address;
  Contract : ContractT;
  Configurator : ConfiguratorT
}.

(** [sort.Sort(moduleArray(data))]. *)
Variable sortModules : list ModuleT -> list ModuleT.

Definition insertSortedByAddress (data : list ModuleT) (stm : ModuleT) : list ModuleT :=
  let data := data ++ [stm] in
  sortModules data.

(** The loop of [RegisterModule] over the registered modules: the first
    module that has the key or the address decides the error. *)
Fixpoint registeredClash (registeredModules : list ModuleT) (key : string)
    (address : Address) : option Error :=
  match registeredModules with
  | [] => None
  | registeredModule :: rest =>
      if bool_decide (ConfigKey registeredModule = key)
      then Some (errNameUsed key)
      else if bool_decide (ModuleAddress registeredModule = address)
      then Some (errAddressUsed address)
      else registeredClash rest key address
  end.

Definition RegisterModule (registeredModules : list ModuleT) (stm : ModuleT)
    : list ModuleT * option Error :=
  let address := ModuleAddress stm in
  let key := ConfigKey stm in
  if bool_decide (address = BlackholeAddr)
  then (registeredModules, Some (errBlackhole address))
  else if negb (ReservedAddress address)
  then (registeredModules, Some (errNotReserved address))
  else
    match registeredClash registeredModules key address with
    | Some err => (registeredModules, Some err)
    | None => (insertSortedByAddress registeredModules stm, None)
    end.

(** The lookups return [(Module{}, false)] when no module matches: [None]
    here. *)
Definition GetPrecompileModuleByAddress (registeredModules : list ModuleT)
    (address : Address) : option ModuleT :=
  find (fun stm => bool_decide (ModuleAddress stm = address)) registeredModules.

Definition GetPrecompileModule (registeredModules : list ModuleT) (key : string)
    : option ModuleT :=
  find (fun stm => bool_decide (ConfigKey stm = key)) registeredModules.

Definition RegisteredModules (registeredModules : list ModuleT) : list ModuleT :=
  registeredModules.

(** The registry after a sequence of [RegisterModule] calls, the calls that
    return an error included. *)
Definition registerAll (registeredModules : list ModuleT) (stms : list ModuleT)
    : list ModuleT :=
  fold_left (fun reg stm => (RegisterModule reg stm).1) stms registeredModules.

End Registry.

Arguments ModuleT : clear implicits.

(** A sort by address for the examples: merge sort on [bytes.Compare] of the
    addresses. *)
Definition addressLe {C K : Type} (a b : ModuleT C K) : Prop :=
  Compare (AddressBytes (ModuleAddress a)) (AddressBytes (ModuleAddress b)) <= 0.

#[global] Instance addressLe_dec {C K : Type} (a b : ModuleT C K) :
  Decision (addressLe a b).
Proof. unfold addressLe. apply _. Defined.

Definition sortByAddress {C K : Type} (data : list (ModuleT C K)) : list (ModuleT C K) :=
  sorting.merge_sort addressLe data.

(** The two modules that [fhe/module.go] declares, with their contract and
    configurator left out, and a further one for the examples. *)
Definition fheModule : ModuleT unit unit :=
  {| ConfigKey := "fheConfig";
     ModuleAddress := HexToAddress "0x0200000000000000000000000000000000000080";
     Contract := tt; Configurator := tt |}.

Definition fheModule' : ModuleT unit unit :=
  {| ConfigKey := "fheConfig";
     ModuleAddress := HexToAddress "0x0700000000000000000000000000000000000000";
     Contract := tt; Configurator := tt |}.

Definition sampleModule : ModuleT unit unit :=
  {| ConfigKey := "sampleConfig";
     ModuleAddress := HexToAddress "0x0300000000000000000000000000000000000001";
     Contract := tt; Configurator := tt |}.

End Modules.

(* ===================================================================== *)
(** ** Vocabulary of the further properties *)
(* ===================================================================== *)

(** What a database differs by after a call: storage only under the
    transmuter's address, balances only of the [parties]. *)
Definition db_frame `{Externals} (ps : list Address) (db db' : StateDB) : Prop :=
  (forall addr key, addr <> transmuterAddr ->
     MockStateDB.GetState db' addr key = MockStateDB.GetState db addr key) /\
  (forall a, a ∉ ps -> MockStateDB.GetBalance db' a = MockStateDB.GetBalance db a) /\
  MockStateDB.GetBlockNumber db' = MockStateDB.GetBlockNumber db /\
  (forall a, MockStateDB.Exist db' a = MockStateDB.Exist db a).

(** How the state of a token may change from one call to the next: same
    token, same underlying asset, a rate that did not go down. *)
Definition state_grows (old new : TransmuterState) : Prop :=
  SyntheticToken new = SyntheticToken old /\
  UnderlyingAsset new = UnderlyingAsset old /\
  ExchangeRate old <= ExchangeRate new.

(** The conclusion of the step lemma, for a transmuter [t'] reached from
    [t]. *)
Definition keyed_step (t t' : Transmuter) : Prop :=
  states_keyed t' /\
  forall s st, states t !! s = Some st ->
    exists st', states t' !! s = Some st' /\ state_grows st st'.

(** What every registry reached from the empty one satisfies: keys and
    addresses are registered once, and every registered module is one of
    those offered, at a reserved address other than the blackhole address. *)
Definition registry_ok {C K : Type} (stms reg : list (Modules.ModuleT C K)) : Prop :=
  NoDup (Modules.ConfigKey <$> reg) /\ NoDup (Modules.ModuleAddress <$> reg) /\
  forall m, m ∈ reg ->
    m ∈ stms /\ Modules.ReservedAddress (Modules.ModuleAddress m) = true /\
    Modules.ModuleAddress m <> Modules.BlackholeAddr.

(* ===================================================================== *)
(** * Properties *)
(* ===================================================================== *)

(** Turns the boolean comparisons of the embedded code into hypotheses. *)
Ltac zcmp :=
  repeat match goal with
  | |- context [?a =? ?b] => destruct (Z.eqb_spec a b)
  | |- context [?a <=? ?b] => destruct (Z.leb_spec a b)
  | |- context [?a <? ?b] => destruct (Z.ltb_spec a b)
  | |- context [?a >=? ?b] => rewrite (Z.geb_leb a b)
  | |- context [?a >? ?b] => rewrite (Z.gtb_ltb a b)
  end.

Lemma Q96_pos : 0 < Q96.
Proof. reflexivity. Qed.

Lemma with_UnclaimedAmount_id stake :
  with_UnclaimedAmount (UnclaimedAmount stake) stake = stake.
Proof. by destruct stake. Qed.

Lemma with_ExchangeBuffer_id state :
  with_ExchangeBuffer (ExchangeBuffer state) state = state.
Proof. by destruct state. Qed.

(** ** Reconciliation *)

Lemma updateStakeUnclaimed_fields stake state :
  0 < StakedAmount stake ->
  LastUpdateIndex stake <= ExchangeRate state ->
  let c := StakedAmount stake * (ExchangeRate state - LastUpdateIndex stake) / Q96 in
  updateStakeUnclaimed stake state =
    {| Owner := Owner stake; StakeSyntheticToken := StakeSyntheticToken stake;
       StakedAmount := StakedAmount stake - Z.min c (StakedAmount stake);
       UnclaimedAmount := UnclaimedAmount stake + c;
       LastUpdateIndex := ExchangeRate state |}.
Proof.
  intros Hs Hi c. unfold updateStakeUnclaimed.
  destruct stake as [o tok s u i]; simpl in *.
  destruct (Z.eqb_spec s 0); [lia |].
  destruct (Z.leb_spec (ExchangeRate state - i) 0) as [Hle | Hlt].
  - assert (i = ExchangeRate state) as -> by lia.
    subst c. rewrite Z.sub_diag, Z.mul_0_r, Z.div_0_l by (pose proof Q96_pos; lia).
    f_equal; lia.
  - fold c. unfold with_LastUpdateIndex, with_StakedAmount, with_UnclaimedAmount; simpl.
    rewrite Z.geb_leb. destruct (Z.leb_spec s c); simpl; f_equal; lia.
Qed.

Lemma updateStakeUnclaimed_Owner stake state :
  Owner (updateStakeUnclaimed stake state) = Owner stake /\
  StakeSyntheticToken (updateStakeUnclaimed stake state) = StakeSyntheticToken stake.
Proof.
  unfold updateStakeUnclaimed. zcmp; simpl; auto.
Qed.

(** C3, as amended.  For a stake with [StakedAmount = s > 0] and snapshot
    [i <= r = ExchangeRate], reconciliation adds [c = s * (r - i) / Q96]
    (integer division) to [UnclaimedAmount], sets the snapshot to [r], and
    decreases [StakedAmount] by [min c s]: by [c] while [c <= s], and to zero
    once the converted quantity reaches the principal. *)
Theorem updateStakeUnclaimed_reconciles (stake : TransmuterStake) (state : TransmuterState) :
  0 < StakedAmount stake ->
  LastUpdateIndex stake <= ExchangeRate state ->
  let c := StakedAmount stake * (ExchangeRate state - LastUpdateIndex stake) / Q96 in
  let stake' := updateStakeUnclaimed stake state in
  UnclaimedAmount stake' = UnclaimedAmount stake + c /\
  StakedAmount stake' = StakedAmount stake - Z.min c (StakedAmount stake) /\
  (c <= StakedAmount stake -> StakedAmount stake' = StakedAmount stake - c) /\
  (StakedAmount stake <= c -> StakedAmount stake' = 0) /\
  LastUpdateIndex stake' = ExchangeRate state /\
  Owner stake' = Owner stake /\
  StakeSyntheticToken stake' = StakeSyntheticToken stake.
Proof.
  intros Hs Hi c stake'. subst stake'.
  rewrite (updateStakeUnclaimed_fields stake state Hs Hi). fold c. simpl.
  repeat split; try lia.
Qed.

Lemma updateStakeUnclaimed_reconciles_witness :
  UnclaimedAmount (updateStakeUnclaimed stake_1 state_rate_3) = 0 + 2 /\
  StakedAmount (updateStakeUnclaimed stake_1 state_rate_3) = 0.
Proof.
  pose proof (updateStakeUnclaimed_reconciles stake_1 state_rate_3) as Hrec.
  simpl in Hrec.
  destruct Hrec as (Hu & _ & _ & Hz & _); [reflexivity | vm_compute; discriminate |].
  split; [exact Hu | apply Hz; vm_compute; discriminate].
Defined.

(** C3 as stated fails: a stake of 1 whose snapshot is [Q96] (the state after
    [Stake 1]) meets the rate [3 * Q96] (the state after [Deposit 2]): [c = 2]
    is added to [UnclaimedAmount] but [StakedAmount] drops by 1, to 0. *)
Lemma updateStakeUnclaimed_not_exact :
  ~ (forall stake state,
       0 < StakedAmount stake ->
       LastUpdateIndex stake <= ExchangeRate state ->
       StakedAmount (updateStakeUnclaimed stake state) =
         StakedAmount stake
         - StakedAmount stake * (ExchangeRate state - LastUpdateIndex stake) / Q96).
Proof.
  intros Hall.
  assert (Hpos : 0 < StakedAmount stake_1) by reflexivity.
  assert (Hidx : LastUpdateIndex stake_1 <= ExchangeRate state_rate_3)
    by (vm_compute; discriminate).
  pose proof (Hall stake_1 state_rate_3 Hpos Hidx) as Heq.
  vm_compute in Heq. discriminate Heq.
Qed.

(** The state C3's counterexample starts from is reached by the public
    calls: a stake of 1, a deposit of 2, then a claim pays 2 and leaves no
    stake. *)
Example overconversion_reachable :
  let w := @run idealExternals
             [ OpInitialize testSyntheticToken testUnderlying;
               OpStake testUser1 testSyntheticToken 1;
               OpDeposit testSyntheticToken 2 ]
             (NewTransmuter, MockStateDB.NewMockStateDB) in
  ExchangeRate <$> states w.1 !! testSyntheticToken = Some (3 * Q96) /\
  (@Claim idealExternals w.1 w.2 testUser1 testSyntheticToken).2 = Ok 2 /\
  StakedAmount <$>
    stakes (@Claim idealExternals w.1 w.2 testUser1 testSyntheticToken).1.1
      !! @stakeKey idealExternals testSyntheticToken testUser1 = Some 0.
Proof. vm_compute. repeat split. Qed.

Section TransmuterFacts.
Context `{Externals}.

Lemma getStake_cached t db key stake :
  stakes t !! key = Some stake -> getStake t db key = (t, Some stake).
Proof. intros Hk. unfold getStake. by rewrite Hk. Qed.

(** Whatever [getStake] returns is in the cache afterwards, and nothing
    else in the transmuter changed. *)
Lemma getStake_Some t db key t1 stake :
  getStake t db key = (t1, Some stake) ->
  stakes t1 !! key = Some stake /\ states t1 = states t /\
  (forall k, k <> key -> stakes t1 !! k = stakes t !! k).
Proof.
  unfold getStake. destruct (stakes t !! key) as [s |] eqn:Hk.
  - intros [= <- <-]. auto.
  - case_decide; [discriminate |]. intros [= <- <-]. simpl.
    rewrite lookup_insert_eq. split; [done |]. split; [done |].
    intros k Hne. by rewrite lookup_insert_ne.
Qed.

Lemma getStake_None t db key t1 :
  getStake t db key = (t1, None) -> t1 = t /\ stakes t !! key = None.
Proof.
  unfold getStake. destruct (stakes t !! key) as [s |] eqn:Hk; [discriminate |].
  case_decide; [| discriminate]. by intros [= <-].
Qed.

(** [saveState] after the in-place update of the state object: the entry
    under the token's own key holds the updated state in either case. *)
Lemma saveState_lookup t db synth state :
  states t !! synth = Some state ->
  states (saveState t db state).1 !! synth = Some state.
Proof.
  intros Hs. unfold saveState. simpl. rewrite lookup_insert.
  by case_decide.
Qed.

Lemma saveState_stakes t db state :
  stakes (saveState t db state).1 = stakes t.
Proof. reflexivity. Qed.

Lemma saveState_balances t db state a :
  MockStateDB.GetBalance (saveState t db state).2 a = MockStateDB.GetBalance db a.
Proof. reflexivity. Qed.

(** ** Deposit *)

(** C10.  On a registered synthetic token, [Deposit] of an amount [<= 0]
    returns [nil] and leaves the transmuter (buffer, rate, total staked,
    every stake) and the state database exactly as they were. *)
Theorem Deposit_nonpositive_noop (t : Transmuter) (db : StateDB)
    (syntheticToken : Address) (underlyingAmount : Z) :
  is_Some (states t !! syntheticToken) ->
  underlyingAmount <= 0 ->
  Deposit t db syntheticToken underlyingAmount = (t, db, None).
Proof.
  intros [state Hs] Hle. unfold Deposit. rewrite Hs.
  destruct (Z.leb_spec underlyingAmount 0); [done | lia].
Qed.

(** ** Unstake *)

(** C5.  For an owner whose stake exists and is nonzero, [Unstake] succeeds,
    removes [min amount s] where [s] is the staked amount after
    reconciliation (so never more than [s]), leaves
    [StakedAmount = max 0 (s - amount)], and lowers [TotalStaked] by the
    amount removed. *)
Theorem Unstake_clamps (t : Transmuter) (db : StateDB) (owner syntheticToken : Address)
    (amount : Z) (state : TransmuterState) (t1 : Transmuter) (stake : TransmuterStake) :
  states t !! syntheticToken = Some state ->
  getStake t db (stakeKey syntheticToken owner) = (t1, Some stake) ->
  StakedAmount stake <> 0 ->
  let stake1 := updateStakeUnclaimed stake state in
  let removed := Z.min amount (StakedAmount stake1) in
  exists t' db' stake' state',
    Unstake t db owner syntheticToken amount = (t', db', None) /\
    removed <= StakedAmount stake1 /\
    stakes t' !! stakeKey syntheticToken owner = Some stake' /\
    StakedAmount stake' = Z.max 0 (StakedAmount stake1 - amount) /\
    StakedAmount stake' = StakedAmount stake1 - removed /\
    UnclaimedAmount stake' = UnclaimedAmount stake1 /\
    states t' !! syntheticToken = Some state' /\
    TotalStaked state' = TotalStaked state - removed /\
    ExchangeBuffer state' = ExchangeBuffer state /\
    ExchangeRate state' = ExchangeRate state.
Proof.
  intros Hs Hg Hnz stake1 removed.
  destruct (getStake_Some _ _ _ _ _ Hg) as (Hk1 & Hst1 & _).
  unfold Unstake. rewrite Hs, Hg.
  destruct (Z.eqb_spec (StakedAmount stake) 0) as [| _]; [done |].
  fold stake1.
  set (amount1 := if amount >? StakedAmount stake1 then StakedAmount stake1 else amount).
  assert (Hrem : amount1 = removed).
  { subst amount1 removed. rewrite Z.gtb_ltb.
    destruct (Z.ltb_spec (StakedAmount stake1) amount); lia. }
  simpl.
  eexists _, _, _, _. split; [reflexivity |].
  split; [subst removed; lia |].
  split; [simpl; by rewrite lookup_insert_eq |].
  simpl. rewrite Hrem.
  split; [subst removed; lia |].
  split; [done |]. split; [done |].
  split.
  { rewrite lookup_insert. case_decide; [done |]. by rewrite lookup_insert_eq. }
  done.
Qed.

(** ** Claim *)


End TransmuterFacts.

(** ** Pro-rata distribution *)

Lemma accrued_reconciled stake state :
  LastUpdateIndex stake = ExchangeRate state -> accrued stake state = 0.
Proof.
  intros Hi. unfold accrued. rewrite Hi, Z.sub_diag.
  by rewrite andb_false_r.
Qed.

Lemma accrued_formula stake state :
  0 <= StakedAmount stake -> LastUpdateIndex stake <= ExchangeRate state ->
  accrued stake state =
    StakedAmount stake * (ExchangeRate state - LastUpdateIndex stake) / Q96.
Proof.
  intros Hs Hi. unfold accrued. rewrite !Z.gtb_ltb.
  destruct (Z.ltb_spec 0 (StakedAmount stake)); simpl.
  - destruct (Z.ltb_spec 0 (ExchangeRate state - LastUpdateIndex stake)); [done |].
    assert (ExchangeRate state - LastUpdateIndex stake = 0) as -> by lia.
    by rewrite Z.mul_0_r.
  - assert (StakedAmount stake = 0) as -> by lia. done.
Qed.

(** The two integer divisions of the index technique lose at most
    [s / Q96 + 1] against the exact share [D * s / T]. *)
Lemma share_rounding (s D T : Z) :
  0 <= s -> 0 <= D -> 0 < T ->
  let inc := s * (D * Q96 / T) / Q96 in
  0 <= inc /\ inc <= D * s / T /\ D * s / T <= inc + s / Q96 + 1.
Proof.
  intros Hs HD HT inc. pose proof Q96_pos as HQ.
  set (d := D * Q96 / T) in *.
  assert (Hd1 : d * T <= D * Q96).
  { subst d. rewrite Z.mul_comm. apply Z.mul_div_le. lia. }
  assert (Hd2 : D * Q96 < d * T + T).
  { subst d. pose proof (Z.mul_succ_div_gt (D * Q96) T HT). lia. }
  assert (Hd0 : 0 <= d) by (subst d; apply Z.div_pos; nia).
  assert (Hi1 : inc * Q96 <= s * d).
  { subst inc. rewrite Z.mul_comm. apply Z.mul_div_le. lia. }
  assert (Hi2 : s * d < inc * Q96 + Q96).
  { subst inc. pose proof (Z.mul_succ_div_gt (s * d) Q96 HQ). lia. }
  assert (Hi0 : 0 <= inc) by (subst inc; apply Z.div_pos; nia).
  set (z := s / Q96).
  assert (Hz2 : s < z * Q96 + Q96).
  { subst z. pose proof (Z.mul_succ_div_gt s Q96 HQ). lia. }
  set (y := D * s / T).
  assert (Hy1 : y * T <= D * s).
  { subst y. rewrite Z.mul_comm. apply Z.mul_div_le. lia. }
  split; [done |]. split.
  - subst y. apply Z.div_le_lower_bound; [done |].
    assert (Hk : (T * inc) * Q96 <= (D * s) * Q96) by nia.
    nia.
  - destruct (Z_le_gt_dec y (inc + z + 1)) as [| Hgt]; [done | exfalso].
    assert (Hy : inc + z + 2 <= y) by lia.
    assert (H1 : (inc + z + 2) * T * Q96 <= y * T * Q96) by nia.
    assert (H2 : y * T * Q96 <= D * s * Q96) by nia.
    assert (H3 : s * (d * T) + s * T <= (inc * Q96 + Q96) * T + (z * Q96 + Q96) * T) by nia.
    assert (H4 : s * (D * Q96) <= s * (d * T) + s * T) by nia.
    nia.
Qed.

Section ProRata.
Context `{Externals}.

Lemma GetClaimable_cached t db owner syntheticToken state stake :
  states t !! syntheticToken = Some state ->
  stakes t !! stakeKey syntheticToken owner = Some stake ->
  GetClaimable t db owner syntheticToken =
    (t, Z.min (UnclaimedAmount stake + accrued stake state) (ExchangeBuffer state)).
Proof.
  intros Hs Hk. unfold GetClaimable. rewrite Hs, (getStake_cached _ _ _ _ Hk).
  unfold accrued. rewrite !Z.gtb_ltb.
  destruct (Z.ltb_spec 0 (StakedAmount stake)); simpl;
    [destruct (Z.ltb_spec 0 (ExchangeRate state - LastUpdateIndex stake)) |];
    simpl; rewrite ?Z.add_0_r;
    match goal with
    | |- context [ ?a <? ?b ] => destruct (Z.ltb_spec a b)
    end; f_equal; lia.
Qed.

(** One staker's view of a deposit: reconciled, claimable not capped by the
    buffer before, stake at most the total. *)
Lemma Deposit_claimable_one t db syntheticToken state owner stake D :
  states t !! syntheticToken = Some state ->
  stakes t !! stakeKey syntheticToken owner = Some stake ->
  0 < D -> 0 < TotalStaked state ->
  0 <= StakedAmount stake <= TotalStaked state ->
  LastUpdateIndex stake = ExchangeRate state ->
  UnclaimedAmount stake <= ExchangeBuffer state ->
  let '(t', db', _) := Deposit t db syntheticToken D in
  claimable t db syntheticToken owner = UnclaimedAmount stake /\
  claimable t' db' syntheticToken owner =
    UnclaimedAmount stake
    + StakedAmount stake * (D * Q96 / TotalStaked state) / Q96.
Proof.
  intros Hs Hk HD HT Hst Hidx HU.
  pose proof (share_rounding (StakedAmount stake) D (TotalStaked state)
                ltac:(lia) ltac:(lia) HT) as (Hinc0 & Hinc1 & _).
  assert (Hbound : StakedAmount stake * (D * Q96 / TotalStaked state) / Q96 <= D).
  { etrans; [exact Hinc1 |]. apply Z.div_le_upper_bound; [done | nia]. }
  unfold Deposit. rewrite Hs.
  destruct (Z.leb_spec D 0) as [| _]; [lia |].
  cbn [TotalStaked with_ExchangeBuffer]. rewrite Z.gtb_ltb.
  destruct (Z.ltb_spec 0 (TotalStaked state)) as [_ |]; [| lia].
  set (state2 := with_ExchangeRate _ _).
  destruct (saveState _ _ state2) as [t' db'] eqn:Hsave.
  assert (Hs' : states t' !! syntheticToken = Some state2).
  { pose proof (saveState_lookup (set_states (insert syntheticToken state2) t) db
                  syntheticToken state2) as Hl.
    rewrite Hsave in Hl. apply Hl. simpl. apply lookup_insert_eq. }
  assert (Hk' : stakes t' !! stakeKey syntheticToken owner = Some stake).
  { pose proof (saveState_stakes (set_states (insert syntheticToken state2) t) db state2) as Hl.
    rewrite Hsave in Hl. simpl in Hl. by rewrite Hl. }
  unfold claimable.
  rewrite (GetClaimable_cached _ db _ _ _ _ Hs Hk).
  rewrite (GetClaimable_cached _ db' _ _ _ _ Hs' Hk'). simpl.
  rewrite (accrued_reconciled _ _ Hidx).
  assert (Hd0 : 0 <= D * Q96 / TotalStaked state)
    by (apply Z.div_pos; [pose proof Q96_pos; nia | done]).
  rewrite accrued_formula by (subst state2; simpl; lia).
  subst state2. simpl. rewrite <- Hidx.
  replace (LastUpdateIndex stake + D * Q96 / TotalStaked state - LastUpdateIndex stake)
    with (D * Q96 / TotalStaked state) by lia.
  split; lia.
Qed.

End ProRata.

Section ProRataTheorem.
Context `{Externals}.

Lemma total_of_bound t syntheticToken state owners :
  Forall (reconciled_staker t syntheticToken state) owners ->
  0 <= total_of t syntheticToken owners /\
  forall o, o ∈ owners -> 0 <= staked_of t syntheticToken o <= total_of t syntheticToken owners.
Proof.
  induction 1 as [| o owners (stake & Hk & Hs & _) _ (IH0 & IH)]; simpl.
  - split; [done |]. intros o Ho. by apply elem_of_nil in Ho.
  - assert (Ho : staked_of t syntheticToken o = StakedAmount stake)
      by (unfold staked_of; by rewrite Hk).
    split; [lia |]. intros o' [-> | Hin]%elem_of_cons.
    + lia.
    + specialize (IH o' Hin). lia.
Qed.

(** C1.  On a registered synthetic token whose stakers [owners] are all
    reconciled and whose [TotalStaked] is the sum [T > 0] of their stakes,
    a [Deposit] of [D > 0] raises the value [GetClaimable] returns for each
    staker with stake [s] by [s * (D * Q96 / T) / Q96], which is the share
    [D * s / T] up to the rounding of the two integer divisions (never
    above it, and below it by at most [s / Q96 + 1]).  In particular, two
    stakers of 100e18 and 200e18 with nothing pending see exactly 50e18 and
    100e18 after a deposit of 150e18. *)
Theorem Deposit_pro_rata :
  (forall (t : Transmuter) (db : StateDB) (syntheticToken : Address)
          (state : TransmuterState) (owners : list Address) (D : Z),
      states t !! syntheticToken = Some state ->
      Forall (reconciled_staker t syntheticToken state) owners ->
      TotalStaked state = total_of t syntheticToken owners ->
      0 < TotalStaked state ->
      0 < D ->
      exists t' db',
        Deposit t db syntheticToken D = (t', db', None) /\
        forall o, o ∈ owners ->
          let s := staked_of t syntheticToken o in
          let inc := claimable t' db' syntheticToken o
                     - claimable t db syntheticToken o in
          inc = s * (D * Q96 / TotalStaked state) / Q96 /\
          inc <= D * s / TotalStaked state /\
          D * s / TotalStaked state <= inc + s / Q96 + 1) /\
  (forall (t : Transmuter) (db : StateDB) (syntheticToken : Address)
          (state : TransmuterState) (user1 user2 : Address),
      states t !! syntheticToken = Some state ->
      Forall (reconciled_staker t syntheticToken state) [user1; user2] ->
      TotalStaked state = total_of t syntheticToken [user1; user2] ->
      staked_of t syntheticToken user1 = 100 * e18 ->
      staked_of t syntheticToken user2 = 200 * e18 ->
      claimable t db syntheticToken user1 = 0 ->
      claimable t db syntheticToken user2 = 0 ->
      exists t' db',
        Deposit t db syntheticToken (150 * e18) = (t', db', None) /\
        claimable t' db' syntheticToken user1 = 50 * e18 /\
        claimable t' db' syntheticToken user2 = 100 * e18).
Proof.
  assert (Hgen : forall t db syntheticToken state owners D,
      states t !! syntheticToken = Some state ->
      Forall (reconciled_staker t syntheticToken state) owners ->
      TotalStaked state = total_of t syntheticToken owners ->
      0 < TotalStaked state ->
      0 < D ->
      exists t' db',
        Deposit t db syntheticToken D = (t', db', None) /\
        forall o, o ∈ owners ->
          let s := staked_of t syntheticToken o in
          let inc := claimable t' db' syntheticToken o
                     - claimable t db syntheticToken o in
          inc = s * (D * Q96 / TotalStaked state) / Q96 /\
          inc <= D * s / TotalStaked state /\
          D * s / TotalStaked state <= inc + s / Q96 + 1).
  { intros t db syntheticToken state owners D Hs Hall HT HT0 HD.
    destruct (Deposit t db syntheticToken D) as [[t' db'] err] eqn:Hdep.
    assert (Herr : err = None).
    { revert Hdep. unfold Deposit. rewrite Hs.
      destruct (Z.leb_spec D 0); [lia |]. by intros [= _ _ <-]. }
    subst err. exists t', db'. split; [done |].
    intros o Ho s inc.
    destruct (total_of_bound _ _ _ _ Hall) as (_ & Hb). specialize (Hb o Ho).
    rewrite <- HT in Hb.
    rewrite Forall_forall in Hall.
    destruct (Hall o Ho) as (stake & Hk & Hs0 & Hidx & HU).
    assert (Hso : s = StakedAmount stake) by (subst s; unfold staked_of; by rewrite Hk).
    pose proof (Deposit_claimable_one t db syntheticToken state o stake D
                  Hs Hk HD HT0 ltac:(lia) Hidx HU) as Hone.
    rewrite Hdep in Hone. destruct Hone as (Hbefore & Hafter).
    assert (Hinc : inc = s * (D * Q96 / TotalStaked state) / Q96)
      by (subst inc; rewrite Hbefore, Hafter, Hso; lia).
    pose proof (share_rounding s D (TotalStaked state) ltac:(lia) ltac:(lia) HT0)
      as (_ & Hup & Hlow).
    rewrite Hinc. auto. }
  split; [exact Hgen |].
  intros t db syntheticToken state user1 user2 Hs Hall HT H1 H2 Hc1 Hc2.
  assert (HT' : TotalStaked state = 300 * e18).
  { rewrite HT. simpl. rewrite H1, H2. reflexivity. }
  destruct (Hgen t db syntheticToken state [user1; user2] (150 * e18) Hs Hall HT)
    as (t' & db' & Hdep & Hinc); [rewrite HT'; reflexivity | reflexivity |].
  exists t', db'. split; [done |].
  destruct (Hinc user1 ltac:(repeat constructor)) as (Hi1 & _).
  destruct (Hinc user2 ltac:(repeat constructor)) as (Hi2 & _).
  rewrite Hc1, H1, HT' in Hi1. rewrite Hc2, H2, HT' in Hi2.
  rewrite Z.sub_0_r in Hi1, Hi2. rewrite Hi1, Hi2.
  split; reflexivity.
Qed.

End ProRataTheorem.

(** ** Persistence of stakes *)

Lemma GetState_SetState (m : StateDB) (addr : Address) (key value : Hash) :
  MockStateDB.GetState (MockStateDB.SetState m addr key value) addr key = value.
Proof.
  unfold MockStateDB.GetState, MockStateDB.SetState. simpl.
  by rewrite !lookup_insert_eq.
Qed.

Lemma Z_of_byte_of_Z (z : Z) : Z_of_byte (byte_of_Z z) = z mod 256.
Proof.
  unfold Z_of_byte, byte_of_Z.
  pose proof (Z.mod_pos_bound z 256 ltac:(lia)) as Hb.
  destruct (Byte.of_N (Z.to_N (z mod 256))) as [b |] eqn:Hof.
  - simpl. apply Byte.to_of_N in Hof. rewrite Hof. lia.
  - apply Byte.of_N_None_iff in Hof. lia.
Qed.

Lemma be_digits_zero (fuel : nat) (acc : list byte) : be_digits fuel 0 acc = acc.
Proof. by destruct fuel. Qed.

Lemma byte_of_Z_nonzero (z : Z) : 0 < z < 256 -> byte_of_Z z <> x00.
Proof.
  intros Hz Heq. apply (f_equal Z_of_byte) in Heq.
  rewrite Z_of_byte_of_Z, Z.mod_small in Heq by lia.
  change (Z_of_byte x00) with 0 in Heq. lia.
Qed.

(** The big-endian digits of a positive number start with a nonzero byte. *)
Lemma be_digits_head (fuel : nat) : forall n acc,
  0 < n < 256 ^ Z.of_nat fuel ->
  exists b l, be_digits fuel n acc = b :: l ++ acc /\ b <> x00.
Proof.
  induction fuel as [| fuel IH]; intros n acc Hn.
  - simpl in Hn. lia.
  - cbn [be_digits]. destruct (Z.eqb_spec n 0) as [| _]; [lia |].
    rewrite Nat2Z.inj_succ, Z.pow_succ_r in Hn by lia.
    destruct (Z.eq_dec (n / 256) 0) as [Hq | Hq].
    + rewrite Hq, be_digits_zero.
      assert (n < 256) by (apply Z.div_small_iff in Hq; lia).
      exists (byte_of_Z (n mod 256)), []. split; [done |].
      apply byte_of_Z_nonzero. rewrite Z.mod_small; lia.
    + assert (Hpos : 0 < n / 256) by (pose proof (Z.div_pos n 256); lia).
      assert (Hlt : n / 256 < 256 ^ Z.of_nat fuel)
        by (apply Z.div_lt_upper_bound; lia).
      destruct (IH (n / 256) (byte_of_Z (n mod 256) :: acc) (conj Hpos Hlt))
        as (b & l & Heq & Hb).
      exists b, (l ++ [byte_of_Z (n mod 256)]). split; [| done].
      by rewrite Heq, <- app_assoc.
Qed.

Lemma Bytes_head (x : Z) :
  x <> 0 -> exists b l, Bytes x = b :: l /\ b <> x00.
Proof.
  intros Hx. unfold Bytes.
  assert (Habs : 0 < Z.abs x) by lia.
  pose proof (Z.log2_spec (Z.abs x) Habs) as [_ Hup].
  pose proof (Z.log2_nonneg (Z.abs x)) as HL.
  destruct (be_digits_head (S (Z.to_nat (Z.log2 (Z.abs x)))) (Z.abs x) []) as (b & l & Heq & Hb).
  - split; [done |]. rewrite Nat2Z.inj_succ, Z2Nat.id by done.
    eapply Z.lt_le_trans; [exact Hup |].
    apply Z.pow_le_mono_l. lia.
  - exists b, l. by rewrite Heq, app_nil_r.
Qed.

Lemma copy_length (dst src : list byte) : length (copy dst src) = length dst.
Proof. unfold copy. rewrite length_app, length_take, length_drop. lia. Qed.

(** The slot [saveStake] writes is the zero hash exactly when both amounts
    are zero. *)
Lemma packHalves_zero (hi lo : Z) : packHalves hi lo = zeroHash <-> hi = 0 /\ lo = 0.
Proof.
  split.
  - intros Heq. unfold packHalves in Heq.
    destruct (Z.eq_dec hi 0) as [-> | Hhi].
    + split; [done |]. destruct (Z.eq_dec lo 0) as [-> | Hlo]; [done | exfalso].
      destruct (Bytes_head lo Hlo) as (b & l & Hb & Hnz).
      apply (f_equal (fun h : list byte => h !! 16%nat)) in Heq. cbv beta in Heq.
      rewrite lookup_app_r in Heq by (rewrite copy_length; simpl; lia).
      rewrite copy_length, Hb in Heq. simpl in Heq. congruence.
    + exfalso. destruct (Bytes_head hi Hhi) as (b & l & Hb & Hnz).
      rewrite Hb in Heq. simpl in Heq. change zeroHash with (x00 :: replicate 31 x00) in Heq. congruence.
  - intros [-> ->]. reflexivity.
Qed.

Section Reload.
Context `{Externals}.

(** C9, as amended.  A stake saved with [saveStake] and looked up with
    [getStake] by a transmuter whose cache does not hold the key is found
    exactly when one of its two amounts is nonzero, and then comes back with
    [LastUpdateIndex = Q96] and a zero owner and token: the slot holds the
    two amounts only, the snapshot and the identity of the stake are not
    persisted.  (What the amounts are after the reload is not stated
    here.) *)
Theorem saveStake_getStake_reload (t t0 : Transmuter) (db : StateDB)
    (key : list byte) (stake : TransmuterStake) :
  stakes t0 !! key = None ->
  let reload := getStake t0 (saveStake t db key stake).2 key in
  (StakedAmount stake = 0 /\ UnclaimedAmount stake = 0 ->
     reload = (t0, None)) /\
  (StakedAmount stake <> 0 \/ UnclaimedAmount stake <> 0 ->
     exists loaded,
       reload.2 = Some loaded /\
       stakes reload.1 !! key = Some loaded /\
       LastUpdateIndex loaded = Q96 /\
       Owner loaded = zeroAddress /\
       StakeSyntheticToken loaded = zeroAddress).
Proof.
  intros Hmiss reload. subst reload.
  unfold getStake, saveStake. cbn [snd]. rewrite Hmiss, GetState_SetState.
  pose proof (packHalves_zero (StakedAmount stake) (UnclaimedAmount stake)) as Hz.
  split.
  - intros Hzero. by rewrite decide_True by (by apply Hz).
  - intros Hnz. rewrite decide_False by (intros Heq%Hz; lia).
    eexists. split; [reflexivity |]. simpl. by rewrite lookup_insert_eq.
Qed.

End Reload.

Lemma saveStake_getStake_reload_witness :
  exists loaded,
    (@getStake idealExternals NewTransmuter
       (@saveStake idealExternals world_deposited.1 world_deposited.2
          (@stakeKey idealExternals testSyntheticToken testUser1) stake_after_claim).2
       (@stakeKey idealExternals testSyntheticToken testUser1)).2 = Some loaded /\
    LastUpdateIndex loaded = Q96.
Proof.
  destruct (@saveStake_getStake_reload idealExternals world_deposited.1 NewTransmuter
              world_deposited.2 (@stakeKey idealExternals testSyntheticToken testUser1)
              stake_after_claim) as (_ & Hsome).
  - reflexivity.
  - destruct Hsome as (loaded & Hl & _ & Hidx & _).
    + left. vm_compute. discriminate.
    + exists loaded. split; [exact Hl | exact Hidx].
Defined.

(** C9 as stated fails: the stake of [TestTransmuter_Deposit_And_Claim]
    after its claim (50e18 staked, snapshot 1.5 * Q96), saved and reloaded
    by a fresh transmuter, does not come back with the three fields it was
    saved with: its snapshot is [Q96]. *)
Lemma saveStake_getStake_not_identity :
  ~ (exists loaded,
       (@getStake idealExternals NewTransmuter
          (@saveStake idealExternals world_deposited.1 world_deposited.2
             (@stakeKey idealExternals testSyntheticToken testUser1) stake_after_claim).2
          (@stakeKey idealExternals testSyntheticToken testUser1)).2 = Some loaded /\
       StakedAmount loaded = StakedAmount stake_after_claim /\
       UnclaimedAmount loaded = UnclaimedAmount stake_after_claim /\
       LastUpdateIndex loaded = LastUpdateIndex stake_after_claim).
Proof.
  intros (loaded & Hl & _ & _ & Hidx).
  vm_compute in Hl. injection Hl as <-.
  vm_compute in Hidx. discriminate Hidx.
Qed.

(** The amounts themselves.  [saveStake] copies the big-endian bytes of each
    amount to the START of its 16-byte half, and [getStake] reads the half
    as one big-endian number: an amount of 9 significant bytes comes back
    multiplied by [256^7]. *)
Example saveStake_getStake_amounts `{Externals} (t : Transmuter) (db : StateDB)
    (key : list byte) :
  exists loaded,
    (getStake NewTransmuter (saveStake t db key stake_after_claim).2 key).2 = Some loaded /\
    StakedAmount loaded = 50 * e18 * 256 ^ 7 /\
    StakedAmount loaded <> StakedAmount stake_after_claim /\
    UnclaimedAmount loaded = UnclaimedAmount stake_after_claim /\
    LastUpdateIndex loaded = Q96 /\
    LastUpdateIndex loaded <> LastUpdateIndex stake_after_claim.
Proof.
  unfold getStake, saveStake. cbn [snd stakes NewTransmuter].
  rewrite lookup_empty, GetState_SetState.
  destruct (decide (packHalves (StakedAmount stake_after_claim)
                      (UnclaimedAmount stake_after_claim) = zeroHash)) as [Hz | _].
  { vm_compute in Hz. discriminate Hz. }
  eexists. split; [reflexivity |]. cbn [StakedAmount UnclaimedAmount LastUpdateIndex].
  repeat split; try (vm_compute; congruence).
Qed.

(** ** The state invariant *)


Lemma sumZ_empty {V} (g : V -> Z) : sumZ g ∅ = 0.
Proof. unfold sumZ. by rewrite map_to_list_empty. Qed.










Lemma AddressBytes_length (a : Address) : length (AddressBytes a) = 20%nat.
Proof. apply length_vec_to_list. Qed.


Section Invariant.
Context `{Externals}.

(** The digest and the storage-key helper are taken to be free of
    collisions on the slots the transmuter uses. *)
Hypothesis blake3_inj : forall x y, blake3_256 x = blake3_256 y -> x = y.
Hypothesis stake_slot_inj : forall k k',
  makeStorageKey transmuterStakePrefix k = makeStorageKey transmuterStakePrefix k' -> k = k'.
Hypothesis state_slot_sep : forall a k,
  makeStorageKey transmuterStatePrefix a <> makeStorageKey transmuterStakePrefix k.




Lemma stake_slot_transfer db from to amount key' :
  stake_slot (transfer db from to amount) key' = stake_slot db key'.
Proof. reflexivity. Qed.




















End Invariant.

(** ** A collision-free instance of the external functions *)





Example test_world_values :
  (staked_sum test_world.1 testSyntheticToken,
   TotalStaked <$> states test_world.1 !! testSyntheticToken,
   ExchangeBuffer <$> states test_world.1 !! testSyntheticToken)
  = (100 * e18, Some (250 * e18), Some (100 * e18)).
Proof. vm_compute. reflexivity. Qed.

(** ** The theorems at the states of the package's tests *)

Lemma Deposit_pro_rata_witness :
  exists t' db',
    @Deposit idealExternals world_staked.1 world_staked.2 testSyntheticToken (150 * e18)
      = (t', db', None) /\
    @claimable idealExternals t' db' testSyntheticToken testUser1 = 50 * e18 /\
    @claimable idealExternals t' db' testSyntheticToken testUser2 = 100 * e18.
Proof.
  apply (proj2 (@Deposit_pro_rata idealExternals) world_staked.1 world_staked.2
           testSyntheticToken state_staked testUser1 testUser2).
  - vm_compute. reflexivity.
  - repeat constructor.
    + exists (stake_of testUser1 (100 * e18)).
      repeat split; vm_compute; congruence.
    + exists (stake_of testUser2 (200 * e18)).
      repeat split; vm_compute; congruence.
  - vm_compute. reflexivity.
  - vm_compute. reflexivity.
  - vm_compute. reflexivity.
  - vm_compute. reflexivity.
  - vm_compute. reflexivity.
Defined.

Lemma Deposit_nonpositive_noop_witness :
  @Deposit idealExternals world_staked.1 world_staked.2 testSyntheticToken 0
  = (world_staked.1, world_staked.2, None).
Proof.
  apply (@Deposit_nonpositive_noop idealExternals).
  - exists state_staked. vm_compute. reflexivity.
  - lia.
Defined.

Lemma Unstake_clamps_witness :
  exists t' db' stake' state',
    @Unstake idealExternals world_deposited.1 world_deposited.2
      testUser2 testSyntheticToken (500 * e18) = (t', db', None) /\
    stakes t' !! @stakeKey idealExternals testSyntheticToken testUser2 = Some stake' /\
    StakedAmount stake' = 0 /\
    states t' !! testSyntheticToken = Some state' /\
    TotalStaked state' = 300 * e18 - 100 * e18.
Proof.
  destruct (@Unstake_clamps idealExternals world_deposited.1 world_deposited.2
              testUser2 testSyntheticToken (500 * e18) state_deposited
              world_deposited.1 (stake_of testUser2 (200 * e18)))
    as (t' & db' & stake' & state' & Hu & _ & Hk & Hmax & _ & _ & Hs & HT & _).
  - vm_compute. reflexivity.
  - vm_compute. reflexivity.
  - vm_compute. discriminate.
  - exists t', db', stake', state'. repeat split; try done.
Defined.


Lemma put_be_length (w : nat) (n : Z) : length (put_be w n) = w.
Proof. induction w as [| w IH]; simpl; [done | by rewrite IH]. Qed.

Lemma fold_put_be (w : nat) (n acc : Z) :
  fold_left (fun a b => a * 256 + Z_of_byte b) (put_be w n) acc
  = acc * 256 ^ Z.of_nat w + n mod 256 ^ Z.of_nat w.
Proof.
  revert acc. induction w as [| w IH]; intros acc.
  - simpl. rewrite Z.mod_1_r. lia.
  - cbn [put_be fold_left]. rewrite IH, Z_of_byte_of_Z.
    rewrite Nat2Z.inj_succ, Z.pow_succ_r by lia.
    assert (Hp : 0 < 256 ^ Z.of_nat w) by (apply Z.pow_pos_nonneg; lia).
    rewrite (Z.mul_comm 256 (256 ^ Z.of_nat w)).
    rewrite (Z.rem_mul_r n (256 ^ Z.of_nat w) 256) by lia.
    lia.
Qed.

(** A value that fits its big-endian field is read back from it. *)
Lemma SetBytes_put_be (w : nat) (n : Z) :
  0 <= n < 256 ^ Z.of_nat w -> SetBytes (put_be w n) = n.
Proof.
  intros Hn. unfold SetBytes. rewrite fold_put_be, Z.mod_small by done. lia.
Qed.

Lemma drop_field (field rest : list byte) (n m k : nat) :
  length field = n -> k = (n + m)%nat -> drop k (field ++ rest) = drop m rest.
Proof. intros Hn ->. by apply drop_app_add'. Qed.

Section PoolKeyRoundTrip.
Import PoolKeys.

Lemma ToBytes_length (k : PoolKey) : length (ToBytes k) = 66%nat.
Proof.
  unfold ToBytes. rewrite !length_app, !AddressBytes_length, !put_be_length.
  reflexivity.
Qed.

(** C8.  For every valid pool key (sorted currencies, fee and tick spacing
    within their fields) [ToBytes] yields exactly 66 bytes and
    [PoolKeyFromBytes] returns the key itself from them. *)
Theorem PoolKey_roundtrip (k : PoolKey) :
  valid k ->
  length (ToBytes k) = 66%nat /\ PoolKeyFromBytes (ToBytes k) = inl k.
Proof.
  intros (_ & HFee & HTick). split; [apply ToBytes_length |].
  unfold PoolKeyFromBytes. rewrite decide_True by apply ToBytes_length.
  destruct k as [[c0] [c1] fee tick hooks]. cbn [Currency0 Currency1 Fee TickSpacing Hooks] in *.
  unfold ToBytes. cbn [Currency0 Currency1 Fee TickSpacing Hooks CurrencyAddress].
  set (rest1 := AddressBytes c1 ++ _).
  rewrite (take_app_length' (AddressBytes c0) rest1 20) by (by rewrite AddressBytes_length).
  rewrite (drop_app_length' (AddressBytes c0) rest1 20) by (by rewrite AddressBytes_length).
  rewrite (drop_field (AddressBytes c0) rest1 20 20 40)
    by (reflexivity || apply AddressBytes_length).
  rewrite (drop_field (AddressBytes c0) rest1 20 23 43)
    by (reflexivity || apply AddressBytes_length).
  rewrite (drop_field (AddressBytes c0) rest1 20 25 45)
    by (reflexivity || apply AddressBytes_length).
  subst rest1. set (rest2 := put_be 3 fee ++ _).
  rewrite (take_app_length' (AddressBytes c1) rest2 20) by (by rewrite AddressBytes_length).
  rewrite (drop_app_length' (AddressBytes c1) rest2 20) by (by rewrite AddressBytes_length).
  rewrite (drop_field (AddressBytes c1) rest2 20 3 23)
    by (reflexivity || apply AddressBytes_length).
  rewrite (drop_field (AddressBytes c1) rest2 20 5 25)
    by (reflexivity || apply AddressBytes_length).
  subst rest2. set (rest3 := put_be 2 tick ++ _).
  rewrite (take_app_length' (put_be 3 fee) rest3 3) by (by rewrite put_be_length).
  rewrite (drop_app_length' (put_be 3 fee) rest3 3) by (by rewrite put_be_length).
  rewrite (drop_field (put_be 3 fee) rest3 3 2 5)
    by (reflexivity || apply put_be_length).
  subst rest3. set (rest4 := AddressBytes hooks ++ _).
  rewrite (take_app_length' (put_be 2 tick) rest4 2) by (by rewrite put_be_length).
  rewrite (drop_app_length' (put_be 2 tick) rest4 2) by (by rewrite put_be_length).
  subst rest4.
  rewrite (take_app_length' (AddressBytes hooks) [x00] 20) by (by rewrite AddressBytes_length).
  rewrite <- (app_nil_r (AddressBytes c0)), <- (app_nil_r (AddressBytes c1)),
    <- (app_nil_r (AddressBytes hooks)), !BytesToAddress_Bytes.
  rewrite !SetBytes_put_be by (simpl; lia).
  reflexivity.
Qed.

Lemma PoolKey_roundtrip_witness :
  length (ToBytes newTestPoolKey) = 66%nat /\
  PoolKeyFromBytes (ToBytes newTestPoolKey) = inl newTestPoolKey.
Proof.
  apply PoolKey_roundtrip.
  repeat split; vm_compute; congruence.
Defined.

End PoolKeyRoundTrip.

Section AlchemistMint.
Import Alchemist.

Lemma ltv_gt_cross (debt collateral : Z) :
  0 < collateral ->
  (ltv debt collateral ?= inject_Z MaxLTV)%Q = Gt
  <-> MaxLTV * collateral < debt * LTVPrecision.
Proof.
  intros Hc. rewrite <- Qgt_alt. unfold ltv, Qlt, Qdiv, Qinv, Qmult, inject_Z.
  destruct collateral as [| p | p]; try lia. simpl Qnum. simpl Qden.
  cbn [Qnum Qden]. rewrite !Z.mul_1_r, !Pos.mul_1_l. lia.
Qed.

(** C7.  On an account with collateral, for registered tokens and within
    the debt ceiling, [Mint] fails with [ErrMaxLTVExceeded] exactly when
    [(Debt + amount) * LTVPrecision / Collateral > MaxLTV] (the debt after
    the harvest prelude, the quotient exact, [MaxLTV = 90] of
    [LTVPrecision = 100]), and then changes nothing; otherwise it succeeds
    and the debt grows by [amount].  In particular, on a collateral of
    100e18 without debt, [Mint 90e18] succeeds and [Mint 1] right after it
    fails with [ErrMaxLTVExceeded]. *)
Theorem Mint_LTV_bound :
  (forall (a : t) (db : StateDB) (owner yieldToken syntheticToken : Address)
          (amount : Z) yt synth account,
      yieldTokens a !! yieldToken = Some yt ->
      synthetics a !! syntheticToken = Some synth ->
      accounts a !! (owner, yieldToken) = Some account ->
      0 < Collateral account ->
      TotalDebt synth + amount <= DebtCeiling synth ->
      let debt := Debt (harvest account yt (MockStateDB.blockNumber db)) in
      let exceeded :=
        (inject_Z MaxLTV < ltv (debt + amount) (Collateral account))%Q in
      (exceeded <->
         Mint a db owner yieldToken syntheticToken amount
         = (a, db, Some ErrMaxLTVExceeded)) /\
      (~ exceeded ->
         exists a' db',
           Mint a db owner yieldToken syntheticToken amount = (a', db', None) /\
           minted a db owner yieldToken syntheticToken amount a')) /\
  (forall (a : t) (db : StateDB) (owner yieldToken syntheticToken : Address)
          yt synth account,
      yieldTokens a !! yieldToken = Some yt ->
      synthetics a !! syntheticToken = Some synth ->
      accounts a !! (owner, yieldToken) = Some account ->
      Collateral account = 100 * e18 ->
      Debt account = 0 ->
      LastHarvestBlock account = MockStateDB.blockNumber db ->
      TotalDebt synth + 90 * e18 + 1 <= DebtCeiling synth ->
      exists a' db',
        Mint a db owner yieldToken syntheticToken (90 * e18) = (a', db', None) /\
        Mint a' db' owner yieldToken syntheticToken 1
        = (a', db', Some ErrMaxLTVExceeded)).
Proof.
  split.
  - intros a db owner yieldToken syntheticToken amount yt synth account
      Hyt Hsy Hacc Hcol Hceil debt exceeded.
    subst debt exceeded. rewrite Qgt_alt.
    unfold Mint. rewrite Hyt, Hsy, Hacc. cbv zeta.
    change (Collateral (harvest account yt (MockStateDB.blockNumber db)))
      with (Collateral account).
    destruct (ltv (Debt (harvest account yt (MockStateDB.blockNumber db)) + amount)
                (Collateral account) ?= inject_Z MaxLTV)%Q eqn:Hcmp.
    + destruct (Z.gtb_spec (TotalDebt synth + amount) (DebtCeiling synth)); [lia |].
      split; [split; [discriminate | intros [=]] |].
      intros _. eexists _, _. split; [reflexivity |].
      exists yt, account. eexists.
      split; [done |]. split; [done |].
      split; [simpl; apply lookup_insert_eq |]. split; reflexivity.
    + destruct (Z.gtb_spec (TotalDebt synth + amount) (DebtCeiling synth)); [lia |].
      split; [split; [discriminate | intros [=]] |].
      intros _. eexists _, _. split; [reflexivity |].
      exists yt, account. eexists.
      split; [done |]. split; [done |].
      split; [simpl; apply lookup_insert_eq |]. split; reflexivity.
    + split; [done |]. intros Hn. by exfalso.
  - intros a db owner yieldToken syntheticToken yt synth account
      Hyt Hsy Hacc Hcol Hdebt Hblock Hceil.
    assert (Hh : harvest account yt (MockStateDB.blockNumber db) = account).
    { unfold harvest. rewrite <- Hblock, Z.sub_diag, Z.mul_0_r, Hdebt.
      destruct account; simpl in *. subst. reflexivity. }
    assert (H1 : (ltv (0 + 90 * e18) (100 * e18) ?= inject_Z MaxLTV)%Q = Eq)
      by (vm_compute; reflexivity).
    assert (H2 : (ltv (0 + 90 * e18 + 1) (100 * e18) ?= inject_Z MaxLTV)%Q = Gt)
      by (vm_compute; reflexivity).
    unfold Mint at 1. rewrite Hyt, Hsy, Hacc, Hh, Hdebt, Hcol, H1.
    destruct (Z.gtb_spec (TotalDebt synth + 90 * e18) (DebtCeiling synth)); [lia |].
    eexists _, _. split; [reflexivity |].
    unfold Mint. cbn [yieldTokens synthetics accounts MockStateDB.blockNumber
                      MockStateDB.AddBalance].
    rewrite Hyt, !lookup_insert_eq.
    unfold harvest. cbn [Collateral Debt LastHarvestBlock].
    rewrite Hblock, Z.sub_diag, Z.mul_0_r.
    change (0 / 10 ^ 18) with 0.
    rewrite Z.min_l by (unfold e18; lia). rewrite Z.sub_0_r, H2.
    reflexivity.
Qed.

Lemma Mint_LTV_bound_witness :
  exists a' db',
    Mint test_alchemist MockStateDB.NewMockStateDB
      testUser1 testYieldToken testSyntheticToken (90 * e18) = (a', db', None) /\
    Mint a' db' testUser1 testYieldToken testSyntheticToken 1
    = (a', db', Some ErrMaxLTVExceeded).
Proof.
  apply (proj2 Mint_LTV_bound test_alchemist MockStateDB.NewMockStateDB
           testUser1 testYieldToken testSyntheticToken
           test_yt test_synth test_account).
  - vm_compute. reflexivity.
  - vm_compute. reflexivity.
  - vm_compute. reflexivity.
  - reflexivity.
  - reflexivity.
  - reflexivity.
  - vm_compute. discriminate.
Defined.

(** The same on the values: after [Mint 90e18] the account's integer LTV
    is [MaxLTV]. *)
Example Mint_at_MaxLTV :
  GetLTV (Mint test_alchemist MockStateDB.NewMockStateDB
            testUser1 testYieldToken testSyntheticToken (90 * e18)).1.1
    testUser1 testYieldToken = MaxLTV.
Proof. vm_compute. reflexivity. Qed.

End AlchemistMint.

Section LockAtomicity.
Import PoolManager.
Variable poolManagerAddr : Address.

Lemma GetDelta_updateDelta pm caller c amount c' :
  GetDelta (updateDelta pm caller c amount) caller c'
  = GetDelta pm caller c' + (if decide (c = c') then amount else 0).
Proof.
  unfold GetDelta, updateDelta. simpl. rewrite lookup_insert_eq. simpl.
  rewrite lookup_insert. case_decide; subst; simpl; lia.
Qed.

Lemma execAll_deltas acts : forall pm db caller,
  last (lockers pm) = Some caller ->
  Forall succeeds acts ->
  exists pm' db',
    execAll poolManagerAddr acts (pm, db) = Done (pm', db') /\
    lockers pm' = lockers pm /\
    forall c, GetDelta pm' caller c = GetDelta pm caller c + net acts c.
Proof.
  induction acts as [| act acts IH]; intros pm db caller Hlast Hall.
  - exists pm, db. repeat split. intros c. simpl. lia.
  - apply Forall_cons in Hall as [Hact Hall].
    cbn [execAll]. unfold exec. rewrite Hlast.
    destruct act as [c amount | c amount | id pool | e]; [| | | done].
    + destruct (IH (updateDelta pm caller c amount) db caller Hlast Hall)
        as (pm' & db' & Hex & Hlk & Hd).
      exists pm', db'. split; [done |]. split; [done |].
      intros c'. rewrite Hd, GetDelta_updateDelta. simpl. case_decide; lia.
    + destruct (IH (updateDelta pm caller c (- amount))
                  (MockStateDB.AddBalance
                     (MockStateDB.SubBalance db caller (u256 amount))
                     poolManagerAddr (u256 amount)) caller Hlast Hall)
        as (pm' & db' & Hex & Hlk & Hd).
      exists pm', db'. split; [exact Hex |]. split; [done |].
      intros c'. rewrite Hd, GetDelta_updateDelta. simpl. case_decide; lia.
    + destruct (IH {| pools := <[id := pool]> (pools pm); lockers := lockers pm;
                       currentDeltas := currentDeltas pm |} db caller Hlast Hall)
        as (pm' & db' & Hex & Hlk & Hd).
      exists pm', db'. split; [exact Hex |]. split; [done |].
      intros c'. rewrite Hd. reflexivity.
Qed.

Lemma settled_spec pm caller :
  settled pm caller = true <-> forall c, GetDelta pm caller c = 0.
Proof.
  unfold settled, GetDelta. rewrite bool_decide_eq_true. split.
  - intros Hall c. destruct (default ∅ (currentDeltas pm !! caller) !! c) eqn:Hc; [| done].
    simpl. by apply (Hall c).
  - intros Hz c v Hc. specialize (Hz c). by rewrite Hc in Hz.
Qed.

(** A failed lock leaves the manager and the state database as they
    were. *)
Lemma Lock_abort_restores pm db caller acts e :
  (Lock poolManagerAddr pm db caller acts).2 = Abort e ->
  (Lock poolManagerAddr pm db caller acts).1 = (pm, db).
Proof.
  unfold Lock. destruct (execAll _ _ _) as [[pm' db'] | e']; [| done].
  by destruct (settled pm' caller).
Qed.

(** C6.  For a sequence of operations run inside one lock frame, each of
    which itself succeeds, the lock releases successfully if and only if
    the deltas booked to the frame sum to zero for every currency; if some
    sum is not zero the call fails with [ErrCurrencyNotSettled], and a
    failed call (for this or any other reason) returns the manager and the
    state database exactly as they were before it. *)
Theorem Lock_atomic (pm : t) (db : StateDB) (caller : Address) (acts : list Action) :
  Forall succeeds acts ->
  ((exists pm' db', Lock poolManagerAddr pm db caller acts = (pm', db', Done tt))
     <-> forall c, net acts c = 0) /\
  ((exists c, net acts c <> 0) ->
     Lock poolManagerAddr pm db caller acts = (pm, db, Abort ErrCurrencyNotSettled)) /\
  (forall e, (Lock poolManagerAddr pm db caller acts).2 = Abort e ->
     (Lock poolManagerAddr pm db caller acts).1 = (pm, db)) /\
  (forall pm' db', Lock poolManagerAddr pm db caller acts = (pm', db', Done tt) ->
     lockers pm' = lockers pm /\ forall c, GetDelta pm' caller c = 0).
Proof.
  intros Hall.
  set (opened := {| pools := pools pm; lockers := lockers pm ++ [caller];
                    currentDeltas := <[caller := ∅]> (currentDeltas pm) |}).
  destruct (execAll_deltas acts opened db caller) as (pm1 & db1 & Hex & Hlk & Hd);
    [subst opened; simpl; apply last_snoc | done |].
  assert (Hfresh : forall c, GetDelta opened caller c = 0).
  { intros c. unfold GetDelta, opened. simpl. by rewrite lookup_insert_eq. }
  assert (Hnet : forall c, GetDelta pm1 caller c = net acts c)
    by (intros c; rewrite Hd, Hfresh; lia).
  assert (Hset : settled pm1 caller = true <-> forall c, net acts c = 0).
  { rewrite settled_spec. split; intros Hz c; specialize (Hz c);
      [by rewrite <- Hnet | by rewrite Hnet]. }
  assert (HL : Lock poolManagerAddr pm db caller acts =
               if settled pm1 caller then
                 ({| pools := pools pm1; lockers := removelast (lockers pm1);
                     currentDeltas := delete caller (currentDeltas pm1) |}, db1, Done tt)
               else (pm, db, Abort ErrCurrencyNotSettled)).
  { unfold Lock. fold opened. by rewrite Hex. }
  split; [split | split; [| split]].
  - intros (pm' & db' & HLk). apply Hset. rewrite HL in HLk.
    destruct (settled pm1 caller); [done | discriminate].
  - intros Hz. apply Hset in Hz. rewrite HL, Hz. eauto.
  - intros (c & Hc). rewrite HL.
    destruct (settled pm1 caller) eqn:Hs; [| done].
    exfalso. apply Hc. by apply Hset.
  - intros e. apply Lock_abort_restores.
  - intros pm' db' HLk. rewrite HL in HLk.
    destruct (settled pm1 caller); [| discriminate].
    injection HLk as <- _. split.
    + simpl. rewrite Hlk. subst opened. simpl. apply removelast_last.
    + intros c. unfold GetDelta. simpl. by rewrite lookup_delete_eq.
Qed.

End LockAtomicity.

Lemma Lock_atomic_witness :
  (exists pm' db',
     PoolManager.Lock testPoolManagerAddr PoolManager.NewPoolManager
       MockStateDB.NewMockStateDB testCaller settled_actions
     = (pm', db', PoolManager.Done tt)) /\
  PoolManager.Lock testPoolManagerAddr PoolManager.NewPoolManager
    MockStateDB.NewMockStateDB testCaller unsettled_actions
  = (PoolManager.NewPoolManager, MockStateDB.NewMockStateDB,
     PoolManager.Abort PoolManager.ErrCurrencyNotSettled).
Proof.
  split.
  - apply (Lock_atomic testPoolManagerAddr PoolManager.NewPoolManager
             MockStateDB.NewMockStateDB testCaller settled_actions).
    + repeat constructor.
    + intros c. simpl. case_decide; lia.
  - apply (Lock_atomic testPoolManagerAddr PoolManager.NewPoolManager
             MockStateDB.NewMockStateDB testCaller unsettled_actions).
    + repeat constructor.
    + exists PoolKeys.NativeCurrency. vm_compute. discriminate.
Defined.

Example Lock_empty :
  PoolManager.Lock testPoolManagerAddr PoolManager.NewPoolManager
    MockStateDB.NewMockStateDB testCaller []
  = (PoolManager.NewPoolManager, MockStateDB.NewMockStateDB, PoolManager.Done tt).
Proof. vm_compute. reflexivity. Qed.

(* ===================================================================== *)
(** * The calls of the transmuter, one by one *)
(* ===================================================================== *)

Lemma u256_idemp (z : Z) : u256 (u256 z) = u256 z.
Proof. unfold u256. by rewrite Z.mod_mod. Qed.

Lemma u256_add_sub (b a : Z) : u256 (u256 (b - a) + a) = u256 b.
Proof.
  unfold u256. rewrite Zplus_mod_idemp_l. f_equal. lia.
Qed.

Lemma u256_sub_add (b a : Z) : u256 (u256 (b + a) - a) = u256 b.
Proof.
  unfold u256. rewrite Zminus_mod_idemp_l. f_equal. lia.
Qed.

Lemma GetBalance_AddBalance (db : StateDB) (a b : Address) (x : Z) :
  MockStateDB.GetBalance (MockStateDB.AddBalance db a x) b =
  if decide (a = b) then u256 (MockStateDB.GetBalance db a + x)
  else MockStateDB.GetBalance db b.
Proof.
  unfold MockStateDB.GetBalance at 1, MockStateDB.AddBalance. simpl.
  rewrite lookup_insert. by case_decide.
Qed.

Lemma GetBalance_SubBalance (db : StateDB) (a b : Address) (x : Z) :
  MockStateDB.GetBalance (MockStateDB.SubBalance db a x) b =
  if decide (a = b) then u256 (MockStateDB.GetBalance db a - x)
  else MockStateDB.GetBalance db b.
Proof.
  unfold MockStateDB.GetBalance at 1, MockStateDB.SubBalance. simpl.
  rewrite lookup_insert. by case_decide.
Qed.

Lemma GetBalance_SetState (db : StateDB) (a b : Address) (k v : Hash) :
  MockStateDB.GetBalance (MockStateDB.SetState db a k v) b = MockStateDB.GetBalance db b.
Proof. reflexivity. Qed.

(** The balance of every address after a transfer. *)
Lemma GetBalance_transfer (db : StateDB) (from to a : Address) (amount : Z) :
  MockStateDB.GetBalance (transfer db from to amount) a =
  if decide (to = a) then
    u256 ((if decide (from = to) then u256 (MockStateDB.GetBalance db from - u256 amount)
           else MockStateDB.GetBalance db to) + u256 amount)
  else if decide (from = a) then u256 (MockStateDB.GetBalance db from - u256 amount)
  else MockStateDB.GetBalance db a.
Proof.
  unfold transfer. rewrite GetBalance_AddBalance.
  case_decide as Hto.
  - by rewrite GetBalance_SubBalance.
  - by rewrite GetBalance_SubBalance.
Qed.

Section TransmuterCalls.
Context `{Externals}.

(** X1.  [InitializeTransmuter] registers a token once, at the 1:1 rate and
    with nothing staked or buffered; a second registration of the same token
    is refused (with [ErrSyntheticNotRegistered], the error the code
    returns there) and changes nothing. *)
Theorem InitializeTransmuter_once (t : Transmuter) (db : StateDB)
    (syntheticToken : Address) (underlyingAsset : Currency) :
  states t !! syntheticToken = None ->
  exists t' db',
    InitializeTransmuter t db syntheticToken underlyingAsset = (t', db', None) /\
    states t' !! syntheticToken =
      Some {| SyntheticToken := syntheticToken; UnderlyingAsset := underlyingAsset;
              ExchangeBuffer := 0; TotalStaked := 0; ExchangeRate := Q96 |} /\
    (forall s, s <> syntheticToken -> states t' !! s = states t !! s) /\
    stakes t' = stakes t /\
    GetExchangeRate t' syntheticToken = Q96 /\
    (forall a, MockStateDB.GetBalance db' a = MockStateDB.GetBalance db a) /\
    (forall u,
       InitializeTransmuter t' db' syntheticToken u
         = (t', db', Some ErrSyntheticNotRegistered)).
Proof.
  intros Hnone.
  set (state := {| SyntheticToken := syntheticToken; UnderlyingAsset := underlyingAsset;
                   ExchangeBuffer := 0; TotalStaked := 0; ExchangeRate := Q96 |}).
  set (w := saveState (set_states (insert syntheticToken state) t) db state).
  assert (Hreg : states w.1 !! syntheticToken = Some state).
  { apply saveState_lookup. simpl. by rewrite lookup_insert_eq. }
  exists w.1, w.2.
  split; [unfold InitializeTransmuter; by rewrite Hnone |].
  split; [done |].
  split.
  { intros s Hs. simpl. by rewrite !lookup_insert_ne by done. }
  split; [done |].
  split.
  { unfold GetExchangeRate. by rewrite Hreg. }
  split; [done |].
  intros u. unfold InitializeTransmuter. by rewrite Hreg.
Qed.


Lemma updateStakeUnclaimed_current stake state :
  LastUpdateIndex stake = ExchangeRate state -> updateStakeUnclaimed stake state = stake.
Proof.
  intros Hi. unfold updateStakeUnclaimed. rewrite Hi, Z.sub_diag.
  by destruct (StakedAmount stake =? 0).
Qed.

Lemma updateStakeUnclaimed_nonneg stake state :
  0 <= StakedAmount stake -> 0 <= StakedAmount (updateStakeUnclaimed stake state).
Proof.
  intros Hs. unfold updateStakeUnclaimed.
  destruct (Z.eqb_spec (StakedAmount stake) 0); [done |].
  destruct (Z.leb_spec (ExchangeRate state - LastUpdateIndex stake) 0); [done |].
  cbv zeta. rewrite Z.geb_leb. simpl.
  destruct (Z.leb_spec (StakedAmount stake)
              (StakedAmount stake * (ExchangeRate state - LastUpdateIndex stake) / Q96));
    simpl; lia.
Qed.

Lemma Stake_result t db owner syntheticToken amount state t1 found :
  states t !! syntheticToken = Some state ->
  getStake t db (stakeKey syntheticToken owner) = (t1, found) ->
  0 < amount ->
  let stake1 := updateStakeUnclaimed (stake_or_new found owner syntheticToken state) state in
  let stake3 := with_LastUpdateIndex (ExchangeRate state)
                  (with_StakedAmount (StakedAmount stake1 + amount) stake1) in
  let state1 := with_TotalStaked (TotalStaked state + amount) state in
  exists t' db',
    Stake t db owner syntheticToken amount = (t', db', None) /\
    stakes t' = <[stakeKey syntheticToken owner := stake3]> (stakes t1) /\
    states t' = <[SyntheticToken state := state1]> (<[syntheticToken := state1]> (states t)) /\
    (forall a, MockStateDB.GetBalance db' a =
               MockStateDB.GetBalance (transfer db owner transmuterAddr amount) a).
Proof.
  intros Hs Hg Hpos stake1 stake3 state1.
  assert (Hst1 : states t1 = states t).
  { unfold getStake in Hg. destruct (stakes t !! _); [by injection Hg as <- _ |].
    case_decide; by injection Hg as <- _. }
  unfold Stake. rewrite Hs, Hg.
  destruct (Z.leb_spec amount 0); [lia |].
  eexists _, _. split; [reflexivity |].
  simpl. by rewrite Hst1.
Qed.


(** X3.  [Stake] followed by [Unstake] of the same amount: both succeed, the
    stake is left as reconciliation alone would leave it (snapshotted at the
    current rate), the token's state is as before, and every balance is back
    to its value (as a 256-bit number). *)
Theorem Stake_Unstake_roundtrip (t : Transmuter) (db : StateDB)
    (owner syntheticToken : Address) (amount : Z) (state : TransmuterState) :
  states t !! syntheticToken = Some state ->
  0 <= StakedAmount
         (stake_or_new (getStake t db (stakeKey syntheticToken owner)).2
            owner syntheticToken state) ->
  0 < amount ->
  let stake1 :=
    updateStakeUnclaimed
      (stake_or_new (getStake t db (stakeKey syntheticToken owner)).2
         owner syntheticToken state) state in
  exists t1 db1 t2 db2,
    Stake t db owner syntheticToken amount = (t1, db1, None) /\
    Unstake t1 db1 owner syntheticToken amount = (t2, db2, None) /\
    stakes t2 !! stakeKey syntheticToken owner =
      Some (with_LastUpdateIndex (ExchangeRate state) stake1) /\
    states t2 !! syntheticToken = Some state /\
    (forall a, u256 (MockStateDB.GetBalance db2 a) = u256 (MockStateDB.GetBalance db a)).
Proof.
  intros Hs Hnn Hpos stake1.
  destruct (getStake t db (stakeKey syntheticToken owner)) as [t0 found] eqn:Hg.
  cbn [snd] in Hnn, stake1.
  destruct (Stake_result _ _ _ _ _ _ _ _ Hs Hg Hpos) as (t1 & db1 & HS & Hk & Hst & Hbal).
  fold stake1 in Hk.
  pose proof (updateStakeUnclaimed_nonneg _ state Hnn) as Hnn1. fold stake1 in Hnn1.
  set (stake3 := with_LastUpdateIndex (ExchangeRate state)
                   (with_StakedAmount (StakedAmount stake1 + amount) stake1)) in *.
  set (state1 := with_TotalStaked (TotalStaked state + amount) state) in *.
  assert (Hk1 : stakes t1 !! stakeKey syntheticToken owner = Some stake3)
    by (by rewrite Hk, lookup_insert_eq).
  assert (Hs1 : states t1 !! syntheticToken = Some state1).
  { rewrite Hst, lookup_insert. case_decide; [done |]. by rewrite lookup_insert_eq. }
  exists t1, db1. 
  unfold Unstake. rewrite Hs1, (getStake_cached _ _ _ _ Hk1).
  assert (Hne : (StakedAmount stake3 =? 0) = false) by (apply Z.eqb_neq; simpl; lia).
  rewrite Hne.
  rewrite (updateStakeUnclaimed_current stake3 state1) by reflexivity.
  assert (Hgt : (amount >? StakedAmount stake3) = false).
  { rewrite Z.gtb_ltb. apply Z.ltb_ge. simpl. lia. }
  rewrite Hgt.
  eexists _, _. split; [exact HS |]. split; [reflexivity |].
  split.
  { simpl. rewrite lookup_insert_eq. f_equal. unfold with_LastUpdateIndex, with_StakedAmount.
    simpl. f_equal. lia. }
  split.
  { simpl. rewrite lookup_insert. 
    assert (Hback : with_TotalStaked (TotalStaked state + amount - amount) state1 = state).
    { destruct state. unfold with_TotalStaked, state1. simpl. f_equal. lia. }
    simpl in Hback. case_decide; [by rewrite Hback |].
    rewrite lookup_insert_eq. by rewrite Hback. }
  intros a. simpl.
  change (MockStateDB.GetBalance
            (MockStateDB.SetState (MockStateDB.SetState ?d _ _ _) _ _ _) a)
    with (MockStateDB.GetBalance d a).
  unfold transferSynthetic.
  rewrite GetBalance_transfer, !Hbal, !GetBalance_transfer.
  repeat case_decide; subst; try congruence;
    repeat (rewrite u256_idemp || rewrite u256_add_sub || rewrite u256_sub_add);
    try done.
Qed.

Lemma updateStakeUnclaimed_Unclaimed stake state :
  0 <= StakedAmount stake ->
  UnclaimedAmount (updateStakeUnclaimed stake state)
    = UnclaimedAmount stake + accrued stake state.
Proof.
  intros Hnn. unfold updateStakeUnclaimed, accrued. rewrite !Z.gtb_ltb.
  destruct (Z.eqb_spec (StakedAmount stake) 0) as [Hz | Hnz].
  - rewrite Hz. simpl. lia.
  - destruct (Z.ltb_spec 0 (StakedAmount stake)); [| lia].
    destruct (Z.leb_spec (ExchangeRate state - LastUpdateIndex stake) 0);
      destruct (Z.ltb_spec 0 (ExchangeRate state - LastUpdateIndex stake));
      try lia; simpl; [lia |].
    by destruct (_ >=? _).
Qed.

Lemma GetClaimable_found t db owner syntheticToken state t1 stake :
  states t !! syntheticToken = Some state ->
  getStake t db (stakeKey syntheticToken owner) = (t1, Some stake) ->
  GetClaimable t db owner syntheticToken =
    (t1, Z.min (UnclaimedAmount stake + accrued stake state) (ExchangeBuffer state)).
Proof.
  intros Hs Hg. unfold GetClaimable. rewrite Hs, Hg.
  unfold accrued. rewrite !Z.gtb_ltb.
  destruct (Z.ltb_spec 0 (StakedAmount stake)); simpl;
    [destruct (Z.ltb_spec 0 (ExchangeRate state - LastUpdateIndex stake)) |];
    simpl; rewrite ?Z.add_0_r;
    match goal with
    | |- context [ ?a <? ?b ] => destruct (Z.ltb_spec a b)
    end; f_equal; lia.
Qed.

(** The amount [Claim] returns, read off its two exits. *)
Lemma Claim_amount t db owner syntheticToken state t1 stake :
  states t !! syntheticToken = Some state ->
  getStake t db (stakeKey syntheticToken owner) = (t1, Some stake) ->
  0 <= ExchangeBuffer state ->
  (Claim t db owner syntheticToken).2 =
    Ok (Z.min (UnclaimedAmount (updateStakeUnclaimed stake state)) (ExchangeBuffer state)).
Proof.
  intros Hs Hg HB. unfold Claim. rewrite Hs, Hg.
  set (stake1 := updateStakeUnclaimed stake state).
  destruct (Z.eqb_spec (UnclaimedAmount stake1) 0) as [Hz | Hnz]; simpl.
  - f_equal. lia.
  - f_equal. rewrite Z.gtb_ltb.
    destruct (Z.ltb_spec (ExchangeBuffer state) (UnclaimedAmount stake1)); lia.
Qed.

(** X4.  The view predicts the call: for a stake with a non-negative principal
    and a non-negative buffer, [Claim] pays exactly what [GetClaimable]
    returns just before it. *)
Theorem Claim_pays_GetClaimable (t : Transmuter) (db : StateDB)
    (owner syntheticToken : Address) (state : TransmuterState)
    (t1 : Transmuter) (stake : TransmuterStake) :
  states t !! syntheticToken = Some state ->
  getStake t db (stakeKey syntheticToken owner) = (t1, Some stake) ->
  0 <= StakedAmount stake ->
  0 <= ExchangeBuffer state ->
  (Claim t db owner syntheticToken).2 = Ok (GetClaimable t db owner syntheticToken).2.
Proof.
  intros Hs Hg Hnn HB.
  rewrite (Claim_amount _ _ _ _ _ _ _ Hs Hg HB).
  rewrite (GetClaimable_found _ _ _ _ _ _ _ Hs Hg).
  by rewrite updateStakeUnclaimed_Unclaimed.
Qed.

Lemma updateStakeUnclaimed_settled stake state :
  settled_stake stake state -> updateStakeUnclaimed stake state = stake.
Proof.
  intros [Hz | Hle]; unfold updateStakeUnclaimed.
  - by rewrite Hz.
  - destruct (StakedAmount stake =? 0); [done |].
    by destruct (Z.leb_spec (ExchangeRate state - LastUpdateIndex stake) 0); [| lia].
Qed.

Lemma settled_updateStakeUnclaimed stake state :
  settled_stake (updateStakeUnclaimed stake state) state.
Proof.
  unfold updateStakeUnclaimed, settled_stake.
  destruct (Z.eqb_spec (StakedAmount stake) 0); [by left |].
  destruct (Z.leb_spec (ExchangeRate state - LastUpdateIndex stake) 0); [right; lia |].
  right. simpl. lia.
Qed.

Lemma set_stakes_insert_id t key stake :
  stakes t !! key = Some stake -> set_stakes (insert key stake) t = t.
Proof.
  intros Hk. destruct t as [st sk]. unfold set_stakes. simpl in *.
  by rewrite insert_id.
Qed.

(** [Claim] on a settled stake that has nothing pending, or whose token
    has an empty buffer: it pays 0 and leaves the stakes and the states as
    they are. *)
Lemma Claim_nothing t db owner syntheticToken state stake :
  states t !! syntheticToken = Some state ->
  states t !! SyntheticToken state = Some state ->
  stakes t !! stakeKey syntheticToken owner = Some stake ->
  settled_stake stake state ->
  UnclaimedAmount stake = 0 \/ (0 < UnclaimedAmount stake /\ ExchangeBuffer state = 0) ->
  exists t' db',
    Claim t db owner syntheticToken = (t', db', Ok 0) /\
    stakes t' = stakes t /\ states t' = states t /\
    (forall a, u256 (MockStateDB.GetBalance db' a) = u256 (MockStateDB.GetBalance db a)).
Proof.
  intros Hs Hs' Hk Hset Hcase.
  unfold Claim. rewrite Hs, (getStake_cached _ _ _ _ Hk).
  rewrite (updateStakeUnclaimed_settled _ _ Hset).
  rewrite (set_stakes_insert_id _ _ _ Hk).
  destruct Hcase as [Hz | [Hpos HB]].
  - rewrite Hz. simpl. by eexists _, _.
  - destruct (Z.eqb_spec (UnclaimedAmount stake) 0); [lia |].
    assert (Hgt : (UnclaimedAmount stake >? ExchangeBuffer state) = true)
      by (rewrite Z.gtb_ltb; apply Z.ltb_lt; lia).
    rewrite Hgt, HB, !Z.sub_0_r, with_UnclaimedAmount_id.
    assert (Hst : with_ExchangeBuffer 0 state = state).
    { rewrite <- HB. apply with_ExchangeBuffer_id. }
    rewrite Hst.
    eexists _, _. split; [reflexivity |]. simpl.
    split; [by rewrite insert_id |].
    split.
    { rewrite (insert_id (states t) syntheticToken state Hs). by rewrite insert_id. }
    intros a. unfold transferUnderlying.
    change (MockStateDB.GetBalance
              (MockStateDB.SetState (MockStateDB.SetState ?d _ _ _) _ _ _) a)
      with (MockStateDB.GetBalance d a).
    rewrite GetBalance_transfer.
    change (u256 0) with 0. rewrite !Z.sub_0_r, !Z.add_0_r.
    repeat case_decide; subst; rewrite ?u256_idemp; done.
Qed.

(** X5.  Claiming twice in a row: whatever the first [Claim] paid, the second
    pays 0 and changes no stake, no state and no balance. *)
Theorem Claim_twice (t : Transmuter) (db : StateDB) (owner syntheticToken : Address)
    (state : TransmuterState) (t1 : Transmuter) (stake : TransmuterStake) :
  states t !! syntheticToken = Some state ->
  getStake t db (stakeKey syntheticToken owner) = (t1, Some stake) ->
  0 <= ExchangeBuffer state ->
  exists t' db' paid t'' db'',
    Claim t db owner syntheticToken = (t', db', Ok paid) /\
    Claim t' db' owner syntheticToken = (t'', db'', Ok 0) /\
    stakes t'' = stakes t' /\ states t'' = states t' /\
    (forall a, u256 (MockStateDB.GetBalance db'' a) = u256 (MockStateDB.GetBalance db' a)).
Proof.
  intros Hs Hg HB.
  destruct (getStake_Some _ _ _ _ _ Hg) as (Hk1 & Hst1 & _).
  set (stake1 := updateStakeUnclaimed stake state).
  pose proof (settled_updateStakeUnclaimed stake state) as Hset. fold stake1 in Hset.
  destruct (Z.eq_dec (UnclaimedAmount stake1) 0) as [Hz | Hnz].
  - (* the first call returns before saving *)
    set (t' := set_stakes (insert (stakeKey syntheticToken owner) stake1) t1).
    assert (HC : Claim t db owner syntheticToken = (t', db, Ok 0)).
    { unfold Claim. rewrite Hs, Hg. fold stake1. by rewrite Hz. }
    assert (Hk' : stakes t' !! stakeKey syntheticToken owner = Some stake1)
      by (simpl; by rewrite lookup_insert_eq).
    assert (Hs' : states t' !! syntheticToken = Some state) by (simpl; by rewrite Hst1).
    exists t', db, 0.
    unfold Claim at 2. rewrite Hs', (getStake_cached _ _ _ _ Hk').
    rewrite (updateStakeUnclaimed_settled _ _ Hset), Hz. simpl.
    eexists _, _. split; [exact HC |]. split; [reflexivity |]. simpl.
    split; [by rewrite insert_insert_eq |]. done.
  - set (paid := if UnclaimedAmount stake1 >? ExchangeBuffer state
                 then ExchangeBuffer state else UnclaimedAmount stake1).
    set (stake2 := with_UnclaimedAmount (UnclaimedAmount stake1 - paid) stake1).
    set (state1 := with_ExchangeBuffer (ExchangeBuffer state - paid) state).
    destruct (Claim t db owner syntheticToken) as [[t' db'] r] eqn:HC.
    assert (HC' : r = Ok paid /\
                  stakes t' !! stakeKey syntheticToken owner = Some stake2 /\
                  states t' !! syntheticToken = Some state1 /\
                  states t' !! SyntheticToken state1 = Some state1).
    { unfold Claim in HC. rewrite Hs, Hg in HC. fold stake1 in HC.
      destruct (Z.eqb_spec (UnclaimedAmount stake1) 0); [done |].
      fold paid in HC. fold stake2 in HC. fold state1 in HC.
      injection HC as <- <- <-. simpl.
      rewrite !lookup_insert_eq. split; [done |]. split; [done |]. split; [| done].
      rewrite lookup_insert. case_decide; [done |]. by rewrite lookup_insert_eq. }
    destruct HC' as (-> & Hk' & Hs' & Hs'').
    assert (Hset2 : settled_stake stake2 state1).
    { destruct Hset as [Hz0 | Hle]; [by left | by right]. }
    assert (Hcase : UnclaimedAmount stake2 = 0 \/
                    (0 < UnclaimedAmount stake2 /\ ExchangeBuffer state1 = 0)).
    { subst stake2 state1 paid. simpl. rewrite Z.gtb_ltb.
      destruct (Z.ltb_spec (ExchangeBuffer state) (UnclaimedAmount stake1)); lia. }
    destruct (Claim_nothing t' db' owner syntheticToken state1 stake2 Hs' Hs'' Hk' Hset2 Hcase)
      as (t'' & db'' & HC2 & Hk2 & Hs2 & Hbal).
    exists t', db', paid, t'', db''. done.
Qed.

End TransmuterCalls.

Section TransmuterFailures.
Context `{Externals}.

Lemma getStake_states t db key :
  states (getStake t db key).1 = states t.
Proof.
  unfold getStake. destruct (stakes t !! key); [done |]. by case_decide.
Qed.

(** X6.  A failing call changes nothing in the state database and nothing in
    the registered states (at most, [Unstake] leaves in the cache the stake
    [getStake] loaded); and each error has one cause. *)
Theorem failed_calls_change_nothing (t : Transmuter) (db : StateDB)
    (owner syntheticToken : Address) (amount : Z) (underlyingAsset : Currency) :
  (forall t' db' e,
     InitializeTransmuter t db syntheticToken underlyingAsset = (t', db', Some e) ->
     t' = t /\ db' = db /\ e = ErrSyntheticNotRegistered /\
     is_Some (states t !! syntheticToken)) /\
  (forall t' db' e,
     Stake t db owner syntheticToken amount = (t', db', Some e) ->
     t' = t /\ db' = db /\
     (e = ErrSyntheticNotRegistered /\ states t !! syntheticToken = None \/
      e = ErrInvalidPositionSize /\ amount <= 0)) /\
  (forall t' db' e,
     Unstake t db owner syntheticToken amount = (t', db', Some e) ->
     states t' = states t /\ db' = db /\
     (e = ErrSyntheticNotRegistered /\ states t !! syntheticToken = None /\ t' = t \/
      e = ErrInvalidPositionSize /\
      t' = (getStake t db (stakeKey syntheticToken owner)).1 /\
      from_option StakedAmount 0 (getStake t db (stakeKey syntheticToken owner)).2 = 0)) /\
  (forall t' db' e,
     Claim t db owner syntheticToken = (t', db', Err e) ->
     t' = t /\ db' = db /\
     (e = ErrSyntheticNotRegistered /\ states t !! syntheticToken = None \/
      e = ErrTransmuterEmpty /\
      (getStake t db (stakeKey syntheticToken owner)).2 = None)) /\
  (forall t' db' e,
     Deposit t db syntheticToken amount = (t', db', Some e) ->
     t' = t /\ db' = db /\ e = ErrSyntheticNotRegistered /\
     states t !! syntheticToken = None).
Proof.
  repeat apply conj.
  - intros t' db' e. unfold InitializeTransmuter.
    destruct (states t !! syntheticToken) as [state |] eqn:Hs; [| discriminate].
    intros [= <- <- <-]. eauto.
  - intros t' db' e. unfold Stake.
    destruct (states t !! syntheticToken) as [state |] eqn:Hs.
    + destruct (Z.leb_spec amount 0).
      * intros [= <- <- <-]. auto.
      * destruct (getStake t db _) as [t1 found]. discriminate.
    + intros [= <- <- <-]. auto.
  - intros t' db' e. unfold Unstake.
    destruct (states t !! syntheticToken) as [state |] eqn:Hs.
    + pose proof (getStake_states t db (stakeKey syntheticToken owner)) as Hst.
      destruct (getStake t db _) as [t1 found]. simpl in *.
      destruct found as [stake |].
      * destruct (Z.eqb_spec (StakedAmount stake) 0); [| discriminate].
        intros [= <- <- <-]. auto 6.
      * intros [= <- <- <-]. auto 6.
    + intros [= <- <- <-]. auto 6.
  - intros t' db' e. unfold Claim.
    destruct (states t !! syntheticToken) as [state |] eqn:Hs.
    + destruct (getStake t db _) as [t1 found] eqn:Hg. simpl.
      destruct found as [stake |].
      * destruct (_ =? 0); discriminate.
      * intros [= <- <- <-]. apply getStake_None in Hg as [-> _]. auto.
    + intros [= <- <- <-]. auto.
  - intros t' db' e. unfold Deposit.
    destruct (states t !! syntheticToken) as [state |] eqn:Hs.
    + destruct (amount <=? 0); discriminate.
    + intros [= <- <- <-]. auto.
Qed.

End TransmuterFailures.

Section TransmuterFrame.
Context `{Externals}.

Lemma GetState_SetState_other (m : StateDB) (a a' : Address) (k k' v : Hash) :
  a' <> a ->
  MockStateDB.GetState (MockStateDB.SetState m a k v) a' k' = MockStateDB.GetState m a' k'.
Proof.
  intros Hne. unfold MockStateDB.GetState, MockStateDB.SetState. simpl.
  by rewrite lookup_insert_ne.
Qed.

Lemma db_frame_refl ps db : db_frame ps db db.
Proof. by repeat split. Qed.

Lemma db_frame_SetState ps db db' key value :
  db_frame ps db db' ->
  db_frame ps db (MockStateDB.SetState db' transmuterAddr key value).
Proof.
  intros (Hs & Hb & Hn & He). repeat split; try done.
  intros addr k Hne. rewrite GetState_SetState_other by done. by apply Hs.
Qed.

Lemma db_frame_transfer db from to amount :
  db_frame [from; to] db (transfer db from to amount).
Proof.
  repeat split; try done.
  intros a Ha. rewrite GetBalance_transfer.
  rewrite !decide_False; [done | |]; intros ->; apply Ha;
    [apply list_elem_of_here | apply list_elem_of_further, list_elem_of_here].
Qed.

Lemma elem_of_pair_swap (a b x : Address) : x ∈ [a; b] -> x ∈ [b; a].
Proof.
  intros Hx. apply elem_of_cons in Hx as [-> | Hx].
  - apply list_elem_of_further, list_elem_of_here.
  - apply list_elem_of_singleton in Hx as ->. apply list_elem_of_here.
Qed.

Lemma db_frame_perm ps ps' db db' :
  (forall a, a ∈ ps -> a ∈ ps') -> db_frame ps db db' -> db_frame ps' db db'.
Proof.
  intros Hsub (Hs & Hb & Hn & He). repeat split; try done.
  intros a Ha. apply Hb. intros Hin. by apply Ha, Hsub.
Qed.

(** X7.  No call of the transmuter touches storage outside its own address, the
    block number or the account set, and none moves a balance other than
    the caller's and the transmuter's; [InitializeTransmuter], [Deposit]
    and the views move no balance at all. *)
Theorem step_frame (op : Op) (w : Transmuter * StateDB) :
  (forall addr key, addr <> transmuterAddr ->
     MockStateDB.GetState (step op w).2 addr key = MockStateDB.GetState w.2 addr key) /\
  (forall a, a ∉ parties op ->
     MockStateDB.GetBalance (step op w).2 a = MockStateDB.GetBalance w.2 a) /\
  MockStateDB.GetBlockNumber (step op w).2 = MockStateDB.GetBlockNumber w.2 /\
  (forall a, MockStateDB.Exist (step op w).2 a = MockStateDB.Exist w.2 a).
Proof.
  change (db_frame (parties op) w.2 (step op w).2).
  destruct w as [t db]. destruct op as [s u | o s a | o s a | o s | s a | o s | o s];
    cbn [step parties fst snd].
  - unfold InitializeTransmuter. destruct (states t !! s); [apply db_frame_refl |].
    simpl. apply db_frame_SetState, db_frame_refl.
  - unfold Stake. destruct (states t !! s); [| apply db_frame_refl].
    destruct (a <=? 0); [apply db_frame_refl |].
    destruct (getStake t db _) as [t1 found]. simpl.
    do 2 apply db_frame_SetState. apply db_frame_transfer.
  - unfold Unstake. destruct (states t !! s); [| apply db_frame_refl].
    destruct (getStake t db _) as [t1 [stake |]]; [| apply db_frame_refl].
    destruct (_ =? 0); [apply db_frame_refl |]. simpl.
    do 2 apply db_frame_SetState.
    eapply db_frame_perm; [apply elem_of_pair_swap | apply db_frame_transfer].
  - unfold Claim. destruct (states t !! s); [| apply db_frame_refl].
    destruct (getStake t db _) as [t1 [stake |]]; [| apply db_frame_refl].
    destruct (_ =? 0); [apply db_frame_refl |]. simpl.
    do 2 apply db_frame_SetState.
    eapply db_frame_perm; [apply elem_of_pair_swap | apply db_frame_transfer].
  - unfold Deposit. destruct (states t !! s); [| apply db_frame_refl].
    destruct (a <=? 0); [apply db_frame_refl |]. simpl.
    apply db_frame_SetState, db_frame_refl.
  - apply db_frame_refl.
  - apply db_frame_refl.
Qed.

End TransmuterFrame.

Section TransmuterRate.
Context `{Externals}.

Lemma state_grows_refl st : state_grows st st.
Proof. by repeat split. Qed.

Lemma state_grows_trans a b c : state_grows a b -> state_grows b c -> state_grows a c.
Proof.
  intros (? & ? & ?) (? & ? & ?). repeat split; [congruence | congruence | lia].
Qed.

Lemma keyed_same t t' :
  states_keyed t -> states t' = states t -> keyed_step t t'.
Proof.
  intros HK Heq. split.
  - intros s st. rewrite Heq. apply HK.
  - intros s st Hs. exists st. rewrite Heq. split; [done | apply state_grows_refl].
Qed.

Lemma keyed_update t t' s old new :
  states_keyed t -> states t !! s = Some old -> state_grows old new ->
  states t' = <[SyntheticToken old := new]> (<[s := new]> (states t)) ->
  keyed_step t t'.
Proof.
  intros HK Hs Hg Heq.
  destruct (HK _ _ Hs) as [Hkey Hrate]. destruct Hg as (Htok & Hund & Hle).
  rewrite Hkey, insert_insert_eq in Heq.
  split.
  - intros s' st'. rewrite Heq, lookup_insert. case_decide as Hd.
    + intros [= <-]. subst s'. split; [congruence | lia].
    + apply HK.
  - intros s' st' Hs'. rewrite Heq, lookup_insert. case_decide as Hd.
    + subst s'. exists new. split; [done |].
      assert (st' = old) as -> by congruence. by repeat split.
    + exists st'. split; [done | apply state_grows_refl].
Qed.

Lemma keyed_register t t' s new :
  states_keyed t -> states t !! s = None ->
  SyntheticToken new = s -> Q96 <= ExchangeRate new ->
  states t' = <[SyntheticToken new := new]> (<[s := new]> (states t)) ->
  keyed_step t t'.
Proof.
  intros HK Hs Htok Hrate Heq. rewrite Htok, insert_insert_eq in Heq.
  split.
  - intros s' st'. rewrite Heq, lookup_insert. case_decide as Hd.
    + intros [= <-]. by subst s'.
    + apply HK.
  - intros s' st' Hs'. rewrite Heq, lookup_insert. case_decide as Hd.
    + subst s'. congruence.
    + exists st'. split; [done | apply state_grows_refl].
Qed.

Lemma step_states op w :
  states_keyed w.1 -> keyed_step w.1 (step op w).1.
Proof.
  destruct w as [t db]. cbn [fst]. intros HK.
  destruct op as [s u | o s a | o s a | o s | s a | o s | o s]; cbn [step fst snd].
  - unfold InitializeTransmuter. destruct (states t !! s) eqn:Hs; [by apply keyed_same |].
    eapply (keyed_register _ _ s); [done | done | | | reflexivity]; simpl; [done | lia].
  - unfold Stake. destruct (states t !! s) as [state |] eqn:Hs; [| by apply keyed_same].
    destruct (a <=? 0); [by apply keyed_same |].
    pose proof (getStake_states t db (stakeKey s o)) as Hst.
    destruct (getStake t db _) as [t1 found]. simpl in Hst.
    eapply (keyed_update _ _ s state); [done | done | | simpl; by rewrite Hst].
    by repeat split.
  - unfold Unstake. destruct (states t !! s) as [state |] eqn:Hs; [| by apply keyed_same].
    pose proof (getStake_states t db (stakeKey s o)) as Hst.
    destruct (getStake t db _) as [t1 [stake |]]; simpl in Hst; [| by apply keyed_same].
    destruct (_ =? 0); [by apply keyed_same |].
    eapply (keyed_update _ _ s state); [done | done | | simpl; by rewrite Hst].
    by repeat split.
  - unfold Claim. destruct (states t !! s) as [state |] eqn:Hs; [| by apply keyed_same].
    pose proof (getStake_states t db (stakeKey s o)) as Hst.
    destruct (getStake t db _) as [t1 [stake |]]; simpl in Hst; [| by apply keyed_same].
    destruct (_ =? 0); [by apply keyed_same |].
    eapply (keyed_update _ _ s state); [done | done | | simpl; by rewrite Hst].
    by repeat split.
  - unfold Deposit. destruct (states t !! s) as [state |] eqn:Hs; [| by apply keyed_same].
    destruct (Z.leb_spec a 0); [by apply keyed_same |].
    cbn [TotalStaked with_ExchangeBuffer]. rewrite Z.gtb_ltb.
    destruct (Z.ltb_spec 0 (TotalStaked state)).
    + eapply (keyed_update _ _ s state); [done | done | | simpl; reflexivity].
      repeat split. simpl.
      pose proof Q96_pos. assert (0 <= a * Q96 / TotalStaked state); [| lia].
      apply Z.div_pos; nia.
    + eapply (keyed_update _ _ s state); [done | done | | simpl; reflexivity].
      by repeat split.
  - apply keyed_same; [done | apply getStake_states].
  - apply keyed_same; [done |]. unfold GetClaimable.
    destruct (states t !! s); [| done].
    pose proof (getStake_states t db (stakeKey s o)) as Hst.
    destruct (getStake t db _) as [t1 [stake |]]; simpl in *; [| done].
    by destruct (_ >? _).
Qed.

Lemma run_states ops : forall w,
  states_keyed w.1 -> keyed_step w.1 (run ops w).1.
Proof.
  induction ops as [| op ops IH]; intros w HK.
  - by apply keyed_same.
  - simpl. destruct (step_states op w HK) as [HK1 H1].
    destruct (IH (step op w) HK1) as [HK2 H2].
    split; [done |].
    intros s st Hs. destruct (H1 _ _ Hs) as (st1 & Hs1 & Hg1).
    destruct (H2 _ _ Hs1) as (st2 & Hs2 & Hg2).
    exists st2. split; [done |]. by eapply state_grows_trans.
Qed.

(** X8.  From a fresh transmuter, along any sequence of calls: a registered
    token stays registered, under its own key and with the underlying asset
    it was registered with, and its exchange rate starts at [Q96] and never
    goes down. *)
Theorem rate_never_decreases (ops ops' : list Op) (db0 : StateDB)
    (s : Address) (state : TransmuterState) :
  states (run ops (NewTransmuter, db0)).1 !! s = Some state ->
  SyntheticToken state = s /\
  Q96 <= ExchangeRate state /\
  exists state',
    states (run ops' (run ops (NewTransmuter, db0))).1 !! s = Some state' /\
    UnderlyingAsset state' = UnderlyingAsset state /\
    ExchangeRate state <= ExchangeRate state' /\
    GetExchangeRate (run ops' (run ops (NewTransmuter, db0))).1 s = ExchangeRate state'.
Proof.
  intros Hs.
  assert (HK0 : states_keyed (NewTransmuter, db0).1).
  { intros s0 st0 H0. simpl in H0. by rewrite lookup_empty in H0. }
  destruct (run_states ops _ HK0) as [HK1 _].
  destruct (HK1 _ _ Hs) as [Hkey Hrate].
  split; [done |]. split; [done |].
  destruct (run_states ops' _ HK1) as [_ H2].
  destruct (H2 _ _ Hs) as (st' & Hs' & _ & Hund & Hle).
  exists st'. unfold GetExchangeRate. rewrite Hs'. done.
Qed.

End TransmuterRate.

Section TransmuterDeposit.
Context `{Externals}.

(** X9.  [Deposit] of a positive amount books it in the buffer and moves no
    token: no balance and no stake changes, [TotalStaked] stays, and the
    rate rises by [amount * Q96 / TotalStaked] when something is staked and
    stays put when nothing is. *)
Theorem Deposit_books_amount (t : Transmuter) (db : StateDB)
    (syntheticToken : Address) (underlyingAmount : Z) (state : TransmuterState) :
  states t !! syntheticToken = Some state ->
  0 < underlyingAmount ->
  exists t' db' state',
    Deposit t db syntheticToken underlyingAmount = (t', db', None) /\
    states t' !! syntheticToken = Some state' /\
    ExchangeBuffer state' = ExchangeBuffer state + underlyingAmount /\
    TotalStaked state' = TotalStaked state /\
    ExchangeRate state' =
      (if decide (0 < TotalStaked state)
       then ExchangeRate state + underlyingAmount * Q96 / TotalStaked state
       else ExchangeRate state) /\
    stakes t' = stakes t /\
    (forall a, MockStateDB.GetBalance db' a = MockStateDB.GetBalance db a).
Proof.
  intros Hs Hpos. unfold Deposit. rewrite Hs.
  destruct (Z.leb_spec underlyingAmount 0); [lia |].
  cbn [TotalStaked with_ExchangeBuffer]. rewrite Z.gtb_ltb.
  destruct (Z.ltb_spec 0 (TotalStaked state)) as [HT | HT].
  - eexists _, _, _. split; [reflexivity |]. simpl.
    split.
    { rewrite lookup_insert. case_decide; [done |]. by rewrite lookup_insert_eq. }
    rewrite decide_True by done. done.
  - eexists _, _, _. split; [reflexivity |]. simpl.
    split.
    { rewrite lookup_insert. case_decide; [done |]. by rewrite lookup_insert_eq. }
    rewrite decide_False by lia. done.
Qed.

End TransmuterDeposit.

Section TransmuterSolvency.
Context `{Externals}.

Hypothesis blake3_inj : forall x y, blake3_256 x = blake3_256 y -> x = y.
Hypothesis stake_slot_inj : forall k k',
  makeStorageKey transmuterStakePrefix k = makeStorageKey transmuterStakePrefix k' -> k = k'.
Hypothesis state_slot_sep : forall a k,
  makeStorageKey transmuterStatePrefix a <> makeStorageKey transmuterStakePrefix k.




End TransmuterSolvency.

(** ** The state database of the tests *)

(** X12.  Storage of [MockStateDB] is a map from (address, key) to a hash that
    reads as the zero hash where nothing was written: [GetState] after
    [SetState] returns the value written at that slot and the old value at
    every other slot, and [SetState] touches no balance, account or block
    number. *)
Theorem MockStateDB_storage (m : StateDB) (addr addr' : Address) (key key' value : Hash) :
  MockStateDB.GetState MockStateDB.NewMockStateDB addr key = zeroHash /\
  MockStateDB.GetState (MockStateDB.SetState m addr key value) addr' key' =
    (if decide (addr' = addr /\ key' = key) then value
     else MockStateDB.GetState m addr' key') /\
  MockStateDB.GetBalance (MockStateDB.SetState m addr key value) addr'
    = MockStateDB.GetBalance m addr' /\
  MockStateDB.Exist (MockStateDB.SetState m addr key value) addr'
    = MockStateDB.Exist m addr' /\
  MockStateDB.GetBlockNumber (MockStateDB.SetState m addr key value)
    = MockStateDB.GetBlockNumber m.
Proof.
  split; [reflexivity |]. split; [| done].
  case_decide as Hd.
  - destruct Hd as [-> ->]. apply GetState_SetState.
  - unfold MockStateDB.GetState, MockStateDB.SetState. simpl.
    destruct (decide (addr' = addr)) as [-> | Hne].
    + rewrite lookup_insert_eq.
      assert (key' <> key) as Hk by (intros ->; by apply Hd).
      rewrite lookup_insert_ne by done.
      by destruct (MockStateDB.states m !! addr).
    + by rewrite lookup_insert_ne.
Qed.

(** X13.  [transferSynthetic] and [transferUnderlying] over [MockStateDB]: the
    two balances are 256-bit numbers afterwards and their sum is the old sum
    modulo [2^256]; the sender's balance is not checked, and a sender with
    too little wraps around instead of failing. *)
Theorem transfer_wraps (db : StateDB) (token from to : Address) (amount : Z) :
  from <> to ->
  let db' := transferSynthetic db token from to amount in
  db' = transferUnderlying db (mkCurrency token) from to amount /\
  MockStateDB.GetBalance db' from = u256 (MockStateDB.GetBalance db from - amount) /\
  MockStateDB.GetBalance db' to = u256 (MockStateDB.GetBalance db to + amount) /\
  u256 (MockStateDB.GetBalance db' from + MockStateDB.GetBalance db' to)
    = u256 (MockStateDB.GetBalance db from + MockStateDB.GetBalance db to) /\
  (0 <= MockStateDB.GetBalance db from < amount -> amount <= 2 ^ 256 ->
     MockStateDB.GetBalance db' from = MockStateDB.GetBalance db from + 2 ^ 256 - amount).
Proof.
  intros Hne db'. subst db'. unfold transferSynthetic, transferUnderlying.
  split; [done |].
  rewrite !GetBalance_transfer.
  rewrite (decide_False (P := to = from)) by congruence.
  rewrite (decide_True (P := from = from)) by done.
  rewrite (decide_True (P := to = to)) by done.
  rewrite (decide_False (P := from = to)) by done.
  assert (Hsub : forall b, u256 (b - u256 amount) = u256 (b - amount)).
  { intros b. unfold u256. by rewrite Zminus_mod_idemp_r. }
  assert (Hadd : forall b, u256 (b + u256 amount) = u256 (b + amount)).
  { intros b. unfold u256. by rewrite Zplus_mod_idemp_r. }
  rewrite Hsub, Hadd.
  split; [done |]. split; [done |]. split.
  - unfold u256. rewrite <- Zplus_mod. f_equal. lia.
  - intros Hb Ha. unfold u256.
    replace (MockStateDB.GetBalance db from - amount)
      with (MockStateDB.GetBalance db from + 2 ^ 256 - amount + (-1) * 2 ^ 256) by lia.
    rewrite Z.mod_add by lia. apply Z.mod_small. lia.
Qed.

(** ** The calls at the states of the package's tests *)

Lemma InitializeTransmuter_once_witness :
  exists t' db',
    @InitializeTransmuter idealExternals NewTransmuter MockStateDB.NewMockStateDB
      testSyntheticToken testUnderlying = (t', db', None) /\
    @InitializeTransmuter idealExternals t' db' testSyntheticToken testUnderlying
      = (t', db', Some ErrSyntheticNotRegistered).
Proof.
  destruct (@InitializeTransmuter_once idealExternals NewTransmuter
              MockStateDB.NewMockStateDB testSyntheticToken testUnderlying)
    as (t' & db' & Hi & _ & _ & _ & _ & _ & Hagain).
  - reflexivity.
  - exists t', db'. split; [exact Hi | apply Hagain].
Defined.


Lemma Stake_Unstake_roundtrip_witness :
  exists t1 db1 t2 db2,
    @Stake idealExternals world_deposited.1 world_deposited.2 testUser1
      testSyntheticToken (10 * e18) = (t1, db1, None) /\
    @Unstake idealExternals t1 db1 testUser1 testSyntheticToken (10 * e18)
      = (t2, db2, None) /\
    states t2 !! testSyntheticToken = Some state_deposited.
Proof.
  destruct (@Stake_Unstake_roundtrip idealExternals world_deposited.1 world_deposited.2
              testUser1 testSyntheticToken (10 * e18) state_deposited)
    as (t1 & db1 & t2 & db2 & HS & HU & _ & Hs & _).
  - vm_compute. reflexivity.
  - vm_compute. discriminate.
  - reflexivity.
  - exists t1, db1, t2, db2. split; [exact HS |]. split; [exact HU | exact Hs].
Defined.

Lemma Claim_pays_GetClaimable_witness :
  (@Claim idealExternals world_deposited.1 world_deposited.2
     testUser2 testSyntheticToken).2
  = Ok (@GetClaimable idealExternals world_deposited.1 world_deposited.2
          testUser2 testSyntheticToken).2.
Proof.
  apply (@Claim_pays_GetClaimable idealExternals world_deposited.1 world_deposited.2
           testUser2 testSyntheticToken state_deposited world_deposited.1
           (stake_of testUser2 (200 * e18))).
  - vm_compute. reflexivity.
  - apply (@getStake_cached idealExternals). vm_compute. reflexivity.
  - vm_compute. discriminate.
  - vm_compute. discriminate.
Defined.

Lemma Claim_twice_witness :
  exists t' db' paid t'' db'',
    @Claim idealExternals world_deposited.1 world_deposited.2
      testUser1 testSyntheticToken = (t', db', Ok paid) /\
    @Claim idealExternals t' db' testUser1 testSyntheticToken = (t'', db'', Ok 0).
Proof.
  destruct (@Claim_twice idealExternals world_deposited.1 world_deposited.2
              testUser1 testSyntheticToken state_deposited world_deposited.1
              (stake_of testUser1 (100 * e18)))
    as (t' & db' & paid & t'' & db'' & H1 & H2 & _).
  - vm_compute. reflexivity.
  - apply (@getStake_cached idealExternals). vm_compute. reflexivity.
  - vm_compute. discriminate.
  - exists t', db', paid, t'', db''. split; [exact H1 | exact H2].
Defined.

Lemma Deposit_books_amount_witness :
  exists t' db' state',
    @Deposit idealExternals world_staked.1 world_staked.2 testSyntheticToken (150 * e18)
      = (t', db', None) /\
    states t' !! testSyntheticToken = Some state' /\
    ExchangeBuffer state' = 150 * e18.
Proof.
  destruct (@Deposit_books_amount idealExternals world_staked.1 world_staked.2
              testSyntheticToken (150 * e18) state_staked)
    as (t' & db' & state' & HD & Hs & HB & _).
  - vm_compute. reflexivity.
  - reflexivity.
  - exists t', db', state'. split; [exact HD |]. split; [exact Hs | exact HB].
Defined.

Lemma rate_never_decreases_witness :
  exists state',
    states (@run idealExternals [] world_deposited).1 !! testSyntheticToken = Some state' /\
    ExchangeRate state_deposited <= ExchangeRate state'.
Proof.
  destruct (@rate_never_decreases idealExternals (take 4 test_ops) []
              MockStateDB.NewMockStateDB testSyntheticToken state_deposited)
    as (_ & _ & state' & Hs & _ & Hle & _).
  - vm_compute. reflexivity.
  - exists state'. split; [exact Hs | exact Hle].
Defined.



Lemma transfer_wraps_witness :
  MockStateDB.GetBalance
    (transferSynthetic MockStateDB.NewMockStateDB testSyntheticToken
       testUser1 testUser2 1) testUser1
  = 2 ^ 256 - 1.
Proof.
  destruct (transfer_wraps MockStateDB.NewMockStateDB testSyntheticToken
              testUser1 testUser2 1) as (_ & _ & _ & _ & Hw).
  - discriminate.
  - rewrite Hw; [reflexivity | vm_compute; split; [discriminate | reflexivity]
                 | vm_compute; discriminate].
Defined.

(* ===================================================================== *)
(** * NVTrust attestation quotes *)
(* ===================================================================== *)

(** ** Big-endian fields *)

Lemma Z_of_byte_range (b : byte) : 0 <= Z_of_byte b < 256.
Proof.
  unfold Z_of_byte. pose proof (Byte.to_N_bounded b) as Hb. lia.
Qed.

Lemma byte_of_Z_of_byte (b : byte) : byte_of_Z (Z_of_byte b) = b.
Proof.
  unfold byte_of_Z. rewrite Z.mod_small by apply Z_of_byte_range.
  unfold Z_of_byte. by rewrite N2Z.id, Byte.of_to_N.
Qed.

Lemma SetBytes_snoc (l : list byte) (b : byte) :
  SetBytes (l ++ [b]) = SetBytes l * 256 + Z_of_byte b.
Proof. unfold SetBytes. by rewrite fold_left_app. Qed.

Lemma SetBytes_range (l : list byte) : 0 <= SetBytes l < 256 ^ Z.of_nat (length l).
Proof.
  induction l as [| b l IH] using rev_ind; [by vm_compute |].
  rewrite SetBytes_snoc, length_app, Nat2Z.inj_add, Z.pow_add_r by lia.
  pose proof (Z_of_byte_range b). simpl length. change (256 ^ Z.of_nat 1) with 256. nia.
Qed.

Lemma put_be_snoc (w : nat) (n : Z) :
  put_be (S w) n = put_be w (n / 256) ++ [byte_of_Z n].
Proof.
  revert n. induction w as [| w IH]; intros n.
  - simpl. by rewrite Z.div_1_r.
  - change (put_be (S (S w)) n) with (byte_of_Z (n / 256 ^ Z.of_nat (S w)) :: put_be (S w) n).
    rewrite IH. cbn [put_be app]. f_equal.
    rewrite Z.div_div by (try apply Z.pow_pos_nonneg; lia).
    rewrite (Nat2Z.inj_succ w), Z.pow_succ_r by lia. done.
Qed.

(** Writing back what was read from a field gives the field. *)
Lemma put_be_SetBytes (l : list byte) : put_be (length l) (SetBytes l) = l.
Proof.
  induction l as [| b l IH] using rev_ind; [done |].
  rewrite length_app, Nat.add_comm. cbn [length Nat.add].
  rewrite put_be_snoc, SetBytes_snoc.
  pose proof (Z_of_byte_range b).
  replace ((SetBytes l * 256 + Z_of_byte b) / 256) with (SetBytes l)
    by (rewrite Z.div_add_l, Z.div_small by lia; lia).
  rewrite IH. f_equal. f_equal.
  unfold byte_of_Z. rewrite Z.add_comm, Z.mod_add by lia.
  fold (byte_of_Z (Z_of_byte b)). apply byte_of_Z_of_byte.
Qed.

(** ** Slices of a byte string laid out field after field *)

Lemma slice_at (data pre field rest : list byte) (lo hi : nat) :
  data = pre ++ field ++ rest ->
  lo = length pre -> hi = (lo + length field)%nat ->
  NVTrust.slice data lo hi = field.
Proof.
  intros -> -> ->. unfold NVTrust.slice.
  rewrite drop_app_length. replace (length pre + length field - length pre)%nat
    with (length field) by lia.
  by rewrite take_app_length.
Qed.

Lemma lookup_at (data pre rest : list byte) (b : byte) (i : nat) :
  data = pre ++ b :: rest -> i = length pre -> data !! i = Some b.
Proof. intros -> ->. by rewrite list_lookup_middle. Qed.

Lemma drop_at (data pre rest : list byte) (lo : nat) :
  data = pre ++ rest -> lo = length pre -> drop lo data = rest.
Proof. intros -> ->. by rewrite drop_app_length. Qed.

Lemma bytes32_vec (v : vec byte 32) : NVTrust.bytes32 (vec_to_list v) = v.
Proof.
  unfold NVTrust.bytes32. apply vec_eq. intros i. rewrite lookup_fun_to_vec.
  by rewrite (proj1 (vlookup_lookup v i (v !!! i)) eq_refl).
Qed.

Lemma vec_bytes32 (l : list byte) :
  length l = 32%nat -> vec_to_list (NVTrust.bytes32 l) = l.
Proof.
  intros Hl. apply list_eq. intros i.
  destruct (decide (i < 32)%nat) as [Hi | Hi].
  - destruct (lookup_lt_is_Some_2 l i ltac:(lia)) as [y Hy].
    rewrite Hy. rewrite <- (fin_to_nat_to_fin _ _ Hi).
    apply vlookup_lookup. unfold NVTrust.bytes32.
    by rewrite lookup_fun_to_vec, fin_to_nat_to_fin, Hy.
  - rewrite !lookup_ge_None_2; [done | lia | rewrite length_vec_to_list; lia].
Qed.

Lemma copy_fresh (n : nat) (src : list byte) :
  length src = n -> copy (replicate n x00) src = src.
Proof.
  intros Hn. unfold copy. rewrite length_replicate.
  rewrite take_ge by lia. rewrite drop_ge by (rewrite length_replicate; lia).
  by rewrite app_nil_r.
Qed.

(** ** [SerializeQuote] and [ParseNVTrustQuote] *)

Section NVTrustQuotes.
Import NVTrust.

Lemma write_at_fill (pre src : list byte) (n offset : nat) :
  offset = length pre -> (length src <= n)%nat ->
  write_at (pre ++ replicate n x00) offset src
  = (pre ++ src) ++ replicate (n - length src) x00.
Proof.
  intros -> Hn. unfold write_at, copy.
  rewrite take_app_length, drop_app_length, length_replicate.
  rewrite take_ge by lia. rewrite drop_replicate. by rewrite <- app_assoc.
Qed.

Lemma insert_fill (pre : list byte) (n offset : nat) (b : byte) :
  offset = length pre -> (0 < n)%nat ->
  <[offset := b]> (pre ++ replicate n x00) = (pre ++ [b]) ++ replicate (n - 1) x00.
Proof.
  intros -> Hn. destruct n as [| n]; [lia |].
  rewrite insert_app_r_alt by lia. rewrite Nat.sub_diag. simpl.
  by rewrite Nat.sub_0_r, <- app_assoc.
Qed.

Ltac lens :=
  rewrite ?length_app, ?put_be_length, ?length_vec_to_list, ?length_replicate;
  cbn [length]; unfold NVTrustHeaderSize; lia.

(** The bytes [SerializeQuote] produces, field after field: the buffer it
    allocates is filled exactly. *)
Lemma SerializeQuote_layout (q : NVTrustQuote) :
  SerializeQuote q =
    put_be 2 (Version q) ++ [QuoteType q] ++ [Reserved q]
    ++ put_be 4 (Length q) ++ put_be 8 (Timestamp q)
    ++ vec_to_list (DeviceID q) ++ vec_to_list (FirmwareHash q)
    ++ vec_to_list (DriverHash q) ++ vec_to_list (Nonce q)
    ++ put_be 2 (flagsOf q)
    ++ put_be 2 (Z.of_nat (length (GPUModel q))) ++ GPUModel q
    ++ put_be 2 (Z.of_nat (length (DriverVersion q))) ++ DriverVersion q
    ++ put_be 4 (Z.of_nat (length (CertChain q))) ++ CertChain q
    ++ Signature q.
Proof.
  unfold SerializeQuote. cbv zeta.
  match goal with
  | |- context [replicate ?n x00] =>
      change (replicate n x00) with ([] ++ replicate n x00)
  end.
  rewrite write_at_fill by lens.
  rewrite insert_fill by lens.
  rewrite insert_fill by lens.
  do 13 (rewrite write_at_fill by lens).
  rewrite write_at_fill by lens.
  match goal with
  | |- _ ++ replicate ?n x00 = _ =>
      replace n with 0%nat by lens
  end.
  simpl replicate. rewrite app_nil_r, <- !app_assoc. reflexivity.
Qed.

Lemma SerializeQuote_length (q : NVTrustQuote) :
  length (SerializeQuote q) =
    (154 + length (GPUModel q) + length (DriverVersion q)
     + length (CertChain q) + length (Signature q))%nat.
Proof. rewrite SerializeQuote_layout. lens. Qed.

End NVTrustQuotes.

Section NVTrustParse.
Import NVTrust.

(** What [ParseNVTrustQuote] reads from a byte string laid out field after
    field, with a supported version and quote type. *)
Lemma Parse_fields (h2 : list byte) (qt rs : byte)
    (l4 t8 d f dr n fl ml model dl driver cl cert sig : list byte) :
  length h2 = 2%nat -> length l4 = 4%nat -> length t8 = 8%nat ->
  length d = 32%nat -> length f = 32%nat -> length dr = 32%nat -> length n = 32%nat ->
  length fl = 2%nat ->
  length ml = 2%nat -> Z.to_nat (SetBytes ml) = length model ->
  length dl = 2%nat -> Z.to_nat (SetBytes dl) = length driver ->
  length cl = 4%nat -> Z.to_nat (SetBytes cl) = length cert ->
  1 <= SetBytes h2 <= 2 ->
  qt = QuoteTypeLocal \/ qt = QuoteTypeSoftware ->
  ParseNVTrustQuote
    (h2 ++ [qt] ++ [rs] ++ l4 ++ t8 ++ d ++ f ++ dr ++ n ++ fl
     ++ ml ++ model ++ dl ++ driver ++ cl ++ cert ++ sig)
  = inl {| Version := SetBytes h2; QuoteType := qt; Reserved := rs;
           Length := SetBytes l4; Timestamp := SetBytes t8;
           DeviceID := bytes32 d; FirmwareHash := bytes32 f;
           DriverHash := bytes32 dr; Nonce := bytes32 n;
           CCEnabled := negb (Z.land (SetBytes fl) 1 =? 0);
           TEEIOEnabled := negb (Z.land (SetBytes fl) 2 =? 0);
           CertChain := cert; Signature := sig;
           GPUModel := model; DriverVersion := driver |}.
Proof.
  intros Hh2 Hl4 Ht8 Hd Hf Hdr Hn Hfl Hml Hmodel Hdl Hdriver Hcl Hcert Hver Hqt.
  remember (h2 ++ [qt] ++ [rs] ++ l4 ++ t8 ++ d ++ f ++ dr ++ n ++ fl
            ++ ml ++ model ++ dl ++ driver ++ cl ++ cert ++ sig) as data eqn:Hdata.
  assert (Hlen : length data =
                 (154 + length model + length driver + length cert + length sig)%nat).
  { rewrite Hdata, !length_app. cbn [length]. lia. }
  (* the prefixes of the layout, their lengths, and what follows each *)
  pose (P0 := @nil byte).
  assert (E0 : P0 ++ h2 ++ [qt] ++ [rs] ++ l4 ++ t8 ++ d ++ f ++ dr ++ n ++ fl ++ ml ++ model ++ dl ++ driver ++ cl ++ cert ++ sig = data) by exact (eq_sym Hdata).
  assert (L0 : length P0 = 0%nat) by reflexivity.
  pose (P1 := P0 ++ h2).
  assert (E1 : P1 ++ [qt] ++ [rs] ++ l4 ++ t8 ++ d ++ f ++ dr ++ n ++ fl ++ ml ++ model ++ dl ++ driver ++ cl ++ cert ++ sig = data)
    by exact (eq_trans (eq_sym (app_assoc P0 (h2) ([qt] ++ [rs] ++ l4 ++ t8 ++ d ++ f ++ dr ++ n ++ fl ++ ml ++ model ++ dl ++ driver ++ cl ++ cert ++ sig))) E0).
  assert (L1 : length P1 = (length P0 + length (h2))%nat) by apply length_app.
  pose (P2 := P1 ++ [qt]).
  assert (E2 : P2 ++ [rs] ++ l4 ++ t8 ++ d ++ f ++ dr ++ n ++ fl ++ ml ++ model ++ dl ++ driver ++ cl ++ cert ++ sig = data)
    by exact (eq_trans (eq_sym (app_assoc P1 ([qt]) ([rs] ++ l4 ++ t8 ++ d ++ f ++ dr ++ n ++ fl ++ ml ++ model ++ dl ++ driver ++ cl ++ cert ++ sig))) E1).
  assert (L2 : length P2 = (length P1 + length ([qt]))%nat) by apply length_app.
  pose (P3 := P2 ++ [rs]).
  assert (E3 : P3 ++ l4 ++ t8 ++ d ++ f ++ dr ++ n ++ fl ++ ml ++ model ++ dl ++ driver ++ cl ++ cert ++ sig = data)
    by exact (eq_trans (eq_sym (app_assoc P2 ([rs]) (l4 ++ t8 ++ d ++ f ++ dr ++ n ++ fl ++ ml ++ model ++ dl ++ driver ++ cl ++ cert ++ sig))) E2).
  assert (L3 : length P3 = (length P2 + length ([rs]))%nat) by apply length_app.
  pose (P4 := P3 ++ l4).
  assert (E4 : P4 ++ t8 ++ d ++ f ++ dr ++ n ++ fl ++ ml ++ model ++ dl ++ driver ++ cl ++ cert ++ sig = data)
    by exact (eq_trans (eq_sym (app_assoc P3 (l4) (t8 ++ d ++ f ++ dr ++ n ++ fl ++ ml ++ model ++ dl ++ driver ++ cl ++ cert ++ sig))) E3).
  assert (L4 : length P4 = (length P3 + length (l4))%nat) by apply length_app.
  pose (P5 := P4 ++ t8).
  assert (E5 : P5 ++ d ++ f ++ dr ++ n ++ fl ++ ml ++ model ++ dl ++ driver ++ cl ++ cert ++ sig = data)
    by exact (eq_trans (eq_sym (app_assoc P4 (t8) (d ++ f ++ dr ++ n ++ fl ++ ml ++ model ++ dl ++ driver ++ cl ++ cert ++ sig))) E4).
  assert (L5 : length P5 = (length P4 + length (t8))%nat) by apply length_app.
  pose (P6 := P5 ++ d).
  assert (E6 : P6 ++ f ++ dr ++ n ++ fl ++ ml ++ model ++ dl ++ driver ++ cl ++ cert ++ sig = data)
    by exact (eq_trans (eq_sym (app_assoc P5 (d) (f ++ dr ++ n ++ fl ++ ml ++ model ++ dl ++ driver ++ cl ++ cert ++ sig))) E5).
  assert (L6 : length P6 = (length P5 + length (d))%nat) by apply length_app.
  pose (P7 := P6 ++ f).
  assert (E7 : P7 ++ dr ++ n ++ fl ++ ml ++ model ++ dl ++ driver ++ cl ++ cert ++ sig = data)
    by exact (eq_trans (eq_sym (app_assoc P6 (f) (dr ++ n ++ fl ++ ml ++ model ++ dl ++ driver ++ cl ++ cert ++ sig))) E6).
  assert (L7 : length P7 = (length P6 + length (f))%nat) by apply length_app.
  pose (P8 := P7 ++ dr).
  assert (E8 : P8 ++ n ++ fl ++ ml ++ model ++ dl ++ driver ++ cl ++ cert ++ sig = data)
    by exact (eq_trans (eq_sym (app_assoc P7 (dr) (n ++ fl ++ ml ++ model ++ dl ++ driver ++ cl ++ cert ++ sig))) E7).
  assert (L8 : length P8 = (length P7 + length (dr))%nat) by apply length_app.
  pose (P9 := P8 ++ n).
  assert (E9 : P9 ++ fl ++ ml ++ model ++ dl ++ driver ++ cl ++ cert ++ sig = data)
    by exact (eq_trans (eq_sym (app_assoc P8 (n) (fl ++ ml ++ model ++ dl ++ driver ++ cl ++ cert ++ sig))) E8).
  assert (L9 : length P9 = (length P8 + length (n))%nat) by apply length_app.
  pose (P10 := P9 ++ fl).
  assert (E10 : P10 ++ ml ++ model ++ dl ++ driver ++ cl ++ cert ++ sig = data)
    by exact (eq_trans (eq_sym (app_assoc P9 (fl) (ml ++ model ++ dl ++ driver ++ cl ++ cert ++ sig))) E9).
  assert (L10 : length P10 = (length P9 + length (fl))%nat) by apply length_app.
  pose (P11 := P10 ++ ml).
  assert (E11 : P11 ++ model ++ dl ++ driver ++ cl ++ cert ++ sig = data)
    by exact (eq_trans (eq_sym (app_assoc P10 (ml) (model ++ dl ++ driver ++ cl ++ cert ++ sig))) E10).
  assert (L11 : length P11 = (length P10 + length (ml))%nat) by apply length_app.
  pose (P12 := P11 ++ model).
  assert (E12 : P12 ++ dl ++ driver ++ cl ++ cert ++ sig = data)
    by exact (eq_trans (eq_sym (app_assoc P11 (model) (dl ++ driver ++ cl ++ cert ++ sig))) E11).
  assert (L12 : length P12 = (length P11 + length (model))%nat) by apply length_app.
  pose (P13 := P12 ++ dl).
  assert (E13 : P13 ++ driver ++ cl ++ cert ++ sig = data)
    by exact (eq_trans (eq_sym (app_assoc P12 (dl) (driver ++ cl ++ cert ++ sig))) E12).
  assert (L13 : length P13 = (length P12 + length (dl))%nat) by apply length_app.
  pose (P14 := P13 ++ driver).
  assert (E14 : P14 ++ cl ++ cert ++ sig = data)
    by exact (eq_trans (eq_sym (app_assoc P13 (driver) (cl ++ cert ++ sig))) E13).
  assert (L14 : length P14 = (length P13 + length (driver))%nat) by apply length_app.
  pose (P15 := P14 ++ cl).
  assert (E15 : P15 ++ cert ++ sig = data)
    by exact (eq_trans (eq_sym (app_assoc P14 (cl) (cert ++ sig))) E14).
  assert (L15 : length P15 = (length P14 + length (cl))%nat) by apply length_app.
  pose (P16 := P15 ++ cert).
  assert (E16 : P16 ++ sig = data)
    by exact (eq_trans (eq_sym (app_assoc P15 (cert) (sig))) E15).
  assert (L16 : length P16 = (length P15 + length (cert))%nat) by apply length_app.
  cbn [length] in *.
  assert (Hat : forall pre field rest lo hi,
            pre ++ field ++ rest = data -> lo = length pre ->
            hi = (lo + length field)%nat -> slice data lo hi = field).
  { intros pre field rest lo hi Heq Hlo Hhi. by apply (slice_at data pre field rest). }
  assert (Hbyte : forall pre b rest i,
            pre ++ b :: rest = data -> i = length pre -> data !! i = Some b).
  { intros pre b rest i Heq Hi. by apply (lookup_at data pre rest). }
  assert (HU16 : forall b, length b = 2%nat -> Uint16 b = SetBytes b).
  { intros b Hb. unfold Uint16. by rewrite take_ge by lia. }
  assert (HU32 : forall b, length b = 4%nat -> Uint32 b = SetBytes b).
  { intros b Hb. unfold Uint32. by rewrite take_ge by lia. }
  assert (HU64 : forall b, length b = 8%nat -> Uint64 b = SetBytes b).
  { intros b Hb. unfold Uint64. by rewrite take_ge by lia. }
  unfold ParseNVTrustQuote.
  cbv beta zeta delta [NVTrustHeaderSize NVTrustMinQuoteSize].
  rewrite (Hat P0 (h2) ([qt] ++ [rs] ++ l4 ++ t8 ++ d ++ f ++ dr ++ n ++ fl ++ ml ++ model ++ dl ++ driver ++ cl ++ cert ++ sig) (0)%nat (2)%nat E0) by lia.
  rewrite (Hbyte P1 qt ([rs] ++ l4 ++ t8 ++ d ++ f ++ dr ++ n ++ fl ++ ml ++ model ++ dl ++ driver ++ cl ++ cert ++ sig) 2%nat E1) by lia.
  rewrite (Hbyte P2 rs (l4 ++ t8 ++ d ++ f ++ dr ++ n ++ fl ++ ml ++ model ++ dl ++ driver ++ cl ++ cert ++ sig) 3%nat E2) by lia.
  rewrite (Hat P3 (l4) (t8 ++ d ++ f ++ dr ++ n ++ fl ++ ml ++ model ++ dl ++ driver ++ cl ++ cert ++ sig) (4)%nat (8)%nat E3) by lia.
  rewrite (Hat P4 (t8) (d ++ f ++ dr ++ n ++ fl ++ ml ++ model ++ dl ++ driver ++ cl ++ cert ++ sig) (8)%nat (16)%nat E4) by lia.
  rewrite (Hat P5 (d) (f ++ dr ++ n ++ fl ++ ml ++ model ++ dl ++ driver ++ cl ++ cert ++ sig) (16)%nat (16 + 32)%nat E5) by lia.
  rewrite (Hat P6 (f) (dr ++ n ++ fl ++ ml ++ model ++ dl ++ driver ++ cl ++ cert ++ sig) (16 + 32)%nat (16 + 32 + 32)%nat E6) by lia.
  rewrite (Hat P7 (dr) (n ++ fl ++ ml ++ model ++ dl ++ driver ++ cl ++ cert ++ sig) (16 + 32 + 32)%nat (16 + 32 + 32 + 32)%nat E7) by lia.
  rewrite (Hat P8 (n) (fl ++ ml ++ model ++ dl ++ driver ++ cl ++ cert ++ sig) (16 + 32 + 32 + 32)%nat (16 + 32 + 32 + 32 + 32)%nat E8) by lia.
  rewrite (Hat P9 (fl) (ml ++ model ++ dl ++ driver ++ cl ++ cert ++ sig) (16 + 32 + 32 + 32 + 32)%nat (16 + 32 + 32 + 32 + 32 + 2)%nat E9) by lia.
  rewrite (Hat P10 (ml) (model ++ dl ++ driver ++ cl ++ cert ++ sig) (16 + 32 + 32 + 32 + 32 + 2)%nat (16 + 32 + 32 + 32 + 32 + 2 + 2)%nat E10) by lia.
  rewrite (HU16 ml Hml), Hmodel.
  rewrite (Hat P11 (model) (dl ++ driver ++ cl ++ cert ++ sig) (16 + 32 + 32 + 32 + 32 + 2 + 2)%nat (16 + 32 + 32 + 32 + 32 + 2 + 2 + length model)%nat E11) by lia.
  rewrite (Hat P12 (dl) (driver ++ cl ++ cert ++ sig) (16 + 32 + 32 + 32 + 32 + 2 + 2 + length model)%nat (16 + 32 + 32 + 32 + 32 + 2 + 2 + length model + 2)%nat E12) by lia.
  rewrite (HU16 dl Hdl), Hdriver.
  rewrite (Hat P13 (driver) (cl ++ cert ++ sig) (16 + 32 + 32 + 32 + 32 + 2 + 2 + length model + 2)%nat (16 + 32 + 32 + 32 + 32 + 2 + 2 + length model + 2 + length driver)%nat E13) by lia.
  rewrite (Hat P14 (cl) (cert ++ sig) (16 + 32 + 32 + 32 + 32 + 2 + 2 + length model + 2 + length driver)%nat (16 + 32 + 32 + 32 + 32 + 2 + 2 + length model + 2 + length driver + 4)%nat E14) by lia.
  rewrite (HU32 cl Hcl), Hcert.
  rewrite (Hat P15 cert sig (16 + 32 + 32 + 32 + 32 + 2 + 2 + length model + 2 + length driver + 4)%nat (16 + 32 + 32 + 32 + 32 + 2 + 2 + length model + 2 + length driver + 4 + length cert)%nat E15) by lia.
  rewrite (drop_at data P16 sig (16 + 32 + 32 + 32 + 32 + 2 + 2 + length model + 2 + length driver + 4 + length cert)%nat (eq_sym E16)) by lia.
  rewrite (HU16 h2 Hh2), (HU32 l4 Hl4), (HU64 t8 Ht8), (HU16 fl Hfl).
  repeat match goal with
  | |- context [(length data <? ?e)%nat] =>
      rewrite (proj2 (Nat.ltb_ge (length data) e)) by lia
  end.
  change (default x00 (Some qt)) with qt. change (default x00 (Some rs)) with rs.
  assert (Hv : (SetBytes h2 <? 1) || (SetBytes h2 >? 2) = false).
  { rewrite Z.gtb_ltb. apply orb_false_intro; apply Z.ltb_ge; lia. }
  rewrite Hv.
  assert (Ht : negb (bool_decide (qt = QuoteTypeLocal))
               && negb (bool_decide (qt = QuoteTypeSoftware)) = false).
  { destruct Hqt as [-> | ->]; reflexivity. }
  rewrite Ht.
  rewrite (copy_fresh (length cert) cert) by done.
  f_equal. f_equal.
  destruct (Nat.ltb_spec (16 + 32 + 32 + 32 + 32 + 2 + 2 + length model + 2 + length driver + 4 + length cert) (length data)) as [Hlt | Hge].
  - apply copy_fresh. lia.
  - symmetry. apply nil_length_inv. lia.
Qed.

End NVTrustParse.

Section NVTrustRoundTrip.
Import NVTrust.

Lemma flagsOf_cases (q : NVTrustQuote) :
  flagsOf q = (if CCEnabled q then 1 else 0) + (if TEEIOEnabled q then 2 else 0).
Proof. unfold flagsOf. by destruct (CCEnabled q), (TEEIOEnabled q). Qed.

Lemma flagsOf_range (q : NVTrustQuote) : 0 <= flagsOf q < 4.
Proof. rewrite flagsOf_cases. destruct (CCEnabled q), (TEEIOEnabled q); lia. Qed.

(** X14.  [ParseNVTrustQuote] undoes [SerializeQuote] on every quote whose
    numeric fields fit their Go types (version 1 or 2, a known quote type)
    and whose model, driver version and certificate chain fit their 16- and
    32-bit length prefixes. *)
Theorem Parse_Serialize_roundtrip (q : NVTrustQuote) :
  wellformed q ->
  ParseNVTrustQuote (SerializeQuote q) = inl q.
Proof.
  intros (Hv & Hqt & HL & HT & Hm & Hd & Hc).
  change (2 ^ 16) with 65536 in Hm, Hd. change (2 ^ 32) with 4294967296 in Hc, HL.
  change (2 ^ 64) with 18446744073709551616 in HT.
  pose proof (flagsOf_range q) as Hfl.
  rewrite SerializeQuote_layout.
  rewrite Parse_fields; rewrite ?put_be_length, ?length_vec_to_list; try done.
  - rewrite !SetBytes_put_be by (change (256 ^ Z.of_nat 2) with 65536;
                                 change (256 ^ Z.of_nat 4) with 4294967296;
                                 change (256 ^ Z.of_nat 8) with 18446744073709551616;
                                 lia).
    rewrite !bytes32_vec.
    destruct q as [V qt rs L T dv fw dr nn cc tee cert sig model driver].
    cbn [NVTrust.Version NVTrust.QuoteType NVTrust.Reserved NVTrust.Length
         NVTrust.Timestamp NVTrust.DeviceID NVTrust.FirmwareHash NVTrust.DriverHash
         NVTrust.Nonce NVTrust.CertChain NVTrust.Signature NVTrust.GPUModel
         NVTrust.DriverVersion].
    f_equal. f_equal; unfold flagsOf; simpl; by destruct cc, tee.
  - rewrite SetBytes_put_be by (change (256 ^ Z.of_nat 2) with 65536; lia). lia.
  - rewrite SetBytes_put_be by (change (256 ^ Z.of_nat 2) with 65536; lia). lia.
  - rewrite SetBytes_put_be by (change (256 ^ Z.of_nat 4) with 4294967296; lia). lia.
  - rewrite SetBytes_put_be by (change (256 ^ Z.of_nat 2) with 65536; lia). lia.
Qed.

Lemma Uint16_range (b : list byte) : 0 <= Uint16 b < 65536.
Proof.
  unfold Uint16. pose proof (SetBytes_range (take 2 b)) as Hr.
  assert (256 ^ Z.of_nat (length (take 2 b)) <= 256 ^ 2)
    by (apply Z.pow_le_mono_r; [lia | rewrite length_take; lia]).
  lia.
Qed.

Lemma Uint32_range (b : list byte) : 0 <= Uint32 b < 4294967296.
Proof.
  unfold Uint32. pose proof (SetBytes_range (take 4 b)) as Hr.
  assert (256 ^ Z.of_nat (length (take 4 b)) <= 256 ^ 4)
    by (apply Z.pow_le_mono_r; [lia | rewrite length_take; lia]).
  lia.
Qed.

Lemma Uint64_range (b : list byte) : 0 <= Uint64 b < 18446744073709551616.
Proof.
  unfold Uint64. pose proof (SetBytes_range (take 8 b)) as Hr.
  assert (256 ^ Z.of_nat (length (take 8 b)) <= 256 ^ 8)
    by (apply Z.pow_le_mono_r; [lia | rewrite length_take; lia]).
  lia.
Qed.

Lemma slice_length (data : list byte) (lo hi : nat) :
  (lo <= hi)%nat -> (hi <= length data)%nat -> length (slice data lo hi) = (hi - lo)%nat.
Proof. intros Hlo Hhi. unfold slice. rewrite length_take, length_drop. lia. Qed.

(** What a successful [ParseNVTrustQuote] has read, and from where. *)
Lemma Parse_inv (data : list byte) (q : NVTrustQuote) :
  ParseNVTrustQuote data = inl q ->
  exists modelLen driverLen certLen : nat,
    modelLen = Z.to_nat (Uint16 (slice data (16 + 32 + 32 + 32 + 32 + 2) (16 + 32 + 32 + 32 + 32 + 2 + 2))) /\
    driverLen = Z.to_nat (Uint16 (slice data (16 + 32 + 32 + 32 + 32 + 2 + 2 + modelLen) (16 + 32 + 32 + 32 + 32 + 2 + 2 + modelLen + 2))) /\
    certLen = Z.to_nat (Uint32 (slice data (16 + 32 + 32 + 32 + 32 + 2 + 2 + modelLen + 2 + driverLen) (16 + 32 + 32 + 32 + 32 + 2 + 2 + modelLen + 2 + driverLen + 4))) /\
    (16 + 32 + 32 + 32 + 32 + 2 + 2 + modelLen + 2 + driverLen + 4 + certLen <= length data)%nat /\
    1 <= Uint16 (slice data 0 2) <= 2 /\
    (default x00 (data !! 2%nat) = QuoteTypeLocal \/
     default x00 (data !! 2%nat) = QuoteTypeSoftware) /\
    q = {| Version := Uint16 (slice data 0 2);
           QuoteType := default x00 (data !! 2%nat);
           Reserved := default x00 (data !! 3%nat);
           Length := Uint32 (slice data 4 8);
           Timestamp := Uint64 (slice data 8 16);
           DeviceID := bytes32 (slice data 16 (16 + 32));
           FirmwareHash := bytes32 (slice data (16 + 32) (16 + 32 + 32));
           DriverHash := bytes32 (slice data (16 + 32 + 32) (16 + 32 + 32 + 32));
           Nonce := bytes32 (slice data (16 + 32 + 32 + 32) (16 + 32 + 32 + 32 + 32));
           CCEnabled := negb (Z.land (Uint16 (slice data (16 + 32 + 32 + 32 + 32) (16 + 32 + 32 + 32 + 32 + 2))) 1 =? 0);
           TEEIOEnabled := negb (Z.land (Uint16 (slice data (16 + 32 + 32 + 32 + 32) (16 + 32 + 32 + 32 + 32 + 2))) 2 =? 0);
           CertChain := slice data (16 + 32 + 32 + 32 + 32 + 2 + 2 + modelLen + 2 + driverLen + 4) (16 + 32 + 32 + 32 + 32 + 2 + 2 + modelLen + 2 + driverLen + 4 + certLen);
           Signature := drop (16 + 32 + 32 + 32 + 32 + 2 + 2 + modelLen + 2 + driverLen + 4 + certLen) data;
           GPUModel := slice data (16 + 32 + 32 + 32 + 32 + 2 + 2) (16 + 32 + 32 + 32 + 32 + 2 + 2 + modelLen);
           DriverVersion := slice data (16 + 32 + 32 + 32 + 32 + 2 + 2 + modelLen + 2) (16 + 32 + 32 + 32 + 32 + 2 + 2 + modelLen + 2 + driverLen) |}.
Proof.
  unfold ParseNVTrustQuote.
  cbv beta zeta delta [NVTrustHeaderSize NVTrustMinQuoteSize].
  set (modelLen := Z.to_nat (Uint16 (slice data (16 + 32 + 32 + 32 + 32 + 2) (16 + 32 + 32 + 32 + 32 + 2 + 2)))).
  set (driverLen := Z.to_nat (Uint16 (slice data (16 + 32 + 32 + 32 + 32 + 2 + 2 + modelLen) (16 + 32 + 32 + 32 + 32 + 2 + 2 + modelLen + 2)))).
  set (certLen := Z.to_nat (Uint32 (slice data (16 + 32 + 32 + 32 + 32 + 2 + 2 + modelLen + 2 + driverLen) (16 + 32 + 32 + 32 + 32 + 2 + 2 + modelLen + 2 + driverLen + 4)))).
  intros Hp.
  repeat match type of Hp with
  | (if ?c then inr _ else _) = inl _ =>
      let E := fresh "E" in destruct c eqn:E; [discriminate Hp |]
  end.
  repeat match goal with
  | E : (_ <? _)%nat = false |- _ => apply Nat.ltb_ge in E
  end.
  rewrite copy_fresh in Hp by (rewrite slice_length by lia; lia).
  assert (Hsig : (if (16 + 32 + 32 + 32 + 32 + 2 + 2 + modelLen + 2 + driverLen + 4 + certLen <? length data)%nat
                  then copy (replicate (length data - (16 + 32 + 32 + 32 + 32 + 2 + 2 + modelLen + 2 + driverLen + 4 + certLen)) x00) (drop (16 + 32 + 32 + 32 + 32 + 2 + 2 + modelLen + 2 + driverLen + 4 + certLen) data)
                  else []) = drop (16 + 32 + 32 + 32 + 32 + 2 + 2 + modelLen + 2 + driverLen + 4 + certLen) data).
  { destruct (Nat.ltb_spec (16 + 32 + 32 + 32 + 32 + 2 + 2 + modelLen + 2 + driverLen + 4 + certLen) (length data)) as [Hlt | Hge].
    - apply copy_fresh. rewrite length_drop. lia.
    - symmetry. apply nil_length_inv. rewrite length_drop. lia. }
  rewrite Hsig in Hp. clear Hsig.
  match goal with
  | E : (_ <? 1) || (_ >? 2) = false |- _ =>
      apply orb_false_elim in E as [Hv1 Hv2]; rewrite Z.gtb_ltb in Hv2;
      apply Z.ltb_ge in Hv1, Hv2
  end.
  assert (Hq : default x00 (data !! 2%nat) = QuoteTypeLocal \/
               default x00 (data !! 2%nat) = QuoteTypeSoftware).
  { match goal with
    | E : negb (bool_decide _) && negb (bool_decide _) = false |- _ =>
        apply andb_false_iff in E as [Hq | Hq];
        apply negb_false_iff, bool_decide_eq_true in Hq; [by left | by right]
    end. }
  exists modelLen, driverLen, certLen.
  split; [done |]. split; [done |]. split; [done |]. split; [lia |].
  split; [lia |]. split; [exact Hq |].
  injection Hp as Hp. symmetry. exact Hp.
Qed.

End NVTrustRoundTrip.

Section NVTrustParsed.
Import NVTrust.

(** X15.  Only well-formed quotes come out of [ParseNVTrustQuote], and only from
    inputs of at least 154 bytes: the 16-byte header, four 32-byte fields,
    the flags and the three length prefixes are all required, beyond the
    128 bytes of [NVTrustMinQuoteSize]; the input is as long as its fields
    say. *)
Theorem Parse_only_wellformed (data : list byte) (q : NVTrustQuote) :
  ParseNVTrustQuote data = inl q ->
  wellformed q /\
  length data =
    (154 + length (GPUModel q) + length (DriverVersion q)
     + length (CertChain q) + length (Signature q))%nat /\
  (NVTrustMinQuoteSize < 154 <= length data)%nat.
Proof.
  intros Hp.
  destruct (Parse_inv data q Hp)
    as (modelLen & driverLen & certLen & Hm & Hd & Hc & Hlen & Hv & Hqt & ->).
  pose proof (Uint16_range (slice data (16 + 32 + 32 + 32 + 32 + 2) (16 + 32 + 32 + 32 + 32 + 2 + 2))) as Rm.
  pose proof (Uint16_range (slice data (16 + 32 + 32 + 32 + 32 + 2 + 2 + modelLen) (16 + 32 + 32 + 32 + 32 + 2 + 2 + modelLen + 2))) as Rd.
  pose proof (Uint32_range (slice data (16 + 32 + 32 + 32 + 32 + 2 + 2 + modelLen + 2 + driverLen) (16 + 32 + 32 + 32 + 32 + 2 + 2 + modelLen + 2 + driverLen + 4))) as Rc.
  assert (Lm : length (slice data (16 + 32 + 32 + 32 + 32 + 2 + 2) (16 + 32 + 32 + 32 + 32 + 2 + 2 + modelLen)) = modelLen) by (rewrite slice_length; lia).
  assert (Ld : length (slice data (16 + 32 + 32 + 32 + 32 + 2 + 2 + modelLen + 2) (16 + 32 + 32 + 32 + 32 + 2 + 2 + modelLen + 2 + driverLen)) = driverLen) by (rewrite slice_length; lia).
  assert (Lc : length (slice data (16 + 32 + 32 + 32 + 32 + 2 + 2 + modelLen + 2 + driverLen + 4) (16 + 32 + 32 + 32 + 32 + 2 + 2 + modelLen + 2 + driverLen + 4 + certLen)) = certLen) by (rewrite slice_length; lia).
  cbn [NVTrust.GPUModel NVTrust.DriverVersion NVTrust.CertChain NVTrust.Signature].
  rewrite Lm, Ld, Lc, length_drop.
  split; [| unfold NVTrustMinQuoteSize; lia].
  unfold wellformed.
  cbn [NVTrust.Version NVTrust.QuoteType NVTrust.Length NVTrust.Timestamp
       NVTrust.GPUModel NVTrust.DriverVersion NVTrust.CertChain].
  rewrite Lm, Ld, Lc.
  pose proof (Uint32_range (slice data 4 8)).
  pose proof (Uint64_range (slice data 8 16)).
  change (2 ^ 16) with 65536. change (2 ^ 32) with 4294967296.
  change (2 ^ 64) with 18446744073709551616.
  repeat split; try done; lia.
Qed.

Lemma slice_join (data : list byte) (a b c : nat) (rest : list byte) :
  (a <= b)%nat -> (b <= c)%nat -> (c <= length data)%nat ->
  slice data a b ++ slice data b c ++ rest = slice data a c ++ rest.
Proof.
  intros Hab Hbc Hc. rewrite app_assoc. f_equal. unfold slice.
  replace (c - a)%nat with ((b - a) + (c - b))%nat by lia.
  rewrite <- take_take_drop. f_equal. rewrite drop_drop.
  f_equal. f_equal. lia.
Qed.

Lemma slice_drop (data : list byte) (a b : nat) :
  (a <= b)%nat -> (b <= length data)%nat ->
  slice data a b ++ drop b data = drop a data.
Proof.
  intros Hab Hb. unfold slice.
  rewrite <- (take_drop (b - a) (drop a data)) at 2.
  f_equal. rewrite drop_drop. f_equal. lia.
Qed.

Lemma slice_single (data : list byte) (i : nat) :
  (i < length data)%nat -> [default x00 (data !! i)] = slice data i (S i).
Proof.
  intros Hi. destruct (lookup_lt_is_Some_2 data i Hi) as [b Hb]. rewrite Hb.
  unfold slice. replace (S i - i)%nat with 1%nat by lia.
  rewrite (drop_S data b i Hb). reflexivity.
Qed.

Lemma put_be_Uint16 (b : list byte) : length b = 2%nat -> put_be 2 (Uint16 b) = b.
Proof.
  intros Hb. unfold Uint16. rewrite take_ge by lia.
  rewrite <- Hb at 1. apply put_be_SetBytes.
Qed.

Lemma put_be_Uint32 (b : list byte) : length b = 4%nat -> put_be 4 (Uint32 b) = b.
Proof.
  intros Hb. unfold Uint32. rewrite take_ge by lia.
  rewrite <- Hb at 1. apply put_be_SetBytes.
Qed.

Lemma put_be_Uint64 (b : list byte) : length b = 8%nat -> put_be 8 (Uint64 b) = b.
Proof.
  intros Hb. unfold Uint64. rewrite take_ge by lia.
  rewrite <- Hb at 1. apply put_be_SetBytes.
Qed.

(** X16.  Serialising a parsed quote gives the input back, except that of the
    sixteen flag bits only the two the parser reads are written; an input
    whose other flag bits are clear is reproduced byte for byte. *)
Theorem Serialize_Parse (data : list byte) (q : NVTrustQuote) :
  ParseNVTrustQuote data = inl q ->
  SerializeQuote q = take 144 data ++ put_be 2 (flagsOf q) ++ drop 146 data /\
  flagsOf q = Z.land (Uint16 (slice data 144 146)) 3 /\
  (Uint16 (slice data 144 146) < 4 -> SerializeQuote q = data).
Proof.
  intros Hp.
  destruct (Parse_inv data q Hp)
    as (modelLen & driverLen & certLen & Hm & Hd & Hc & Hlen & Hv & Hqt & Hq).
  pose proof (Uint16_range (slice data (16 + 32 + 32 + 32 + 32 + 2) (16 + 32 + 32 + 32 + 32 + 2 + 2))) as Rm.
  pose proof (Uint16_range (slice data (16 + 32 + 32 + 32 + 32 + 2 + 2 + modelLen) (16 + 32 + 32 + 32 + 32 + 2 + 2 + modelLen + 2))) as Rd.
  pose proof (Uint32_range (slice data (16 + 32 + 32 + 32 + 32 + 2 + 2 + modelLen + 2 + driverLen) (16 + 32 + 32 + 32 + 32 + 2 + 2 + modelLen + 2 + driverLen + 4))) as Rc.
  assert (Hflags : flagsOf q = Z.land (Uint16 (slice data 144 146)) 3).
  { rewrite flagsOf_cases, Hq.
    cbn [NVTrust.CCEnabled NVTrust.TEEIOEnabled].
    change (16 + 32 + 32 + 32 + 32)%nat with 144%nat.
    change (144 + 2)%nat with 146%nat.
    set (fl := Uint16 (slice data 144 146)).
    set (r := Z.land fl 3).
    assert (Hr : 0 <= r < 4).
    { subst r. change 3 with (Z.ones 2). rewrite Z.land_ones by lia.
      change (2 ^ 2) with 4. apply Z.mod_pos_bound. lia. }
    assert (H1 : Z.land fl 1 = Z.land r 1)
      by (subst r; rewrite <- Z.land_assoc; reflexivity).
    assert (H2 : Z.land fl 2 = Z.land r 2)
      by (subst r; rewrite <- Z.land_assoc; reflexivity).
    rewrite H1, H2.
    assert (Hcases : r = 0 \/ r = 1 \/ r = 2 \/ r = 3) by lia.
    destruct Hcases as [-> | [-> | [-> | ->]]]; reflexivity. }
  assert (Hmain : SerializeQuote q
                  = take 144 data ++ put_be 2 (flagsOf q) ++ drop 146 data).
  { rewrite SerializeQuote_layout. generalize (flagsOf q). intros fl.
    rewrite Hq.
    cbn [NVTrust.Version NVTrust.QuoteType NVTrust.Reserved NVTrust.Length
         NVTrust.Timestamp NVTrust.DeviceID NVTrust.FirmwareHash NVTrust.DriverHash
         NVTrust.Nonce NVTrust.CertChain NVTrust.Signature NVTrust.GPUModel
         NVTrust.DriverVersion].
    rewrite !vec_bytes32 by (rewrite slice_length; lia).
    rewrite (slice_length data (16 + 32 + 32 + 32 + 32 + 2 + 2) (16 + 32 + 32 + 32 + 32 + 2 + 2 + modelLen)) by lia.
    rewrite (slice_length data (16 + 32 + 32 + 32 + 32 + 2 + 2 + modelLen + 2) (16 + 32 + 32 + 32 + 32 + 2 + 2 + modelLen + 2 + driverLen)) by lia.
    rewrite (slice_length data (16 + 32 + 32 + 32 + 32 + 2 + 2 + modelLen + 2 + driverLen + 4) (16 + 32 + 32 + 32 + 32 + 2 + 2 + modelLen + 2 + driverLen + 4 + certLen)) by lia.
    replace (16 + 32 + 32 + 32 + 32 + 2 + 2 + modelLen - (16 + 32 + 32 + 32 + 32 + 2 + 2))%nat with modelLen by lia.
    replace (16 + 32 + 32 + 32 + 32 + 2 + 2 + modelLen + 2 + driverLen - (16 + 32 + 32 + 32 + 32 + 2 + 2 + modelLen + 2))%nat with driverLen by lia.
    replace (16 + 32 + 32 + 32 + 32 + 2 + 2 + modelLen + 2 + driverLen + 4 + certLen - (16 + 32 + 32 + 32 + 32 + 2 + 2 + modelLen + 2 + driverLen + 4))%nat with certLen by lia.
    assert (Hzm : Z.of_nat modelLen = Uint16 (slice data (16 + 32 + 32 + 32 + 32 + 2) (16 + 32 + 32 + 32 + 32 + 2 + 2)))
      by (rewrite Hm at 1; apply Z2Nat.id; lia).
    assert (Hzd : Z.of_nat driverLen = Uint16 (slice data (16 + 32 + 32 + 32 + 32 + 2 + 2 + modelLen) (16 + 32 + 32 + 32 + 32 + 2 + 2 + modelLen + 2)))
      by (rewrite Hd at 1; apply Z2Nat.id; lia).
    assert (Hzc : Z.of_nat certLen = Uint32 (slice data (16 + 32 + 32 + 32 + 32 + 2 + 2 + modelLen + 2 + driverLen) (16 + 32 + 32 + 32 + 32 + 2 + 2 + modelLen + 2 + driverLen + 4)))
      by (rewrite Hc at 1; apply Z2Nat.id; lia).
    rewrite Hzm, Hzd, Hzc.
    rewrite !put_be_Uint16 by (rewrite slice_length; lia).
    rewrite !put_be_Uint32 by (rewrite slice_length; lia).
    rewrite !put_be_Uint64 by (rewrite slice_length; lia).
    rewrite (slice_single data 2) by lia.
    rewrite (slice_single data 3) by lia.
    rewrite (slice_drop data (16 + 32 + 32 + 32 + 32 + 2 + 2 + modelLen + 2 + driverLen + 4) (16 + 32 + 32 + 32 + 32 + 2 + 2 + modelLen + 2 + driverLen + 4 + certLen)) by lia.
    rewrite (slice_drop data (16 + 32 + 32 + 32 + 32 + 2 + 2 + modelLen + 2 + driverLen) (16 + 32 + 32 + 32 + 32 + 2 + 2 + modelLen + 2 + driverLen + 4)) by lia.
    rewrite (slice_drop data (16 + 32 + 32 + 32 + 32 + 2 + 2 + modelLen + 2) (16 + 32 + 32 + 32 + 32 + 2 + 2 + modelLen + 2 + driverLen)) by lia.
    rewrite (slice_drop data (16 + 32 + 32 + 32 + 32 + 2 + 2 + modelLen) (16 + 32 + 32 + 32 + 32 + 2 + 2 + modelLen + 2)) by lia.
    rewrite (slice_drop data (16 + 32 + 32 + 32 + 32 + 2 + 2) (16 + 32 + 32 + 32 + 32 + 2 + 2 + modelLen)) by lia.
    rewrite (slice_drop data (16 + 32 + 32 + 32 + 32 + 2) (16 + 32 + 32 + 32 + 32 + 2 + 2)) by lia.
    do 8 (rewrite slice_join by lia).
    unfold slice at 1. rewrite drop_0, Nat.sub_0_r. reflexivity. }
  split; [exact Hmain |]. split; [exact Hflags |].
  intros Hsmall. rewrite Hmain, Hflags.
  pose proof (Uint16_range (slice data 144 146)) as Rf.
  assert (Hland : Z.land (Uint16 (slice data 144 146)) 3 = Uint16 (slice data 144 146)).
  { change 3 with (Z.ones 2). rewrite Z.land_ones by lia.
    apply Z.mod_small. change (2 ^ 2) with 4. lia. }
  rewrite Hland, put_be_Uint16 by (rewrite slice_length; lia).
  rewrite (slice_drop data 144 146) by lia.
  apply take_drop.
Qed.

End NVTrustParsed.

Section NVTrustChecks.
Import NVTrust.

(** X17.  The errors of [ParseNVTrustQuote]: an input under 128 bytes is too
    short whatever it holds; from 128 bytes on a version other than 1 and 2
    is reported first, then a quote type other than local and software; no
    other error is ever returned. *)
Theorem Parse_errors (data : list byte) :
  ((length data < 128)%nat -> ParseNVTrustQuote data = inr ErrQuoteTooShort) /\
  ((128 <= length data)%nat -> ~ 1 <= Uint16 (slice data 0 2) <= 2 ->
     ParseNVTrustQuote data = inr ErrInvalidVersion) /\
  ((128 <= length data)%nat -> 1 <= Uint16 (slice data 0 2) <= 2 ->
     default x00 (data !! 2%nat) <> QuoteTypeLocal ->
     default x00 (data !! 2%nat) <> QuoteTypeSoftware ->
     ParseNVTrustQuote data = inr ErrInvalidQuoteType) /\
  (forall e, ParseNVTrustQuote data = inr e ->
     e = ErrQuoteTooShort \/ e = ErrInvalidVersion \/ e = ErrInvalidQuoteType).
Proof.
  unfold ParseNVTrustQuote.
  cbv beta zeta delta [NVTrustHeaderSize NVTrustMinQuoteSize].
  repeat apply conj.
  - intros Hlen. by rewrite (proj2 (Nat.ltb_lt (length data) 128) Hlen).
  - intros Hlen Hv. rewrite (proj2 (Nat.ltb_ge (length data) 128) Hlen).
    assert (Hb : (Uint16 (slice data 0 2) <? 1) || (Uint16 (slice data 0 2) >? 2) = true).
    { rewrite Z.gtb_ltb. apply orb_true_iff.
      destruct (Z.ltb_spec (Uint16 (slice data 0 2)) 1); [by left | right].
      apply Z.ltb_lt. lia. }
    by rewrite Hb.
  - intros Hlen Hv Hq1 Hq2. rewrite (proj2 (Nat.ltb_ge (length data) 128) Hlen).
    assert (Hb : (Uint16 (slice data 0 2) <? 1) || (Uint16 (slice data 0 2) >? 2) = false).
    { rewrite Z.gtb_ltb. apply orb_false_intro; apply Z.ltb_ge; lia. }
    rewrite Hb, !bool_decide_eq_false_2 by done. reflexivity.
  - intros e He.
    repeat match type of He with
    | (if ?c then _ else _) = inr _ =>
        destruct c; [injection He as <-; auto |]
    end.
    discriminate He.
Qed.

Lemma matchAt_spec (s sub : list byte) (i : nat) :
  (i + length sub <= length s)%nat ->
  matchAt s sub i = true <-> take (length sub) (drop i s) = sub.
Proof.
  intros Hlen. unfold matchAt. rewrite forallb_forall. split.
  - intros Hall. apply list_eq. intros j.
    destruct (decide (j < length sub)%nat) as [Hj | Hj].
    + rewrite lookup_take_lt by done. rewrite lookup_drop.
      eapply bool_decide_eq_true_1. apply Hall. apply in_seq. lia.
    + rewrite lookup_take_ge by lia. by rewrite lookup_ge_None_2 by lia.
  - intros Heq j Hj. apply in_seq in Hj. apply bool_decide_eq_true_2.
    transitivity (take (length sub) (drop i s) !! j); [| by rewrite Heq].
    rewrite lookup_take_lt by lia. by rewrite lookup_drop.
Qed.

Lemma find_seq_first (p : nat -> bool) (n : nat) :
  match find p (seq 0 n) with
  | Some i => (i < n)%nat /\ p i = true /\ forall j, (j < i)%nat -> p j = false
  | None => forall j, (j < n)%nat -> p j = false
  end.
Proof.
  assert (Hgen : forall start,
    match find p (seq start n) with
    | Some i => (start <= i < start + n)%nat /\ p i = true /\
                forall j, (start <= j < i)%nat -> p j = false
    | None => forall j, (start <= j < start + n)%nat -> p j = false
    end).
  { induction n as [| n IH]; intros start; simpl.
    - intros j Hj. lia.
    - destruct (p start) eqn:Hp.
      + split; [lia |]. split; [done |]. intros j Hj. lia.
      + specialize (IH (S start)). destruct (find p (seq (S start) n)) as [i |].
        * destruct IH as (Hi & Hpi & Hbefore). split; [lia |]. split; [done |].
          intros j Hj. destruct (decide (j = start)) as [-> | Hne]; [done |].
          apply Hbefore. lia.
        * intros j Hj. destruct (decide (j = start)) as [-> | Hne]; [done |].
          apply IH. lia. }
  specialize (Hgen 0%nat). destruct (find p (seq 0 n)) as [i |].
  - destruct Hgen as (Hi & Hpi & Hbefore). split; [lia |]. split; [done |].
    intros j Hj. apply Hbefore. lia.
  - intros j Hj. apply Hgen. lia.
Qed.

(** [findSubstring] returns the first position at which [substr] is read
    in [str], and -1 exactly when it is read nowhere (also when [substr] is
    the longer of the two); the empty [substr] is found at 0. *)
Lemma findSubstring_scan (s sub : list byte) :
  (findSubstring s sub = -1 /\
   forall i, (i + length sub <= length s)%nat -> take (length sub) (drop i s) <> sub) \/
  (exists i : nat,
     findSubstring s sub = Z.of_nat i /\
     (i + length sub <= length s)%nat /\
     take (length sub) (drop i s) = sub /\
     forall j, (j < i)%nat -> take (length sub) (drop j s) <> sub).
Proof.
  unfold findSubstring.
  set (n := Z.to_nat (Z.of_nat (length s) - Z.of_nat (length sub) + 1)).
  pose proof (find_seq_first (matchAt s sub) n) as Hf.
  destruct (find (matchAt s sub) (seq 0 n)) as [i |].
  - right. destruct Hf as (Hi & Hm & Hbefore).
    assert (Hin : (i + length sub <= length s)%nat) by lia.
    exists i. split; [done |]. split; [done |].
    split; [by apply matchAt_spec |].
    intros j Hj Heq. apply matchAt_spec in Heq; [| lia].
    rewrite (Hbefore j Hj) in Heq. discriminate.
  - left. split; [done |]. intros i Hi Heq.
    apply matchAt_spec in Heq; [| done].
    rewrite Hf in Heq by lia. discriminate.
Qed.

Lemma contains_spec (s sub : list byte) :
  contains s sub = true <-> exists pre post, s = pre ++ sub ++ post.
Proof.
  unfold contains. rewrite andb_true_iff, Nat.leb_le, Z.geb_leb, Z.leb_le. split.
  - intros [Hlen Hfound].
    destruct (findSubstring_scan s sub) as [[Hm _] | (i & Hi & Hin & Heq & _)]; [lia |].
    exists (take i s), (drop (length sub) (drop i s)).
    rewrite <- Heq at 1. by rewrite take_drop, take_drop.
  - intros (pre & post & ->).
    assert (Hocc : take (length sub) (drop (length pre) (pre ++ sub ++ post)) = sub)
      by (by rewrite drop_app_length, take_app_length).
    split; [rewrite !length_app; lia |].
    destruct (findSubstring_scan (pre ++ sub ++ post) sub)
      as [[_ Hno] | (i & Hi & _)]; [| lia].
    exfalso. apply (Hno (length pre)); [rewrite !length_app; lia | done].
Qed.

(** X18.  The substring search behind the model checks: [findSubstring] returns
    the first position at which [substr] is read in [str], and -1 exactly
    when it is read nowhere; [contains] holds exactly when [substr] occurs
    in [str]; and a model is hardware-CC capable exactly when its name
    contains one of the seven names of [ccCapable]. *)
Theorem substring_search (s sub model : list byte) :
  ((findSubstring s sub = -1 /\
    forall i, (i + length sub <= length s)%nat -> take (length sub) (drop i s) <> sub) \/
   (exists i : nat,
      findSubstring s sub = Z.of_nat i /\
      (i + length sub <= length s)%nat /\
      take (length sub) (drop i s) = sub /\
      forall j, (j < i)%nat -> take (length sub) (drop j s) <> sub)) /\
  (contains s sub = true <-> exists pre post, s = pre ++ sub ++ post) /\
  (isHardwareCCCapable model = true <->
     exists m pre post, m ∈ ccCapable /\ model = pre ++ m ++ post).
Proof.
  split; [apply findSubstring_scan |].
  split; [apply contains_spec |].
  unfold isHardwareCCCapable. rewrite existsb_exists. split.
  - intros (m & Hin & Hm). apply list_elem_of_In in Hin.
    apply orb_true_iff in Hm as [Heq | Hc].
    + apply bool_decide_eq_true_1 in Heq. exists m, [], []. split; [done |].
      by rewrite app_nil_r.
    + apply contains_spec in Hc as (pre & post & ->). by exists m, pre, post.
  - intros (m & pre & post & Hin & ->). exists m. split; [by apply list_elem_of_In |].
    apply orb_true_iff. right. apply contains_spec. by exists pre, post.
Qed.

End NVTrustChecks.

Section NVTrustVerify.
Import NVTrust.
Variable Sum256 : list byte -> vec byte 32.

(** X19.  The verdict and the score of [VerifyNVTrustQuote]: a quote is valid
    exactly when its certificate chain passes the structure check and its
    signature has at least 96 bytes; an invalid quote scores 0, a valid one
    50 plus 30 (CC on, capable model) or 15 (CC on, other model), plus 10
    for TEE I/O and 10 for verified measurements: between 50 and 100, so
    that neither the [uint8] addition wraps nor the cap at 100 cuts. *)
Theorem VerifyNVTrustQuote_score (q : NVTrustQuote) :
  (VerifyNVTrustQuote Sum256 q).1
    = verifyCertChain (CertChain q) && (96 <=? length (Signature q))%nat /\
  ((VerifyNVTrustQuote Sum256 q).1 = false -> (VerifyNVTrustQuote Sum256 q).2 = 0) /\
  ((VerifyNVTrustQuote Sum256 q).1 = true ->
     (VerifyNVTrustQuote Sum256 q).2
       = 50
         + (if CCEnabled q
            then (if isHardwareCCCapable (GPUModel q) then 30 else 15) else 0)
         + (if TEEIOEnabled q then 10 else 0)
         + (if verifyRIM Sum256 (GPUModel q) (vec_to_list (FirmwareHash q))
                 (vec_to_list (DriverHash q)) then 10 else 0) /\
     50 <= (VerifyNVTrustQuote Sum256 q).2 <= 100).
Proof.
  unfold VerifyNVTrustQuote, verifyQuoteSignature, NVTrustSignatureSize.
  destruct (verifyCertChain (CertChain q)); cbn [negb andb fst snd];
    [| by repeat split].
  destruct (Nat.ltb_spec (length (Signature q)) 96) as [Hlt | Hge].
  - rewrite (proj2 (Nat.leb_gt 96 (length (Signature q)))) by lia.
    cbn [negb fst snd]. by repeat split.
  - rewrite (proj2 (Nat.leb_le 96 (length (Signature q)))) by lia.
    cbn [negb fst snd].
    split; [done |]. split; [done |]. intros _.
    destruct (isHardwareCCCapable (GPUModel q)), (CCEnabled q), (TEEIOEnabled q),
      (verifyRIM Sum256 (GPUModel q) (vec_to_list (FirmwareHash q))
         (vec_to_list (DriverHash q)));
      vm_compute; repeat split; congruence.
Qed.

(** X20.  [VerifyNVTrustQuote] and [VerifyNVTrustQuoteFull] agree on validity,
    but not on the score: for a valid quote with CC enabled on a model that
    is not hardware-CC capable the first adds 15 and the second nothing; in
    every other case the two scores are equal. *)
Theorem Verify_and_Full (q : NVTrustQuote) :
  Valid (VerifyNVTrustQuoteFull Sum256 q) = (VerifyNVTrustQuote Sum256 q).1 /\
  (VerifyNVTrustQuote Sum256 q).2
    = TrustScore (VerifyNVTrustQuoteFull Sum256 q)
      + (if (VerifyNVTrustQuote Sum256 q).1 && CCEnabled q
            && negb (isHardwareCCCapable (GPUModel q))
         then 15 else 0) /\
  HardwareCC (VerifyNVTrustQuoteFull Sum256 q)
    = isHardwareCCCapable (GPUModel q) && CCEnabled q /\
  Mode (VerifyNVTrustQuoteFull Sum256 q)
    = (if bool_decide (QuoteType q = QuoteTypeLocal) then ModeLocal else ModeSoftware).
Proof.
  unfold VerifyNVTrustQuote, VerifyNVTrustQuoteFull, calculateTrustScore.
  destruct (verifyCertChain (CertChain q)); cbn [negb andb fst snd];
    [| by repeat split].
  destruct (verifyQuoteSignature q); cbn [negb andb fst snd]; [| by repeat split].
  cbn [Valid TrustScore HardwareCC Mode].
  split; [done |]. split; [| done].
  destruct (isHardwareCCCapable (GPUModel q)), (CCEnabled q), (TEEIOEnabled q),
    (verifyRIM Sum256 (GPUModel q) (vec_to_list (FirmwareHash q))
       (vec_to_list (DriverHash q)));
    vm_compute; congruence.
Qed.

Lemma same32_spec (a : list byte) (b : vec byte 32) :
  length a = 32%nat -> same32 a b = true <-> a = vec_to_list b.
Proof.
  intros Ha. unfold same32. rewrite forallb_forall. split.
  - intros Hall. apply list_eq. intros i.
    destruct (decide (i < 32)%nat) as [Hi | Hi].
    + eapply bool_decide_eq_true_1. apply Hall. apply in_seq. lia.
    + rewrite !lookup_ge_None_2; [done | rewrite length_vec_to_list; lia | lia].
  - intros -> i _. by apply bool_decide_eq_true_2.
Qed.

(** [verifyRIM] accepts exactly the firmware and driver hashes recorded in
    [knownRIMs] for the model, which is "H100" or "H200" to the letter; such
    a model is hardware-CC capable. *)
Theorem verifyRIM_spec (model firmware driver : list byte) :
  verifyRIM Sum256 model firmware driver = true <->
  exists rim,
    knownRIMs Sum256 !! model = Some rim /\
    (model = str "H100" \/ model = str "H200") /\
    isHardwareCCCapable model = true /\
    firmware = vec_to_list rim.1 /\ driver = vec_to_list rim.2.
Proof.
  unfold verifyRIM.
  assert (Hknown : forall rim, knownRIMs Sum256 !! model = Some rim ->
            (model = str "H100" \/ model = str "H200") /\
            isHardwareCCCapable model = true).
  { intros rim. unfold knownRIMs. rewrite lookup_insert. case_decide as H1.
    - intros _. subst model. split; [by left | by vm_compute].
    - rewrite lookup_insert. case_decide as H2.
      + intros _. subst model. split; [by right | by vm_compute].
      + by rewrite lookup_empty. }
  destruct (knownRIMs Sum256 !! model) as [rim |] eqn:Hk.
  - destruct (Hknown rim eq_refl) as [Hm Hcap].
    destruct (Nat.eqb_spec (length firmware) 32) as [Hf | Hf]; cbn [negb].
    + destruct (same32 firmware rim.1) eqn:Hsf; cbn [negb].
      * apply same32_spec in Hsf; [| done].
        destruct (Nat.eqb_spec (length driver) 32) as [Hd | Hd]; cbn [negb].
        -- destruct (same32 driver rim.2) eqn:Hsd; cbn [negb].
           ++ apply same32_spec in Hsd; [| done]. split; [| done].
              intros _. exists rim. done.
           ++ split; [done |]. intros (rim' & [= <-] & _ & _ & _ & Hd').
              apply (same32_spec driver rim.2 Hd) in Hd'. congruence.
        -- split; [done |]. intros (rim' & [= <-] & _ & _ & _ & Hd').
           rewrite Hd', length_vec_to_list in Hd. done.
      * split; [done |]. intros (rim' & [= <-] & _ & _ & Hf' & _).
        apply (same32_spec firmware rim.1 Hf) in Hf'. congruence.
    + split; [done |]. intros (rim' & [= <-] & _ & _ & Hf' & _).
      rewrite Hf', length_vec_to_list in Hf. done.
  - split; [done |]. by intros (rim & [=] & _).
Qed.

End NVTrustVerify.

Section NVTrustCerts.
Import NVTrust.

Lemma lor_shiftl_8 (a b : Z) :
  0 <= a -> 0 <= b < 256 -> Z.lor (Z.shiftl a 8) b = a * 256 + b.
Proof.
  intros Ha Hb. rewrite Z.shiftl_mul_pow2 by lia. change (2 ^ 8) with 256.
  assert (Hland : Z.land (a * 256) b = 0).
  { apply Z.bits_inj'. intros n Hn. rewrite Z.land_spec, Z.bits_0.
    destruct (Z.lt_ge_cases n 8) as [Hlow | Hhigh].
    - change 256 with (2 ^ 8). by rewrite Z.mul_pow2_bits_low.
    - assert (Hbn : Z.testbit b n = false).
      { apply Z.testbit_false; [done |].
        rewrite Z.div_small; [done |]. split; [lia |].
        apply Z.lt_le_trans with (2 ^ 8); [simpl; lia |].
        apply Z.pow_le_mono_r; lia. }
      by rewrite Hbn, andb_false_r. }
  rewrite <- Z.lxor_lor by done. symmetry. by apply Z.add_nocarry_lxor.
Qed.

(** X21.  [verifyCertChain] accepts a chain exactly when it has at least 512
    bytes and either starts with the DER sequence tag 0x30 (and, when the
    length is in the two-byte long form 0x82, holds the declared number of
    bytes after the 4-byte header) or starts with the PEM header; nothing of
    the certificates themselves is looked at. *)
Theorem verifyCertChain_spec (certChain : list byte) :
  verifyCertChain certChain = true <->
  (512 <= length certChain)%nat /\
  ((certChain !! 0%nat = Some x30 /\
    (certChain !! 1%nat = Some x82 ->
       Z_of_byte (default x00 (certChain !! 2%nat)) * 256
       + Z_of_byte (default x00 (certChain !! 3%nat)) + 4
       <= Z.of_nat (length certChain))) \/
   (certChain !! 0%nat <> Some x30 /\ take 10 certChain = str "-----BEGIN")).
Proof.
  unfold verifyCertChain, NVTrustCertMinSize.
  destruct (Nat.ltb_spec (length certChain) 512) as [Hshort | Hlong].
  { split; [done |]. intros [? _]. lia. }
  destruct (Nat.ltb_spec (length certChain) 4) as [? | _]; [lia |].
  rewrite lor_shiftl_8 by (try apply Z_of_byte_range; pose proof (Z_of_byte_range
    (default x00 (certChain !! 2%nat))); lia).
  destruct (decide (certChain !! 0%nat = Some x30)) as [H0 | H0].
  - rewrite (bool_decide_eq_true_2 _ H0).
    destruct (decide (certChain !! 1%nat = Some x82)) as [H1 | H1].
    + rewrite (bool_decide_eq_true_2 _ H1).
      destruct (Z.ltb_spec (Z.of_nat (length certChain))
                  (Z_of_byte (default x00 (certChain !! 2%nat)) * 256
                   + Z_of_byte (default x00 (certChain !! 3%nat)) + 4)) as [Hlt | Hge].
      * split; [done |]. intros [_ [[_ Hl] | [Hn _]]]; [| done].
        specialize (Hl H1). lia.
      * split; [| done]. intros _. split; [done |]. left. split; [done |]. intros _. lia.
    + rewrite (bool_decide_eq_false_2 _ H1).
      split; [| done]. intros _. split; [done |]. left. split; [done |]. intros H. done.
  - rewrite (bool_decide_eq_false_2 _ H0).
    change (length (str "-----BEGIN")) with 10%nat.
    rewrite (proj2 (Nat.leb_le 10 (length certChain))) by lia.
    destruct (forallb _ _) eqn:Hall.
    + split; [| done]. intros _. split; [done |]. right. split; [done |].
      rewrite forallb_forall in Hall. apply list_eq. intros i.
      destruct (decide (i < 10)%nat) as [Hi | Hi].
      * rewrite lookup_take_lt by done. eapply bool_decide_eq_true_1.
        apply Hall. apply in_seq. lia.
      * rewrite lookup_take_ge by lia. by rewrite lookup_ge_None_2 by (simpl; lia).
    + split; [done |]. intros [_ [[H0' _] | [_ Hpem]]]; [done |].
      assert (Htrue : forallb (fun i => bool_decide (certChain !! i = str "-----BEGIN" !! i))
                        (seq 0 10) = true).
      { apply forallb_forall. intros i Hi. apply in_seq in Hi.
        apply bool_decide_eq_true_2. rewrite <- Hpem.
        by rewrite lookup_take_lt by lia. }
      congruence.
Qed.

End NVTrustCerts.

(** ** The quote theorems at sample quotes *)

Lemma Parse_Serialize_roundtrip_witness :
  NVTrust.ParseNVTrustQuote (NVTrust.SerializeQuote NVTrust.sample_quote)
  = inl NVTrust.sample_quote.
Proof.
  apply Parse_Serialize_roundtrip.
  unfold NVTrust.wellformed. simpl.
  repeat split; first [lia | by right | by vm_compute].
Defined.

Lemma Parse_only_wellformed_witness :
  (154 <= length (NVTrust.SerializeQuote NVTrust.sample_quote))%nat.
Proof.
  destruct (Parse_only_wellformed (NVTrust.SerializeQuote NVTrust.sample_quote)
              NVTrust.sample_quote) as (_ & _ & _ & Hlen).
  - vm_compute. reflexivity.
  - exact Hlen.
Defined.

Lemma Serialize_Parse_witness :
  NVTrust.SerializeQuote NVTrust.sample_quote_flags
  = take 144 NVTrust.sample_input_flags
    ++ put_be 2 (NVTrust.flagsOf NVTrust.sample_quote_flags)
    ++ drop 146 NVTrust.sample_input_flags.
Proof.
  apply (Serialize_Parse NVTrust.sample_input_flags NVTrust.sample_quote_flags).
  vm_compute. reflexivity.
Defined.

(** The two verdicts on a valid quote from a model outside [ccCapable] with
    CC reported on: 65 from [VerifyNVTrustQuote], 50 from
    [VerifyNVTrustQuoteFull]. *)
Example Verify_and_Full_differ (Sum256 : list byte -> vec byte 32) :
  NVTrust.VerifyNVTrustQuote Sum256 NVTrust.sample_quote_a100 = (true, 65) /\
  NVTrust.TrustScore (NVTrust.VerifyNVTrustQuoteFull Sum256 NVTrust.sample_quote_a100) = 50.
Proof.
  assert (Hrim : NVTrust.verifyRIM Sum256 (NVTrust.GPUModel NVTrust.sample_quote_a100)
                   (vec_to_list (NVTrust.FirmwareHash NVTrust.sample_quote_a100))
                   (vec_to_list (NVTrust.DriverHash NVTrust.sample_quote_a100)) = false).
  { unfold NVTrust.verifyRIM, NVTrust.knownRIMs.
    rewrite lookup_insert_ne by (by vm_compute).
    rewrite lookup_insert_ne by (by vm_compute). by rewrite lookup_empty. }
  unfold NVTrust.VerifyNVTrustQuote, NVTrust.VerifyNVTrustQuoteFull. rewrite Hrim.
  split; reflexivity.
Qed.

Example findSubstring_examples :
  NVTrust.findSubstring (NVTrust.str "NVIDIA H100 PCIe") (NVTrust.str "H100") = 7 /\
  NVTrust.findSubstring (NVTrust.str "H1") (NVTrust.str "H100") = -1 /\
  NVTrust.findSubstring (NVTrust.str "H100") [] = 0.
Proof. by vm_compute. Qed.

(* ===================================================================== *)
(** * The post-quantum precompile *)
(* ===================================================================== *)

(** ** The post-quantum precompile *)

Section PQCryptoGas.
Import PQCrypto.
Context `{CryptoLib}.

Lemma mldsaRequiredGas_range data : 75000 <= mldsaRequiredGas data <= 150000.
Proof.
  unfold mldsaRequiredGas. destruct data as [| m ?]; [by vm_compute |].
  repeat case_bool_decide; by vm_compute.
Qed.

Lemma mlkemEncapsulateRequiredGas_range data :
  6000 <= mlkemEncapsulateRequiredGas data <= 10000.
Proof.
  unfold mlkemEncapsulateRequiredGas. destruct data as [| m ?]; [by vm_compute |].
  repeat case_bool_decide; by vm_compute.
Qed.

Lemma mlkemDecapsulateRequiredGas_range data :
  6000 <= mlkemDecapsulateRequiredGas data <= 10000.
Proof.
  unfold mlkemDecapsulateRequiredGas. destruct data as [| m ?]; [by vm_compute |].
  repeat case_bool_decide; by vm_compute.
Qed.

Lemma slhdsaRequiredGas_range data : 50000 <= slhdsaRequiredGas data <= 250000.
Proof.
  unfold slhdsaRequiredGas. destruct data as [| m ?]; [by vm_compute |].
  repeat (match goal with
          | |- context [bool_decide ?P || bool_decide ?Q] =>
              destruct (bool_decide P || bool_decide Q)
          end); by vm_compute.
Qed.

Lemma RequiredGas_zero (input : list byte) :
  RequiredGas input = 0 <->
  (length input < 4)%nat \/ ~ knownSelector (take 4 input).
Proof.
  pose proof (mldsaRequiredGas_range (drop 4 input)).
  pose proof (mlkemEncapsulateRequiredGas_range (drop 4 input)).
  pose proof (mlkemDecapsulateRequiredGas_range (drop 4 input)).
  pose proof (slhdsaRequiredGas_range (drop 4 input)).
  unfold RequiredGas, knownSelector.
  destruct (Nat.ltb_spec (length input) 4) as [Hs | Hl]; [by split; [left |] |].
  cbv zeta.
  repeat case_bool_decide; (split; [intros Hz | intros [Hlt | Hn]]);
    try lia; try tauto; try (right; tauto).
Qed.

(** X22.  [RequiredGas] is 0 exactly for an input without a known selector
    (shorter than 4 bytes, or starting with other bytes); with a known
    selector it lies between 6000 and 250000 whatever follows, a missing or
    unknown mode byte being charged the default of its operation; and an
    ML-KEM encapsulation costs what the decapsulation of the same input
    does. *)
Theorem RequiredGas_range (input : list byte) :
  (RequiredGas input = 0 <->
     (length input < 4)%nat \/ ~ knownSelector (take 4 input)) /\
  ((4 <= length input)%nat -> knownSelector (take 4 input) ->
     6000 <= RequiredGas input <= 250000) /\
  mlkemEncapsulateRequiredGas input = mlkemDecapsulateRequiredGas input.
Proof.
  split; [apply RequiredGas_zero |]. split; [| reflexivity].
  pose proof (mldsaRequiredGas_range (drop 4 input)).
  pose proof (mlkemEncapsulateRequiredGas_range (drop 4 input)).
  pose proof (mlkemDecapsulateRequiredGas_range (drop 4 input)).
  pose proof (slhdsaRequiredGas_range (drop 4 input)).
  unfold RequiredGas, knownSelector.
  intros Hl Hk. rewrite (proj2 (Nat.ltb_ge (length input) 4) Hl).
  cbv zeta. repeat case_bool_decide; try lia. tauto.
Qed.

(** X23.  The gas accounting of [Run]: an input under 4 bytes is refused with all
    the gas returned; with too little gas nothing is executed and nothing is
    returned; otherwise exactly [RequiredGas] is charged, whether the
    operation then succeeds or fails, and an unknown selector is an error
    that costs nothing. *)
Theorem Run_gas (rnd : Rand) (input : list byte) (suppliedGas : Z) :
  ((length input < 4)%nat ->
     Run rnd input suppliedGas = ([], suppliedGas, Some errInvalidInput)) /\
  ((4 <= length input)%nat -> suppliedGas < RequiredGas input ->
     Run rnd input suppliedGas = ([], 0, Some ErrOutOfGas)) /\
  ((4 <= length input)%nat -> RequiredGas input <= suppliedGas ->
     (Run rnd input suppliedGas).1.2 = suppliedGas - RequiredGas input) /\
  ((4 <= length input)%nat -> 0 <= suppliedGas -> ~ knownSelector (take 4 input) ->
     Run rnd input suppliedGas
       = ([], suppliedGas, Some (errUnknownSelector (take 4 input)))).
Proof.
  unfold Run. repeat apply conj.
  - intros Hs. by rewrite (proj2 (Nat.ltb_lt (length input) 4) Hs).
  - intros Hl Hg. rewrite (proj2 (Nat.ltb_ge (length input) 4) Hl).
    by rewrite (proj2 (Z.ltb_lt suppliedGas (RequiredGas input)) Hg).
  - intros Hl Hg. rewrite (proj2 (Nat.ltb_ge (length input) 4) Hl).
    rewrite (proj2 (Z.ltb_ge suppliedGas (RequiredGas input)) Hg). cbv zeta.
    repeat case_bool_decide; try done.
    + by destruct (mldsaVerify _).
    + by destruct (mlkemEncapsulate _ _).
    + by destruct (mlkemDecapsulate _).
    + by destruct (slhdsaVerify _).
  - intros Hl Hg Hn.
    assert (Hz : RequiredGas input = 0) by (apply RequiredGas_zero; by right).
    rewrite (proj2 (Nat.ltb_ge (length input) 4) Hl), Hz.
    rewrite (proj2 (Z.ltb_ge suppliedGas 0) Hg). cbv zeta. rewrite Z.sub_0_r.
    unfold knownSelector in Hn.
    repeat case_bool_decide; try done; exfalso; apply Hn; tauto.
Qed.

End PQCryptoGas.

Section PQCryptoFrames.
Import PQCrypto.
Context `{CryptoLib}.

Lemma be16_put_be (pre rest : list byte) (n i : nat) :
  i = length pre -> Z.of_nat n < 65536 ->
  be16 (pre ++ put_be 2 (Z.of_nat n) ++ rest) i = n.
Proof.
  intros -> Hn. unfold be16.
  cbn [put_be app].
  rewrite (list_lookup_middle pre _ _ (length pre) eq_refl).
  rewrite (lookup_app_r pre _ (S (length pre))) by lia.
  replace (S (length pre) - length pre)%nat with 1%nat by lia.
  cbn [lookup list_lookup default from_option id].
  assert (Hhi : 0 <= Z.of_nat n / 256 < 256)
    by (split; [apply Z.div_pos; lia | apply Z.div_lt_upper_bound; lia]).
  change (256 ^ Z.of_nat 1) with 256. change (256 ^ Z.of_nat 0) with 1.
  rewrite Z.div_1_r, !Z_of_byte_of_Z.
  rewrite lor_shiftl_8 by (try apply Z.mod_pos_bound; lia).
  rewrite (Z.mod_small (Z.of_nat n / 256) 256) by done.
  rewrite (Z.mul_comm _ 256), <- Z.div_mod by lia. apply Nat2Z.id.
Qed.

Ltac pqlen := cbn [app]; rewrite ?length_app; cbn [length]; rewrite ?length_app; lia.

Lemma pq_slice_at (data pre field rest : list byte) (lo hi : nat) :
  data = pre ++ field ++ rest ->
  lo = length pre -> hi = (lo + length field)%nat ->
  slice data lo hi = field.
Proof.
  intros -> -> ->. unfold slice.
  rewrite drop_app_length. replace (length pre + length field - length pre)%nat
    with (length field) by lia.
  by rewrite take_app_length.
Qed.

(** What either verifier reads from a framed input. *)
Lemma signatureInput_parts (m : byte) (pk msg sig : list byte) :
  Z.of_nat (length pk) < 65536 -> Z.of_nat (length msg) < 65536 ->
  let input := signatureInput m pk msg sig in
  length input = (5 + length pk + length msg + length sig)%nat /\
  input !! 0%nat = Some m /\
  be16 input 1 = length pk /\
  slice input 3 (3 + length pk) = pk /\
  be16 input (3 + length pk) = length msg /\
  slice input (3 + length pk + 2) (3 + length pk + 2 + length msg) = msg /\
  drop (3 + length pk + 2 + length msg) input = sig.
Proof.
  intros Hpk Hmsg input. subst input. unfold signatureInput.
  set (l1 := put_be 2 (Z.of_nat (length pk))).
  set (l2 := put_be 2 (Z.of_nat (length msg))).
  assert (Hl1 : length l1 = 2%nat) by apply put_be_length.
  assert (Hl2 : length l2 = 2%nat) by apply put_be_length.
  split; [pqlen |].
  split; [done |].
  split; [subst l1; by apply (be16_put_be [m]) |].
  split.
  { apply (pq_slice_at _ ([m] ++ l1) pk (l2 ++ msg ++ sig));
      [by rewrite <- !app_assoc | pqlen
      | pqlen]. }
  split.
  { subst l2.
    replace ([m] ++ l1 ++ pk ++ put_be 2 (Z.of_nat (length msg)) ++ msg ++ sig)
      with (([m] ++ l1 ++ pk) ++ put_be 2 (Z.of_nat (length msg)) ++ msg ++ sig)
      by (by rewrite <- !app_assoc).
    apply be16_put_be; [pqlen | done]. }
  split.
  { apply (pq_slice_at _ ([m] ++ l1 ++ pk ++ l2) msg sig);
      [by rewrite <- !app_assoc | pqlen
      | pqlen]. }
  replace ([m] ++ l1 ++ pk ++ l2 ++ msg ++ sig)
    with (([m] ++ l1 ++ pk ++ l2 ++ msg) ++ sig) by (by rewrite <- !app_assoc).
  apply drop_app_length'. pqlen.
Qed.

(** X24.  The two signature checks read the same frame: on a mode byte, the
    16-bit length of the public key, the key, the 16-bit length of the
    message, the message and then the signature, [mldsaVerify] and
    [slhdsaVerify] pass exactly these three parts to the library and return
    the one byte 1 or 0; only the frame whose three parts are all empty is
    too short. *)
Theorem signature_frames (mode : MLDSAMode) (mode' : SLHDSAMode)
    (pk msg sig : list byte) :
  Z.of_nat (length pk) < 65536 -> Z.of_nat (length msg) < 65536 ->
  mldsaVerify (signatureInput (mldsaModeByte mode) pk msg sig) =
    (if decide (length pk + length msg + length sig = 0)%nat
     then ([], Some errInvalidInput)
     else
       match mldsa_PublicKeyFromBytes pk mode with
       | inr err => ([], Some (errLibrary err))
       | inl pubKey => ([if mldsa_Verify pubKey msg sig then x01 else x00], None)
       end) /\
  slhdsaVerify (signatureInput (slhdsaModeByte mode') pk msg sig) =
    (if decide (length pk + length msg + length sig = 0)%nat
     then ([], Some errInvalidInput)
     else
       match slhdsa_PublicKeyFromBytes pk mode' with
       | inr err => ([], Some (errLibrary err))
       | inl pubKey => ([if slhdsa_Verify pubKey msg sig then x01 else x00], None)
       end).
Proof.
  intros Hpk Hmsg. split.
  - destruct (signatureInput_parts (mldsaModeByte mode) pk msg sig Hpk Hmsg)
      as (Hlen & H0 & Hb1 & Hs1 & Hb2 & Hs2 & Hd).
    unfold mldsaVerify. rewrite Hlen, H0.
    case_decide as Hz.
    { by rewrite (proj2 (Nat.ltb_lt (5 + length pk + length msg + length sig) 6))
        by lia. }
    rewrite (proj2 (Nat.ltb_ge (5 + length pk + length msg + length sig) 6)) by lia.
    cbn [default from_option id].
    assert (Hmode : (if bool_decide (mldsaModeByte mode = MLDSAMode44) then Some MLDSA44
                     else if bool_decide (mldsaModeByte mode = MLDSAMode65) then Some MLDSA65
                     else if bool_decide (mldsaModeByte mode = MLDSAMode87) then Some MLDSA87
                     else None) = Some mode) by (by destruct mode).
    cbv zeta. rewrite Hmode, Hb1, Hs1, Hb2, Hs2, Hd.
    rewrite !(proj2 (Nat.ltb_ge _ _)) by lia.
    destruct (mldsa_PublicKeyFromBytes pk mode) as [key | err]; [| done].
    by destruct (mldsa_Verify key msg sig).
  - destruct (signatureInput_parts (slhdsaModeByte mode') pk msg sig Hpk Hmsg)
      as (Hlen & H0 & Hb1 & Hs1 & Hb2 & Hs2 & Hd).
    unfold slhdsaVerify. rewrite Hlen, H0.
    case_decide as Hz.
    { by rewrite (proj2 (Nat.ltb_lt (5 + length pk + length msg + length sig) 6))
        by lia. }
    rewrite (proj2 (Nat.ltb_ge (5 + length pk + length msg + length sig) 6)) by lia.
    cbn [default from_option id].
    assert (Hmode : slhdsaModeOf (slhdsaModeByte mode') = Some mode')
      by (by destruct mode').
    cbv zeta. rewrite Hmode, Hb1, Hs1, Hb2, Hs2, Hd.
    rewrite !(proj2 (Nat.ltb_ge _ _)) by lia.
    destruct (slhdsa_PublicKeyFromBytes pk mode') as [key | err]; [| done].
    by destruct (slhdsa_Verify key msg sig).
Qed.

(** X25.  Whatever the input, a verification that returns no error returns one
    byte, 1 or 0; and on an input of at least 6 bytes a mode byte outside
    the scheme's list is reported as such before any length field is
    read. *)
Theorem verify_output (input : list byte) :
  (forall ret, mldsaVerify input = (ret, None) -> ret = [x01] \/ ret = [x00]) /\
  (forall ret, slhdsaVerify input = (ret, None) -> ret = [x01] \/ ret = [x00]) /\
  ((6 <= length input)%nat ->
     (forall mode, default x00 (input !! 0%nat) <> mldsaModeByte mode) ->
     mldsaVerify input = ([], Some (errInvalidMode (default x00 (input !! 0%nat))))) /\
  ((6 <= length input)%nat ->
     (forall mode, default x00 (input !! 0%nat) <> slhdsaModeByte mode) ->
     slhdsaVerify input = ([], Some (errInvalidMode (default x00 (input !! 0%nat))))).
Proof.
  repeat apply conj.
  - intros ret. unfold mldsaVerify.
    repeat (match goal with
            | |- context [if ?c then _ else _] => destruct c
            | |- context [match ?x with inl _ => _ | inr _ => _ end] => destruct x
            end; try discriminate); intros [= <-]; auto.
  - intros ret. unfold slhdsaVerify.
    destruct (_ <? _)%nat; [discriminate |].
    destruct (slhdsaModeOf _); [| discriminate].
    repeat (match goal with
            | |- context [if ?c then _ else _] => destruct c
            | |- context [match ?x with inl _ => _ | inr _ => _ end] => destruct x
            end; try discriminate); intros [= <-]; auto.
  - intros Hlen Hmode. unfold mldsaVerify.
    rewrite (proj2 (Nat.ltb_ge (length input) 6) Hlen).
    rewrite !bool_decide_eq_false_2; [done | apply (Hmode MLDSA87)
      | apply (Hmode MLDSA65) | apply (Hmode MLDSA44)].
  - intros Hlen Hmode. unfold slhdsaVerify, slhdsaModeOf.
    rewrite (proj2 (Nat.ltb_ge (length input) 6) Hlen).
    rewrite !bool_decide_eq_false_2; first [done | idtac].
    all: first [ apply (Hmode SHA2_128s) | apply (Hmode SHA2_128f) | apply (Hmode SHA2_192s)
               | apply (Hmode SHA2_192f) | apply (Hmode SHA2_256s) | apply (Hmode SHA2_256f)
               | apply (Hmode SHAKE_128s) | apply (Hmode SHAKE_128f)
               | apply (Hmode SHAKE_192s) | apply (Hmode SHAKE_192f)
               | apply (Hmode SHAKE_256s) | apply (Hmode SHAKE_256f) ].
Qed.

(** X26.  [mlkemDecapsulate] on a framed input (mode byte, 2-byte key length,
    private key, ciphertext): a ciphertext of another size than the mode's
    is refused with both sizes; otherwise the library decapsulates exactly
    that ciphertext under exactly that key, and its shared secret or its
    error is the result. *)
Theorem mlkemDecapsulate_frame (mode : MLKEMMode) (sk ct : list byte) :
  Z.of_nat (length sk) < 65536 -> (0 < length sk + length ct)%nat ->
  mlkemDecapsulate (decapsulateInput (mlkemModeByte mode) sk ct) =
    if decide (length ct = MLKEMCiphertextSize mode)
    then
      match mlkem_PrivateKeyFromBytes sk mode with
      | inr err => ([], Some (errLibrary err))
      | inl privKey =>
          match mlkem_Decapsulate privKey ct with
          | inr err => ([], Some (errLibrary err))
          | inl sharedSecret => (sharedSecret, None)
          end
      end
    else ([], Some (errInvalidInputSize (MLKEMCiphertextSize mode) (length ct))).
Proof.
  intros Hsk Hne. unfold decapsulateInput.
  set (l1 := put_be 2 (Z.of_nat (length sk))).
  assert (Hl1 : length l1 = 2%nat) by apply put_be_length.
  set (input := [mlkemModeByte mode] ++ l1 ++ sk ++ ct).
  assert (Hlen : length input = (3 + length sk + length ct)%nat)
    by (subst input; pqlen).
  assert (Hb : be16 input 1 = length sk)
    by (subst input l1; by apply (be16_put_be [mlkemModeByte mode])).
  assert (Hs : slice input 3 (3 + length sk) = sk).
  { apply (pq_slice_at _ ([mlkemModeByte mode] ++ l1) sk ct);
      [by subst input; rewrite <- !app_assoc | pqlen
      | pqlen]. }
  assert (Hd : drop (3 + length sk) input = ct).
  { subst input.
    replace ([mlkemModeByte mode] ++ l1 ++ sk ++ ct)
      with (([mlkemModeByte mode] ++ l1 ++ sk) ++ ct) by (by rewrite <- !app_assoc).
    apply drop_app_length'. pqlen. }
  unfold mlkemDecapsulate. rewrite Hlen.
  rewrite (proj2 (Nat.ltb_ge (3 + length sk + length ct) 4)) by lia.
  assert (H0 : input !! 0%nat = Some (mlkemModeByte mode)) by done.
  rewrite H0. cbn [default from_option id].
  assert (Hmode : (if bool_decide (mlkemModeByte mode = MLKEMMode512) then Some MLKEM512
                   else if bool_decide (mlkemModeByte mode = MLKEMMode768) then Some MLKEM768
                   else if bool_decide (mlkemModeByte mode = MLKEMMode1024)
                   then Some MLKEM1024 else None) = Some mode) by (by destruct mode).
  cbv zeta. rewrite Hmode, Hb, Hs, Hd.
  rewrite (proj2 (Nat.ltb_ge (3 + length sk + length ct) (3 + length sk))) by lia.
  destruct (decide (length ct = MLKEMCiphertextSize mode)) as [Hct | Hct].
  - rewrite (proj2 (Nat.eqb_eq _ _) Hct). cbn [negb].
    destruct (mlkem_PrivateKeyFromBytes sk mode) as [key | err]; [| done].
    by destruct (mlkem_Decapsulate key ct).
  - by rewrite (proj2 (Nat.eqb_neq _ _) Hct).
Qed.

End PQCryptoFrames.

Section PQCryptoEncapsulate.
Import PQCrypto.
Context `{CryptoLib}.

(** X27.  [mlkemEncapsulate] on a mode byte followed by a public key: a key of
    another size than the mode's is refused with both sizes; otherwise the
    output is the library's ciphertext followed by its shared secret, drawn
    from the random source. *)
Theorem mlkemEncapsulate_frame (rnd : Rand) (mode : MLKEMMode) (pk : list byte) :
  (0 < length pk)%nat ->
  mlkemEncapsulate rnd (mlkemModeByte mode :: pk) =
    if decide (length pk = MLKEMPublicKeySize mode)
    then
      match mlkem_PublicKeyFromBytes pk mode with
      | inr err => ([], Some (errLibrary err))
      | inl pubKey =>
          match mlkem_Encapsulate pubKey rnd with
          | inr err => ([], Some (errLibrary err))
          | inl (ciphertext, sharedSecret) => (ciphertext ++ sharedSecret, None)
          end
      end
    else ([], Some (errInvalidInputSize (MLKEMPublicKeySize mode) (length pk))).
Proof.
  intros Hpk. unfold mlkemEncapsulate. cbn [length].
  rewrite (proj2 (Nat.ltb_ge (S (length pk)) 2)) by lia.
  cbn [lookup list_lookup default from_option id drop].
  assert (Hmode : (if bool_decide (mlkemModeByte mode = MLKEMMode512) then Some MLKEM512
                   else if bool_decide (mlkemModeByte mode = MLKEMMode768) then Some MLKEM768
                   else if bool_decide (mlkemModeByte mode = MLKEMMode1024)
                   then Some MLKEM1024 else None) = Some mode) by (by destruct mode).
  cbv zeta. rewrite Hmode. cbn [drop]. rewrite !drop_0.
  destruct (decide (length pk = MLKEMPublicKeySize mode)) as [Hsz | Hsz].
  - rewrite (proj2 (Nat.eqb_eq _ _) Hsz). cbn [negb].
    destruct (mlkem_PublicKeyFromBytes pk mode) as [key | err]; [| done].
    by destruct (mlkem_Encapsulate key rnd) as [[ct ss] | err].
  - by rewrite (proj2 (Nat.eqb_neq _ _) Hsz).
Qed.

End PQCryptoEncapsulate.

(** ** The precompile on sample inputs *)

Lemma signature_frames_witness :
  @PQCrypto.mldsaVerify PQCrypto.toyLib
    (@PQCrypto.signatureInput (PQCrypto.mldsaModeByte PQCrypto.MLDSA44)
       (PQCrypto.str "key") (PQCrypto.str "msg") (PQCrypto.str "sig"))
  = ([x00], None) /\
  @PQCrypto.slhdsaVerify PQCrypto.toyLib
    (@PQCrypto.signatureInput (PQCrypto.slhdsaModeByte PQCrypto.SHAKE_128s)
       (PQCrypto.str "key") (PQCrypto.str "msg") (PQCrypto.str "sig"))
  = ([x00], None).
Proof.
  apply (@signature_frames PQCrypto.toyLib PQCrypto.MLDSA44 PQCrypto.SHAKE_128s
           (PQCrypto.str "key") (PQCrypto.str "msg") (PQCrypto.str "sig")); simpl; lia.
Defined.

Example signature_accepted :
  @PQCrypto.mldsaVerify PQCrypto.toyLib
    (@PQCrypto.signatureInput (PQCrypto.mldsaModeByte PQCrypto.MLDSA44)
       (PQCrypto.str "key") (PQCrypto.str "msg") (PQCrypto.str "msg"))
  = ([x01], None).
Proof. vm_compute. reflexivity. Qed.

Lemma mlkemDecapsulate_frame_witness :
  @PQCrypto.mlkemDecapsulate PQCrypto.toyLib
    (@PQCrypto.decapsulateInput (@PQCrypto.mlkemModeByte PQCrypto.MLKEM512)
       (PQCrypto.str "key") (PQCrypto.str "short"))
  = ([], Some (@PQCrypto.errInvalidInputSize PQCrypto.toyLib 768 5)).
Proof.
  etransitivity.
  - apply (@mlkemDecapsulate_frame PQCrypto.toyLib PQCrypto.MLKEM512 (PQCrypto.str "key")
             (PQCrypto.str "short")); simpl; lia.
  - reflexivity.
Defined.

Lemma mlkemEncapsulate_frame_witness :
  @PQCrypto.mlkemEncapsulate PQCrypto.toyLib tt
    (@PQCrypto.mlkemModeByte PQCrypto.MLKEM768 :: PQCrypto.str "key")
  = ([], Some (@PQCrypto.errInvalidInputSize PQCrypto.toyLib 1184 3)).
Proof.
  etransitivity.
  - apply (@mlkemEncapsulate_frame PQCrypto.toyLib tt PQCrypto.MLKEM768
             (PQCrypto.str "key")); simpl; lia.
  - reflexivity.
Defined.

(** ** The module registry *)

Lemma Z_of_byte_inj (a b : byte) : Z_of_byte a = Z_of_byte b -> a = b.
Proof.
  intros E. rewrite <- (byte_of_Z_of_byte a), <- (byte_of_Z_of_byte b). by rewrite E.
Qed.

Section RegistryFacts.
Import Modules.

Lemma Compare_cons (x y : byte) (a b : list byte) :
  Compare (x :: a) (y :: b) =
    if Z_of_byte x <? Z_of_byte y then -1
    else if Z_of_byte y <? Z_of_byte x then 1
    else Compare a b.
Proof. reflexivity. Qed.

(** Against a run of zero bytes the comparison is decided by the first
    nonzero byte, which makes the left side the greater. *)
Lemma Compare_app_zeros (mid t u : list byte) :
  Compare (mid ++ t) (replicate (length mid) x00 ++ u) =
    if decide (mid = replicate (length mid) x00) then Compare t u else 1.
Proof.
  induction mid as [| x mid IH]; [done |].
  cbn [length replicate app]. rewrite Compare_cons.
  pose proof (Z_of_byte_range x) as Hx.
  change (Z_of_byte x00) with 0.
  destruct (Z.ltb_spec (Z_of_byte x) 0) as [? | _]; [lia |].
  destruct (Z.ltb_spec 0 (Z_of_byte x)) as [Hpos | Hz].
  - rewrite decide_False; [done |]. intros [= -> _]. vm_compute in Hpos. done.
  - assert (x = x00) as -> by (apply Z_of_byte_inj; change (Z_of_byte x00) with 0; lia).
    rewrite IH. destruct (decide (mid = replicate (length mid) x00)) as [E | E].
    + rewrite decide_True; [done |]. by f_equal.
    + rewrite decide_False; [done |]. by intros [= ?].
Qed.

Lemma Address_shape (addr : Address) :
  exists b0 mid last,
    AddressBytes addr = b0 :: mid ++ [last] /\ length mid = 18%nat.
Proof.
  destruct addr as [v]. unfold AddressBytes. cbn [AddressVec].
  inv_vec v. intros b0 b1 b2 b3 b4 b5 b6 b7 b8 b9 b10 b11 b12 b13 b14 b15 b16 b17 b18 b19.
  exists b0, [b1; b2; b3; b4; b5; b6; b7; b8; b9; b10; b11; b12; b13; b14; b15; b16;
              b17; b18], b19.
  done.
Qed.

(** A range from [p 00 .. 00 00] to [p 00 .. 00 ff] holds the addresses that
    differ from its start in the last byte only. *)
Lemma Contains_last_byte (r : AddressRange) (p : byte) (addr : Address) :
  AddressBytes (Start r) = p :: replicate 18 x00 ++ [x00] ->
  AddressBytes (End r) = p :: replicate 18 x00 ++ [xff] ->
  Contains r addr = true <->
  exists last, AddressBytes addr = p :: replicate 18 x00 ++ [last].
Proof.
  intros Hs He. unfold Contains. cbv zeta. rewrite Hs, He.
  destruct (Address_shape addr) as (b0 & mid & last & -> & Hmid).
  rewrite !Compare_cons. rewrite <- Hmid, !Compare_app_zeros. rewrite Hmid.
  pose proof (Z_of_byte_range last) as Hl.
  destruct (Z.ltb_spec (Z_of_byte b0) (Z_of_byte p)) as [Hlt | Hge].
  { split; [done |]. intros (l & [= -> _]). lia. }
  destruct (Z.ltb_spec (Z_of_byte p) (Z_of_byte b0)) as [Hgt | Hle].
  { rewrite andb_false_r. split; [done |]. intros (l & [= -> _]). lia. }
  assert (b0 = p) as -> by (apply Z_of_byte_inj; lia).
  destruct (decide (mid = replicate 18 x00)) as [-> | Hne].
  - split; [by exists last |]. intros _.
    rewrite !Compare_cons. change (Z_of_byte x00) with 0. change (Z_of_byte xff) with 255.
    apply andb_true_intro. split.
    + destruct (Z.ltb_spec (Z_of_byte last) 0); [lia |].
      by destruct (Z.ltb_spec 0 (Z_of_byte last)).
    + destruct (Z.ltb_spec (Z_of_byte last) 255); [done |].
      destruct (Z.ltb_spec 255 (Z_of_byte last)); [lia |]. done.
  - rewrite andb_false_r. split; [done |]. intros (l & [= E]).
    apply (app_inj_1 mid (replicate 18 x00) [last] [l]) in E as [E _]; [done |].
    by rewrite length_replicate.
Qed.

(** X28.  [ReservedAddress] holds of exactly the 768 addresses whose first byte
    is 1, 2 or 3 and whose next eighteen bytes are zero. *)
Theorem ReservedAddress_spec (addr : Address) :
  ReservedAddress addr = true <->
  exists p last,
    (p = x01 \/ p = x02 \/ p = x03) /\
    AddressBytes addr = p :: replicate 18 x00 ++ [last].
Proof.
  unfold ReservedAddress, reservedRanges. cbn [existsb].
  rewrite orb_false_r, !orb_true_iff.
  rewrite (Contains_last_byte _ x01 addr) by (vm_compute; reflexivity).
  rewrite (Contains_last_byte _ x02 addr) by (vm_compute; reflexivity).
  rewrite (Contains_last_byte _ x03 addr) by (vm_compute; reflexivity).
  split.
  - intros [(l & E) | [(l & E) | (l & E)]]; [exists x01, l | exists x02, l | exists x03, l];
      auto.
  - intros (p & l & [-> | [-> | ->]] & E); [left | right; left | right; right];
      by exists l.
Qed.

Section Registry.
Context {C K : Type}.
Variable sortModules : list (ModuleT C K) -> list (ModuleT C K).
Hypothesis sortModules_perm : forall data, sortModules data ≡ₚ data.

Lemma registeredClash_None (reg : list (ModuleT C K)) (key : string) (address : Address) :
  registeredClash reg key address = None <->
  forall m, m ∈ reg -> ConfigKey m <> key /\ ModuleAddress m <> address.
Proof.
  induction reg as [| m0 reg IH]; cbn [registeredClash].
  - split; [| done]. intros _ m Hm. by apply elem_of_nil in Hm.
  - repeat case_bool_decide.
    + split; [done |]. intros Hall. by destruct (Hall m0 (list_elem_of_here _ _)).
    + split; [done |]. intros Hall. by destruct (Hall m0 (list_elem_of_here _ _)).
    + rewrite IH. split.
      * intros Hall m Hm. apply elem_of_cons in Hm as [-> | Hm]; [done | by apply Hall].
      * intros Hall m Hm. apply Hall. by apply list_elem_of_further.
Qed.

Lemma RegisterModule_result (reg : list (ModuleT C K)) (stm : ModuleT C K) :
  (exists err, RegisterModule sortModules reg stm = (reg, Some err)) \/
  (RegisterModule sortModules reg stm = (sortModules (reg ++ [stm]), None) /\
   forall m, m ∈ reg ->
     ConfigKey m <> ConfigKey stm /\ ModuleAddress m <> ModuleAddress stm) /\
   ModuleAddress stm <> BlackholeAddr /\
   ReservedAddress (ModuleAddress stm) = true.
Proof.
  unfold RegisterModule, insertSortedByAddress. cbv zeta.
  case_bool_decide as Hb; [left; by eexists |].
  destruct (ReservedAddress (ModuleAddress stm)) eqn:Hr; cbn [negb];
    [| left; by eexists].
  destruct (registeredClash reg (ConfigKey stm) (ModuleAddress stm)) as [err |] eqn:Hc;
    [left; by eexists |].
  right. split; [| done]. split; [done |]. by apply registeredClash_None.
Qed.

Lemma registry_ok_step (stms reg : list (ModuleT C K)) (stm : ModuleT C K) :
  registry_ok stms reg ->
  registry_ok (stms ++ [stm]) (RegisterModule sortModules reg stm).1.
Proof.
  intros (Hk & Ha & Hall).
  destruct (RegisterModule_result reg stm)
    as [(err & ->) | ((-> & Hfresh) & Hb & Hr)]; cbn [fst].
  - split; [done |]. split; [done |].
    intros m Hm. destruct (Hall m Hm) as (? & ? & ?).
    split; [| done]. apply elem_of_app. by left.
  - pose proof (sortModules_perm (reg ++ [stm])) as Hok.
    split; [| split].
    + rewrite Hok, fmap_app. apply NoDup_app. split; [done |]. split.
      * intros k Hin Hin'. apply list_elem_of_singleton in Hin'. subst k.
        apply list_elem_of_fmap in Hin as (m & Hm & Hin). symmetry in Hm.
        by destruct (Hfresh m Hin).
      * apply NoDup_singleton.
    + rewrite Hok, fmap_app. apply NoDup_app. split; [done |]. split.
      * intros k Hin Hin'. apply list_elem_of_singleton in Hin'. subst k.
        apply list_elem_of_fmap in Hin as (m & Hm & Hin). symmetry in Hm.
        by destruct (Hfresh m Hin).
      * apply NoDup_singleton.
    + intros m Hm. rewrite Hok in Hm. apply elem_of_app in Hm as [Hm | Hm].
      * destruct (Hall m Hm) as (? & ? & ?). split; [| done].
        apply elem_of_app. by left.
      * apply list_elem_of_singleton in Hm. subst m. split; [| done].
        apply elem_of_app. right. apply list_elem_of_here.
Qed.

Lemma registry_ok_run (stms done_ reg : list (ModuleT C K)) :
  registry_ok done_ reg ->
  registry_ok (done_ ++ stms) (registerAll sortModules reg stms).
Proof.
  revert done_ reg. induction stms as [| stm stms IH]; intros done_ reg Hok.
  - by rewrite app_nil_r.
  - cbn [registerAll fold_left].
    replace (done_ ++ stm :: stms) with ((done_ ++ [stm]) ++ stms)
      by (by rewrite <- app_assoc).
    apply IH. by apply registry_ok_step.
Qed.

Lemma find_NoDup {A B : Type} `{EqDecision B} (f : A -> B) (l : list A) (m : A) :
  NoDup (f <$> l) -> m ∈ l ->
  find (fun x => bool_decide (f x = f m)) l = Some m.
Proof.
  induction l as [| x l IH]; intros Hnd Hm; [by apply elem_of_nil in Hm |].
  rewrite fmap_cons in Hnd. apply NoDup_cons in Hnd as [Hx Hnd].
  cbn [find]. apply elem_of_cons in Hm as [-> | Hm].
  - by rewrite bool_decide_eq_true_2.
  - rewrite bool_decide_eq_false_2; [by apply IH |].
    intros E. apply Hx. rewrite E. apply list_elem_of_fmap. by exists m.
Qed.

(** X29.  [RegisterModule] accepts a module exactly when its address is not the
    blackhole address, is reserved, and neither its key nor its address is
    taken; it then adds that one module to the registered ones, and on every
    error it leaves them as they were. *)
Theorem RegisterModule_spec (reg : list (ModuleT C K)) (stm : ModuleT C K) :
  ((RegisterModule sortModules reg stm).2 = None <->
     ModuleAddress stm <> BlackholeAddr /\
     ReservedAddress (ModuleAddress stm) = true /\
     forall m, m ∈ reg ->
       ConfigKey m <> ConfigKey stm /\ ModuleAddress m <> ModuleAddress stm) /\
  ((RegisterModule sortModules reg stm).2 = None ->
     (RegisterModule sortModules reg stm).1 ≡ₚ reg ++ [stm]) /\
  ((RegisterModule sortModules reg stm).2 <> None ->
     (RegisterModule sortModules reg stm).1 = reg).
Proof.
  unfold RegisterModule. cbv zeta.
  pose proof (registeredClash_None reg (ConfigKey stm) (ModuleAddress stm)) as Hc.
  case_bool_decide as Hb.
  { cbn [fst snd]. split; [| by split]. split; [done | tauto]. }
  destruct (ReservedAddress (ModuleAddress stm)) eqn:Hr; cbn [negb].
  2: { cbn [fst snd]. split; [| by split]. split; [done |]. by intros (_ & ? & _). }
  destruct (registeredClash reg (ConfigKey stm) (ModuleAddress stm)) as [err |];
    cbn [fst snd].
  - split; [| by split]. split; [done |]. intros (_ & _ & Hall).
    by apply Hc in Hall.
  - split; [| split; [| done]].
    + split; [| done]. intros _. split; [done |]. split; [done |]. by apply Hc.
    + intros _. apply sortModules_perm.
Qed.

(** X30.  Whatever modules are offered to [RegisterModule], in whatever order and
    with whatever outcome, a module that is registered afterwards is one of
    those offered, sits at a reserved address other than the blackhole
    address, and is the module that both lookups return for its key and for
    its address. *)
Theorem registry_lookup (stms : list (ModuleT C K)) (m : ModuleT C K) :
  m ∈ RegisteredModules (registerAll sortModules [] stms) ->
  m ∈ stms /\
  ReservedAddress (ModuleAddress m) = true /\
  ModuleAddress m <> BlackholeAddr /\
  GetPrecompileModule (registerAll sortModules [] stms) (ConfigKey m) = Some m /\
  GetPrecompileModuleByAddress (registerAll sortModules [] stms) (ModuleAddress m)
    = Some m.
Proof.
  unfold RegisteredModules. intros Hm.
  assert (Hinit : @registry_ok C K [] []).
  { split; [apply NoDup_nil_2 |]. split; [apply NoDup_nil_2 |].
    intros x Hx. by apply elem_of_nil in Hx. }
  destruct (registry_ok_run stms [] [] Hinit) as (Hk & Ha & Hall).
  destruct (Hall m Hm) as (Hin & Hr & Hb).
  split; [done |]. split; [done |]. split; [done |]. split.
  - by apply (find_NoDup ConfigKey).
  - by apply (find_NoDup ModuleAddress).
Qed.

(** A lookup that finds nothing means that no registered module has the key
    (or the address); a lookup that finds a module finds a registered one
    with that key (or address). *)
Lemma lookup_found (reg : list (ModuleT C K)) (key : string) (address : Address) :
  (GetPrecompileModule reg key = None <-> forall m, m ∈ reg -> ConfigKey m <> key) /\
  (GetPrecompileModuleByAddress reg address = None <->
     forall m, m ∈ reg -> ModuleAddress m <> address) /\
  (forall m, GetPrecompileModule reg key = Some m -> m ∈ reg /\ ConfigKey m = key) /\
  (forall m, GetPrecompileModuleByAddress reg address = Some m ->
     m ∈ reg /\ ModuleAddress m = address).
Proof.
  unfold GetPrecompileModule, GetPrecompileModuleByAddress.
  repeat apply conj.
  - intros Hn m Hm E. apply list_elem_of_In in Hm.
    pose proof (find_none _ _ Hn m Hm) as Hf. cbv beta in Hf.
    by rewrite bool_decide_eq_true_2 in Hf.
  - intros Hall. destruct (find _ reg) as [m |] eqn:E; [| done].
    apply find_some in E as [Hin Hb]. apply bool_decide_eq_true_1 in Hb.
    apply list_elem_of_In in Hin. by destruct (Hall m Hin).
  - intros Hn m Hm E. apply list_elem_of_In in Hm.
    pose proof (find_none _ _ Hn m Hm) as Hf. cbv beta in Hf.
    by rewrite bool_decide_eq_true_2 in Hf.
  - intros Hall. destruct (find _ reg) as [m |] eqn:E; [| done].
    apply find_some in E as [Hin Hb]. apply bool_decide_eq_true_1 in Hb.
    apply list_elem_of_In in Hin. by destruct (Hall m Hin).
  - intros m E. apply find_some in E as [Hin Hb]. apply bool_decide_eq_true_1 in Hb.
    by apply list_elem_of_In in Hin.
  - intros m E. apply find_some in E as [Hin Hb]. apply bool_decide_eq_true_1 in Hb.
    by apply list_elem_of_In in Hin.
Qed.

End Registry.
End RegistryFacts.

(** ** The registry on the modules of the packages *)

Lemma sortByAddress_perm {C K : Type} (data : list (Modules.ModuleT C K)) :
  Modules.sortByAddress data ≡ₚ data.
Proof. apply sorting.merge_sort_Permutation. Qed.

Lemma registry_lookup_witness :
  Modules.GetPrecompileModule
    (Modules.registerAll Modules.sortByAddress []
       [Modules.sampleModule; Modules.fheModule'; Modules.fheModule; Modules.fheModule])
    "fheConfig" = Some Modules.fheModule.
Proof.
  apply (proj1 (proj2 (proj2 (proj2
    (registry_lookup Modules.sortByAddress sortByAddress_perm
       [Modules.sampleModule; Modules.fheModule'; Modules.fheModule; Modules.fheModule]
       Modules.fheModule ltac:(vm_compute; apply list_elem_of_here)))))).
Defined.

(** The blackhole address is the first address of the first reserved range,
    and the one reserved address that is refused; of the two addresses that
    [fhe/module.go] gives its module, the one under [0x02] is accepted and
    the one under [0x07] is not reserved. *)
Example RegisterModule_examples :
  Modules.ReservedAddress Modules.BlackholeAddr = true /\
  Modules.RegisterModule Modules.sortByAddress [] Modules.fheModule
    = ([Modules.fheModule], None) /\
  Modules.RegisterModule Modules.sortByAddress [] Modules.fheModule'
    = ([], Some (Modules.errNotReserved (Modules.ModuleAddress Modules.fheModule'))) /\
  Modules.registerAll Modules.sortByAddress []
    [Modules.sampleModule; Modules.fheModule'; Modules.fheModule; Modules.fheModule]
    = [Modules.fheModule; Modules.sampleModule].
Proof. vm_compute. done. Qed.

Lemma RegisterModule_spec_witness :
  (Modules.RegisterModule Modules.sortByAddress [Modules.fheModule] Modules.sampleModule).1
  ≡ₚ [Modules.fheModule] ++ [Modules.sampleModule].
Proof.
  apply (proj1 (proj2 (RegisterModule_spec Modules.sortByAddress sortByAddress_perm
                         [Modules.fheModule] Modules.sampleModule))).
  vm_compute. reflexivity.
Defined.
